(** * vhost control plane (hw/vhost.c): region table, dirty log, reconciler

    A shallow embedding of the memory-region bookkeeping, the dirty-log
    synchroniser and the log/feature reconciler of [hw/vhost.c], with the
    properties stated about them in the specification. *)

From Stdlib Require Import ZArith List Bool Lia Permutation.
Import ListNotations.
Local Open Scope Z_scope.

(** ** Unsigned 64-bit arithmetic *)

Definition U64 : Z := 18446744073709551616.

(** A [uint64_t] is a [Z] in [0, U64); every C operation wraps. *)
Definition u64 (z : Z) : Z := z mod U64.

Definition MIN (a b : Z) : Z := if a <? b then a else b.
Definition MAX (a b : Z) : Z := if a >? b then a else b.

(** Modelled from the spec: [range.h] is not among the sources.  The last
    byte of the range that starts at [offset] and is [len] bytes long. *)
Definition range_get_last (offset len : Z) : Z := u64 (offset + len - 1).

(** Modelled from the spec: [range.h] is not among the sources.  Two ranges
    overlap unless one ends before the other starts. *)
Definition ranges_overlap (first1 len1 first2 len2 : Z) : bool :=
  let last1 := range_get_last first1 len1 in
  let last2 := range_get_last first2 len2 in
  negb ((last2 <? first1) || (last1 <? first2)).

(** ** Region table *)

(** [struct vhost_memory_region]; the padding word is always zero and is
    left out. *)
Record vhost_memory_region : Type := mkreg {
  guest_phys_addr : Z;
  memory_size : Z;
  userspace_addr : Z
}.

(** [dev->mem->regions[0 .. nregions)]. *)
Definition region_table : Type := list vhost_memory_region.

(** Option monad for code that may stop on a failed [assert]. *)
Definition assert (b : bool) : option unit := if b then Some tt else None.

Definition obind {A B} (m : option A) (f : A -> option B) : option B :=
  match m with Some a => f a | None => None end.

Declare Scope opt_scope.
Delimit Scope opt_scope with opt.
Notation "x <- m ;; k" := (obind m (fun x => k))
  (at level 61, m at next level, right associativity) : opt_scope.
Notation "m ;;; k" := (obind m (fun _ => k))
  (at level 61, right associativity) : opt_scope.
Local Open Scope opt_scope.

(** [l[i] = x]; a store past the end is not modelled (the callers stay
    inside the array). *)
Fixpoint array_store {A} (l : list A) (i : nat) (x : A) : list A :=
  match l, i with
  | [], _ => []
  | _ :: l', O => x :: l'
  | y :: l', S i' => y :: array_store l' i' x
  end.

(** Left-to-right loop over an array with an abortable body. *)
Definition ofold {S A} (body : S -> A -> option S) (l : list A) (s : S)
  : option S :=
  fold_left (fun os a => obind os (fun st => body st a)) l (Some s).

Module Unassign.

(** Loop state of [vhost_dev_unassign_memory]: [kept] is
    [regions[0 .. to)], [spill] is what the split case stored in
    [regions[n]], [nregions] is [dev->mem->nregions], and the four
    counters are the sanity-check locals. *)
Record state : Type := mkstate {
  kept : list vhost_memory_region;
  spill : option vhost_memory_region;
  nregions : Z;
  overlap_start : Z;
  overlap_end : Z;
  overlap_middle : Z;
  split : Z
}.

Definition init (n : Z) : state := mkstate [] None n 0 0 0 0.

(** One iteration of the loop, on the region copied to [regions[to]]. *)
Definition body (n start_addr size : Z) (st : state)
  (reg : vhost_memory_region) : option state :=
  let rg := guest_phys_addr reg in
  let rs := memory_size reg in
  let ru := userspace_addr reg in
  (* No overlap is simple *)
  if negb (ranges_overlap rg rs start_addr size) then
    Some (mkstate (kept st ++ [reg]) (spill st) (nregions st)
            (overlap_start st) (overlap_end st) (overlap_middle st) (split st))
  else
    assert (split st =? 0) ;;;
    let reglast := range_get_last rg rs in
    let memlast := range_get_last start_addr size in
    (* Remove whole region *)
    if (start_addr <=? rg) && (memlast >=? reglast) then
      Some (mkstate (kept st) (spill st) (nregions st - 1)
              (overlap_start st) (overlap_end st) (overlap_middle st + 1)
              (split st))
    (* Shrink region *)
    else if memlast >=? reglast then
      let sz := u64 (start_addr - rg) in
      assert (negb (sz =? 0)) ;;;
      assert (overlap_end st =? 0) ;;;
      Some (mkstate (kept st ++ [mkreg rg sz ru]) (spill st) (nregions st)
              (overlap_start st) (overlap_end st + 1) (overlap_middle st)
              (split st))
    (* Shift region *)
    else if start_addr <=? rg then
      let change := u64 (u64 (memlast + 1) - rg) in
      let sz := u64 (rs - change) in
      assert (negb (sz =? 0)) ;;;
      assert (overlap_start st =? 0) ;;;
      Some (mkstate
              (kept st ++ [mkreg (u64 (rg + change)) sz (u64 (ru + change))])
              (spill st) (nregions st)
              (overlap_start st + 1) (overlap_end st) (overlap_middle st)
              (split st))
    else
      assert (overlap_start st =? 0) ;;;
      assert (overlap_end st =? 0) ;;;
      assert (overlap_middle st =? 0) ;;;
      (* Split region: shrink first part, shift second part. *)
      let sz1 := u64 (start_addr - rg) in
      assert (negb (sz1 =? 0)) ;;;
      let change := u64 (u64 (memlast + 1) - rg) in
      let sz2 := u64 (rs - change) in
      assert (negb (sz2 =? 0)) ;;;
      (* Never add more than 1 region *)
      assert (nregions st =? n) ;;;
      Some (mkstate (kept st ++ [mkreg rg sz1 ru])
              (Some (mkreg (u64 (rg + change)) sz2 (u64 (ru + change))))
              (nregions st + 1)
              (overlap_start st) (overlap_end st) (overlap_middle st)
              (split st + 1)).

(** The table the caller sees afterwards.  A spilled region sits at index
    [n]; the checks in [body] make a split exclude every removal, so by
    then [to = n] and the spilled region directly follows [kept]. *)
Definition finish (st : state) : region_table :=
  kept st ++ match spill st with Some r => [r] | None => [] end.

End Unassign.

(** [vhost_dev_unassign_memory(dev, start_addr, size)] on [dev->mem]. *)
Definition vhost_dev_unassign_memory (mem : region_table)
  (start_addr size : Z) : option region_table :=
  let n := Z.of_nat (length mem) in
  st <- ofold (Unassign.body n start_addr size) mem (Unassign.init n) ;;
  Some (Unassign.finish st).

Module Assign.

(** Loop state of [vhost_dev_assign_memory]: [kept] is
    [regions[0 .. to)], [merged] the index [merged - regions] when the
    pointer is set, and the three parameters, which the loop overwrites. *)
Record state : Type := mkstate {
  kept : list vhost_memory_region;
  merged : option nat;
  start_addr : Z;
  size : Z;
  uaddr : Z
}.

Definition init (start_addr size uaddr : Z) : state :=
  mkstate [] None start_addr size uaddr.

Definition body (st : state) (reg : vhost_memory_region) : option state :=
  let rg := guest_phys_addr reg in
  let rs := memory_size reg in
  let ru := userspace_addr reg in
  let prlast := range_get_last rg rs in
  let pmlast := range_get_last (start_addr st) (size st) in
  let urlast := range_get_last ru rs in
  let umlast := range_get_last (uaddr st) (size st) in
  (* check for overlapping regions: should never happen. *)
  assert ((prlast <? start_addr st) || (pmlast <? rg)) ;;;
  (* Not an adjacent or overlapping region - do not merge. *)
  if (negb (u64 (prlast + 1) =? start_addr st)
      || negb (u64 (urlast + 1) =? uaddr st))
     && (negb (u64 (pmlast + 1) =? rg)
         || negb (u64 (umlast + 1) =? ru))
  then
    Some (mkstate (kept st ++ [reg]) (merged st)
            (start_addr st) (size st) (uaddr st))
  else
    let u := MIN (uaddr st) ru in
    let s := MIN (start_addr st) rg in
    let e := MAX pmlast prlast in
    let sz := u64 (e - s + 1) in
    assert (negb (sz =? 0)) ;;;
    match merged st with
    | Some i =>
        (* --to: the slot of [reg] is given up *)
        Some (mkstate (array_store (kept st) i (mkreg s sz u)) (Some i) s sz u)
    | None =>
        (* merged = reg *)
        Some (mkstate (kept st ++ [mkreg s sz u])
                (Some (length (kept st))) s sz u)
    end.

Definition finish (st : state) : option region_table :=
  match merged st with
  | Some _ => Some (kept st)
  | None =>
      assert (negb (size st =? 0)) ;;;
      Some (kept st ++ [mkreg (start_addr st) (size st) (uaddr st)])
  end.

End Assign.

(** [vhost_dev_assign_memory(dev, start_addr, size, uaddr)] on [dev->mem]. *)
Definition vhost_dev_assign_memory (mem : region_table)
  (start_addr size uaddr : Z) : option region_table :=
  st <- ofold Assign.body mem (Assign.init start_addr size uaddr) ;;
  Assign.finish st.


(** [vhost_dev_find_reg]: the first region that overlaps the range. *)
Definition vhost_dev_find_reg (mem : region_table) (start_addr size : Z)
  : option vhost_memory_region :=
  find (fun reg => ranges_overlap (guest_phys_addr reg) (memory_size reg)
                     start_addr size) mem.

(** [vhost_dev_cmp_memory]: [true] when the table has to change. *)
Definition vhost_dev_cmp_memory (mem : region_table)
  (start_addr size uaddr : Z) : bool :=
  match vhost_dev_find_reg mem start_addr size with
  | None => true
  | Some reg =>
      let reglast := range_get_last (guest_phys_addr reg) (memory_size reg) in
      let memlast := range_get_last start_addr size in
      (* Need to extend region? *)
      if (start_addr <? guest_phys_addr reg) || (memlast >? reglast) then true
      (* userspace_addr changed? *)
      else negb (uaddr =? u64 (u64 (userspace_addr reg + start_addr)
                               - guest_phys_addr reg))
  end.

(** ** Devices, sections and the control channel *)

(** [vhost.h] is not among the sources: the guest bytes per log bit and
    the width of a log word ([unsigned long]) are parameters of the
    development. *)
Class LogGeometry : Type := {
  VHOST_LOG_PAGE : Z;        (* an [int] constant *)
  sizeof_log_chunk : Z;      (* sizeof(vhost_log_chunk_t), in bytes *)
  VHOST_LOG_PAGE_range : 0 < VHOST_LOG_PAGE < 2147483648;
  sizeof_log_chunk_range : 1 <= sizeof_log_chunk <= 8
}.

(** The geometry of an LP64 host with 4 KiB log pages. *)
#[refine] Instance lp64 : LogGeometry :=
  {| VHOST_LOG_PAGE := 4096; sizeof_log_chunk := 8 |}.
Proof. all: lia. Defined.

Record vhost_virtqueue : Type := mkvq {
  desc : Z;
  avail : Z;
  used : Z;
  used_phys : Z;
  used_size : Z;
  ring : Z;
  ring_phys : Z;
  ring_size : Z
}.

(** What the handlers ask of a [MemoryRegion]. *)
Record MemoryRegion : Type := mkmr {
  mr_id : Z;
  mr_ram_ptr : Z;          (* memory_region_get_ram_ptr *)
  mr_is_logging : bool     (* memory_region_is_logging *)
}.

Record MemoryRegionSection : Type := mksection {
  mr : MemoryRegion;
  offset_within_region : Z;
  section_size : Z;
  offset_within_address_space : Z
}.

(** [struct vhost_dev]; [log] holds the words of the log buffer ([[]] for
    a null pointer) and [nvqs] is the length of [vqs]. *)
Record vhost_dev : Type := mkdev {
  mem : region_table;
  vqs : list vhost_virtqueue;
  log : list Z;
  log_size : Z;
  log_enabled : bool;
  started : bool;
  mem_sections : list MemoryRegionSection;
  acked_features : Z
}.

Record vhost_vring_addr : Type := mkaddr {
  index : Z;
  flags : Z;
  desc_user_addr : Z;
  used_user_addr : Z;
  avail_user_addr : Z;
  log_guest_addr : Z
}.

(** Feature and flag bits of the kernel interface ([linux/vhost.h]). *)
Definition VHOST_F_LOG_ALL : Z := 26.
Definition VHOST_VRING_F_LOG : Z := 0.

Definition ENOMEM : Z := 12.
Definition EBUSY : Z := 16.

(** Control-channel commands.  [VHOST_SET_LOG_BASE] carries the number of
    words of the buffer whose address is passed (0 for a null pointer). *)
Inductive request : Type :=
| VHOST_SET_FEATURES (features : Z)
| VHOST_SET_MEM_TABLE (table : region_table)
| VHOST_SET_LOG_BASE (words : Z)
| VHOST_SET_VRING_ADDR (addr : vhost_vring_addr).

(** What the code does to its surroundings, in program order. *)
Inductive event : Type :=
| Ioctl (req : request) (ok : bool)
| SetDirty (region : Z) (addr : Z) (size : Z)   (* memory_region_set_dirty *)
| LogLoad (i : Z)                               (* the plain read of *from *)
| LogFetchAnd (i : Z).                          (* __sync_fetch_and_and(from, 0) *)

(** ** Dirty log *)

Section Log.
Context {G : LogGeometry}.

Definition VHOST_LOG_BITS : Z := 8 * sizeof_log_chunk.
Definition VHOST_LOG_CHUNK : Z := VHOST_LOG_PAGE * VHOST_LOG_BITS.
Definition VHOST_LOG_BUFFER : Z := 4096 / sizeof_log_chunk.

(** [ffsll]/[ffs]: one plus the index of the least significant set bit, or
    zero.  [ffs_from n i x] looks at bits [i .. i + n). *)
Fixpoint ffs_from (n : nat) (i : Z) (x : Z) : Z :=
  match n with
  | O => 0
  | S n' => if Z.testbit x i then i + 1 else ffs_from n' (i + 1) x
  end.

Definition ffs (x : Z) : Z := ffs_from (Z.to_nat VHOST_LOG_BITS) 0 x.

(** The inner [while] loop over one harvested word. *)
Fixpoint harvest (fuel : nat) (section : MemoryRegionSection) (lg : Z)
  : option (list event) :=
  match fuel with
  | O => None
  | S fuel' =>
      let bit := ffs lg in
      if bit =? 0 then Some []
      else
        let bit := bit - 1 in
        let ram_addr :=
          u64 (offset_within_region section + bit * VHOST_LOG_PAGE) in
        rest <- harvest fuel' section
                  (Z.land lg (u64 (Z.lnot (Z.shiftl 1 bit)))) ;;
        Some (SetDirty (mr_id (mr section)) ram_addr VHOST_LOG_PAGE :: rest)
  end.

(** The [for (; from < to; ++from)] loop; [count] is [to - from].  As in
    the source, [addr] is advanced by one chunk per word and never read. *)
Fixpoint sync_chunks (count : nat) (section : MemoryRegionSection)
  (from addr : Z) (lg : list Z) : option (list Z * list event) :=
  match count with
  | O => Some (lg, [])
  | S count' =>
      let word := nth (Z.to_nat from) lg 0 in
      (* We first check with non-atomic: much cheaper *)
      if word =? 0 then
        r <- sync_chunks count' section (from + 1)
               (u64 (addr + VHOST_LOG_CHUNK)) lg ;;
        Some (fst r, LogLoad from :: snd r)
      else
        dirty <- harvest (S (Z.to_nat VHOST_LOG_BITS)) section word ;;
        r <- sync_chunks count' section (from + 1)
               (u64 (addr + VHOST_LOG_CHUNK))
               (array_store lg (Z.to_nat from) 0) ;;
        Some (fst r, LogLoad from :: LogFetchAnd from :: dirty ++ snd r)
  end.

(** [vhost_dev_sync_region]: the new contents of the log and what was
    done; [None] when an assertion fails. *)
Definition vhost_dev_sync_region (lg : list Z) (lg_size : Z)
  (section : MemoryRegionSection) (mfirst mlast rfirst rlast : Z)
  : option (list Z * list event) :=
  let start := MAX mfirst rfirst in
  let end_ := MIN mlast rlast in
  let from := start / VHOST_LOG_CHUNK in
  let to := end_ / VHOST_LOG_CHUNK + 1 in
  let addr := u64 ((start / VHOST_LOG_CHUNK) * VHOST_LOG_CHUNK) in
  if end_ <? start then Some (lg, [])
  else
    assert (end_ / VHOST_LOG_CHUNK <? lg_size) ;;;
    assert (start / VHOST_LOG_CHUNK <? lg_size) ;;;
    sync_chunks (Z.to_nat (to - from)) section from addr lg.

(** The guest ranges [vhost_sync_dirty_bitmap] and [vhost_get_log_size]
    walk: first and last byte of every region, then of every used ring. *)
Definition region_range (reg : vhost_memory_region) : Z * Z :=
  (guest_phys_addr reg,
   range_get_last (guest_phys_addr reg) (memory_size reg)).

Definition used_range (vq : vhost_virtqueue) : Z * Z :=
  (used_phys vq, range_get_last (used_phys vq) (used_size vq)).

Definition logged_ranges (dev : vhost_dev) : list (Z * Z) :=
  map region_range (mem dev) ++ map used_range (vqs dev).

(** One call of [vhost_dev_sync_region] per range, threading the log. *)
Fixpoint sync_ranges (lg : list Z) (lg_size : Z)
  (section : MemoryRegionSection) (start_addr end_addr : Z)
  (ranges : list (Z * Z)) : option (list Z * list event) :=
  match ranges with
  | [] => Some (lg, [])
  | (rfirst, rlast) :: rest =>
      r1 <- vhost_dev_sync_region lg lg_size section start_addr end_addr
              rfirst rlast ;;
      r2 <- sync_ranges (fst r1) lg_size section start_addr end_addr rest ;;
      Some (fst r2, snd r1 ++ snd r2)
  end.

(** [vhost_sync_dirty_bitmap]. *)
Definition vhost_sync_dirty_bitmap (dev : vhost_dev)
  (section : MemoryRegionSection) (start_addr end_addr : Z)
  : option (list Z * list event) :=
  if negb (log_enabled dev) || negb (started dev) then Some (log dev, [])
  else sync_ranges (log dev) (log_size dev) section start_addr end_addr
         (logged_ranges dev).

(** [vhost_get_log_size]. *)
Definition vhost_get_log_size (dev : vhost_dev) : Z :=
  let log_size :=
    fold_left
      (fun log_size reg =>
         let last := range_get_last (guest_phys_addr reg) (memory_size reg) in
         MAX log_size (u64 (last / VHOST_LOG_CHUNK + 1)))
      (mem dev) 0 in
  fold_left
    (fun log_size vq =>
       let last := u64 (u64 (used_phys vq + used_size vq) - 1) in
       MAX log_size (u64 (last / VHOST_LOG_CHUNK + 1)))
    (vqs dev) log_size.

End Log.

(** ** Reconciler *)

(** Modelled from the spec: the accelerator is an external collaborator
    behind the control channel.  Its view of the device is what the
    commands that succeeded so far have configured: a command takes effect
    when it returns success, in issue order, and a command that fails
    changes nothing. *)
Record accelerator : Type := mkacc {
  acc_features : Z;
  acc_mem_table : region_table;
  acc_log_words : Z;
  acc_vring_addr : Z -> option vhost_vring_addr
}.

Definition accept (req : request) (acc : accelerator) : accelerator :=
  match req with
  | VHOST_SET_FEATURES f =>
      mkacc f (acc_mem_table acc) (acc_log_words acc) (acc_vring_addr acc)
  | VHOST_SET_MEM_TABLE t =>
      mkacc (acc_features acc) t (acc_log_words acc) (acc_vring_addr acc)
  | VHOST_SET_LOG_BASE n =>
      mkacc (acc_features acc) (acc_mem_table acc) n (acc_vring_addr acc)
  | VHOST_SET_VRING_ADDR a =>
      mkacc (acc_features acc) (acc_mem_table acc) (acc_log_words acc)
        (fun i => if i =? index a then Some a else acc_vring_addr acc i)
  end.

(** The state the handlers run in: the device, the accelerator, the
    outcomes of the coming [ioctl] calls ([0] for success, otherwise the
    [errno] of the failure; success once the list is used up), [errno],
    the guest-physical mapper, and the trace of effects so far. *)
Record world : Type := mkworld {
  w_dev : vhost_dev;
  w_acc : accelerator;
  w_script : list Z;
  w_errno : Z;
  w_map : Z -> Z -> Z * Z;     (* cpu_physical_memory_map: (pointer, length) *)
  w_trace : list event
}.

(** State and abort monad of the handlers. *)
Definition M (A : Type) : Type := world -> option (A * world).

Definition ret {A} (a : A) : M A := fun w => Some (a, w).

Definition bind {A B} (m : M A) (f : A -> M B) : M B :=
  fun w => match m w with Some (a, w') => f a w' | None => None end.

Declare Scope vhost_scope.
Delimit Scope vhost_scope with vhost.
Notation "x <- m ;; k" := (bind m (fun x => k))
  (at level 61, m at next level, right associativity) : vhost_scope.
Notation "m ;;; k" := (bind m (fun _ => k))
  (at level 61, right associativity) : vhost_scope.

Section Reconciler.
Context {G : LogGeometry}.
Local Open Scope vhost_scope.

Definition get_dev : M vhost_dev := fun w => Some (w_dev w, w).

Definition get_errno : M Z := fun w => Some (w_errno w, w).

Definition put_dev (d : vhost_dev) : M unit := fun w =>
  Some (tt, mkworld d (w_acc w) (w_script w) (w_errno w) (w_map w) (w_trace w)).

Definition emit (evs : list event) : M unit := fun w =>
  Some (tt, mkworld (w_dev w) (w_acc w) (w_script w) (w_errno w) (w_map w)
              (w_trace w ++ evs)).

Definition massert (b : bool) : M unit := fun w =>
  if b then Some (tt, w) else None.

Definition lift {A} (o : option A) : M A := fun w =>
  match o with Some a => Some (a, w) | None => None end.

(** [ioctl(dev->control, req, ...)]: 0, or -1 with [errno] set. *)
Definition ioctl (req : request) : M Z := fun w =>
  let e := hd 0 (w_script w) in
  if e =? 0 then
    Some (0, mkworld (w_dev w) (accept req (w_acc w)) (tl (w_script w))
               (w_errno w) (w_map w) (w_trace w ++ [Ioctl req true]))
  else
    Some (-1, mkworld (w_dev w) (w_acc w) (tl (w_script w))
                e (w_map w) (w_trace w ++ [Ioctl req false])).

Fixpoint for_each {A} (l : list A) (f : A -> M unit) : M unit :=
  match l with
  | [] => ret tt
  | a :: l' => f a ;;; for_each l' f
  end.

(** [vhost_sync_dirty_bitmap] on the device of the world. *)
Definition sync_dirty_bitmap (section : MemoryRegionSection)
  (start_addr end_addr : Z) : M Z :=
  d <- get_dev ;;
  r <- lift (vhost_sync_dirty_bitmap d section start_addr end_addr) ;;
  put_dev (mkdev (mem d) (vqs d) (fst r) (log_size d) (log_enabled d)
             (started d) (mem_sections d) (acked_features d)) ;;;
  emit (snd r) ;;;
  ret 0.

(** [vhost_log_sync]. *)
Definition vhost_log_sync (section : MemoryRegionSection) : M unit :=
  let start_addr := offset_within_address_space section in
  let end_addr := u64 (start_addr + section_size section) in
  sync_dirty_bitmap section start_addr end_addr ;;;
  ret tt.

(** [vhost_dev_log_resize]. *)
Definition vhost_dev_log_resize (size : Z) : M unit :=
  r <- ioctl (VHOST_SET_LOG_BASE size) ;;
  massert (r >=? 0) ;;;
  d <- get_dev ;;
  for_each (mem_sections d)
    (fun section =>
       (* Sync only the range covered by the old log *)
       sync_dirty_bitmap section 0
         (u64 (u64 (log_size d * VHOST_LOG_CHUNK) - 1)) ;;;
       ret tt) ;;;
  d <- get_dev ;;
  put_dev (mkdev (mem d) (vqs d) (repeat 0 (Z.to_nat size)) size
             (log_enabled d) (started d) (mem_sections d)
             (acked_features d)).

(** [vhost_verify_ring_mappings], from queue [i] on. *)
Fixpoint verify_ring_mappings_from (queues : list vhost_virtqueue)
  (start_addr size : Z) : M Z :=
  match queues with
  | [] => ret 0
  | vq :: rest =>
      if negb (ranges_overlap start_addr size (ring_phys vq) (ring_size vq))
      then verify_ring_mappings_from rest start_addr size
      else fun w =>
        let (p, l) := w_map w (ring_phys vq) (ring_size vq) in
        if (p =? 0) || negb (l =? ring_size vq) then Some (- ENOMEM, w)
        else if negb (p =? ring vq) then Some (- EBUSY, w)
        else verify_ring_mappings_from rest start_addr size w
  end.

Definition vhost_verify_ring_mappings (start_addr size : Z) : M Z :=
  d <- get_dev ;;
  verify_ring_mappings_from (vqs d) start_addr size.

Definition set_mem (m : region_table) : M unit :=
  d <- get_dev ;;
  put_dev (mkdev m (vqs d) (log d) (log_size d) (log_enabled d) (started d)
             (mem_sections d) (acked_features d)).

(** [if (log_dirty) add = false;] in [vhost_set_memory]. *)
Definition event_add (section : MemoryRegionSection) (add : bool) : bool :=
  let log_dirty := mr_is_logging (mr section) in
  if log_dirty then false else add.

(** [ram]: the host address of the section's memory,
    [memory_region_get_ram_ptr(section->mr) + section->offset_within_region]. *)
Definition event_ram (section : MemoryRegionSection) : Z :=
  u64 (mr_ram_ptr (mr section) + offset_within_region section).

(** The end of [vhost_set_memory], from [if (!dev->log_enabled)] on: the
    new table is pushed, with the log resized around the push. *)
Definition push_mem_table : M unit :=
  d <- get_dev ;;
  if negb (log_enabled d) then
    r <- ioctl (VHOST_SET_MEM_TABLE (mem d)) ;;
    massert (r >=? 0)
  else
    let log_size_ := vhost_get_log_size d in
    (* To log more, must increase log size before table update. *)
    (if log_size d <? log_size_
     then vhost_dev_log_resize (u64 (log_size_ + VHOST_LOG_BUFFER))
     else ret tt) ;;;
    d1 <- get_dev ;;
    r <- ioctl (VHOST_SET_MEM_TABLE (mem d1)) ;;
    massert (r >=? 0) ;;;
    (* To log less, can only decrease log size after table update. *)
    d2 <- get_dev ;;
    if log_size d2 >? u64 (log_size_ + VHOST_LOG_BUFFER)
    then vhost_dev_log_resize log_size_
    else ret tt.

(** [vhost_set_memory].  On entry [g_realloc] sizes the region array for
    one region more than the table holds, [room] below.  The table
    functions store at most at index [nregions] of their entry (the upper
    part of a split in unassign, the appended region in assign), so their
    stores stay inside the array exactly when the table they return has
    at most [room] regions.  A store past the array is undefined: the
    model stops there, as it does on a failed assertion. *)
Definition vhost_set_memory (section : MemoryRegionSection) (add : bool)
  : M unit :=
  d <- get_dev ;;
  let start_addr := offset_within_address_space section in
  let size := section_size section in
  (* dev->mem = g_realloc(dev->mem, s), [s] for nregions + 1 regions *)
  let room := S (length (mem d)) in
  let add := event_add section add in
  massert (negb (size =? 0)) ;;;
  (* Optimize no-change case. *)
  let ram := event_ram section in
  if (if add then negb (vhost_dev_cmp_memory (mem d) start_addr size ram)
      else match vhost_dev_find_reg (mem d) start_addr size with
           | None => true
           | Some _ => false
           end)
  then ret tt
  else
    m1 <- lift (vhost_dev_unassign_memory (mem d) start_addr size) ;;
    massert (length m1 <=? room)%nat ;;;
    m2 <- lift (if add
                then vhost_dev_assign_memory m1 start_addr size ram
                else vhost_dev_unassign_memory m1 start_addr size) ;;
    massert (length m2 <=? room)%nat ;;;
    set_mem m2 ;;;
    if negb (started d) then ret tt
    else
      r <- vhost_verify_ring_mappings start_addr size ;;
      massert (r >=? 0) ;;;
      push_mem_table.

(** The [struct vhost_vring_addr] that [vhost_virtqueue_set_addr] fills
    in. *)
Definition vring_addr_of (vq : vhost_virtqueue) (idx : Z)
  (enable_log : bool) : vhost_vring_addr :=
  mkaddr idx (if enable_log then Z.shiftl 1 VHOST_VRING_F_LOG else 0)
    (desc vq) (used vq) (avail vq) (used_phys vq).

(** [vhost_virtqueue_set_addr]. *)
Definition vhost_virtqueue_set_addr (vq : vhost_virtqueue) (idx : Z)
  (enable_log : bool) : M Z :=
  let addr := vring_addr_of vq idx enable_log in
  r <- ioctl (VHOST_SET_VRING_ADDR addr) ;;
  if r <? 0 then e <- get_errno ;; ret (- e) else ret 0.

(** The feature word that [vhost_dev_set_features] pushes. *)
Definition features_of (d : vhost_dev) (enable_log : bool) : Z :=
  if enable_log
  then Z.lor (acked_features d) (Z.shiftl 1 VHOST_F_LOG_ALL)
  else acked_features d.

(** [vhost_dev_set_features]. *)
Definition vhost_dev_set_features (enable_log : bool) : M Z :=
  d <- get_dev ;;
  let features := features_of d enable_log in
  r <- ioctl (VHOST_SET_FEATURES features) ;;
  if r <? 0 then e <- get_errno ;; ret (- e) else ret 0.

(** The [for] loop of [vhost_dev_set_log] from queue [i] on: the value of
    [r] and of [i] when it is left. *)
Fixpoint set_log_queues (queues : list vhost_virtqueue) (i : nat)
  (enable_log : bool) : M (Z * nat) :=
  match queues with
  | [] => ret (0, i)
  | vq :: rest =>
      r <- vhost_virtqueue_set_addr vq (Z.of_nat i) enable_log ;;
      if r <? 0 then ret (r, i) else set_log_queues rest (S i) enable_log
  end.

(** The loop at [err_vq]: [for (; i >= 0; --i)]. *)
Fixpoint set_log_unwind (i : nat) : M unit :=
  d <- get_dev ;;
  t <- vhost_virtqueue_set_addr (nth i (vqs d) (mkvq 0 0 0 0 0 0 0 0))
         (Z.of_nat i) (log_enabled d) ;;
  massert (t >=? 0) ;;;
  match i with
  | O => ret tt
  | S j => set_log_unwind j
  end.

(** [vhost_dev_set_log]. *)
Definition vhost_dev_set_log (enable_log : bool) : M Z :=
  r <- vhost_dev_set_features enable_log ;;
  if r <? 0 then ret r
  else
    d <- get_dev ;;
    ri <- set_log_queues (vqs d) 0 enable_log ;;
    if fst ri <? 0 then
      (* err_vq *)
      set_log_unwind (snd ri) ;;;
      t <- vhost_dev_set_features (log_enabled d) ;;
      massert (t >=? 0) ;;;
      ret (fst ri)
    else ret 0.

(** [vhost_migration_log]. *)
Definition vhost_migration_log (enable : bool) : M Z :=
  d <- get_dev ;;
  if Bool.eqb enable (log_enabled d) then ret 0
  else if negb (started d) then
    put_dev (mkdev (mem d) (vqs d) (log d) (log_size d) enable (started d)
               (mem_sections d) (acked_features d)) ;;;
    ret 0
  else if negb enable then
    r <- vhost_dev_set_log false ;;
    if r <? 0 then ret r
    else
      d <- get_dev ;;
      put_dev (mkdev (mem d) (vqs d) [] 0 enable (started d)
                 (mem_sections d) (acked_features d)) ;;;
      ret 0
  else
    vhost_dev_log_resize (vhost_get_log_size d) ;;;
    r <- vhost_dev_set_log true ;;
    if r <? 0 then ret r
    else
      d <- get_dev ;;
      put_dev (mkdev (mem d) (vqs d) (log d) (log_size d) enable (started d)
                 (mem_sections d) (acked_features d)) ;;;
      ret 0.

(** The control-channel commands of a trace, in issue order. *)
Definition commands (tr : list event) : list request :=
  flat_map (fun ev => match ev with Ioctl req _ => [req] | _ => [] end) tr.

End Reconciler.

(** ** Vocabulary of the properties *)

(** A region whose guest and host ranges stay clear of the top of the
    64-bit space and whose size is not zero. *)
Definition reg_ok (r : vhost_memory_region) : Prop :=
  0 <= guest_phys_addr r /\ 0 < memory_size r /\
  guest_phys_addr r + memory_size r < U64 /\
  0 <= userspace_addr r /\ userspace_addr r + memory_size r < U64.

(** A guest range of nonzero size that stays clear of the top. *)
Definition range_ok (gpa size : Z) : Prop :=
  0 <= gpa /\ 0 < size /\ gpa + size < U64.

(** The same without the margin: a region, or a guest range, of nonzero
    size that does not wrap around (it may end with the last byte of the
    64-bit space). *)
Definition reg_wf (r : vhost_memory_region) : Prop :=
  0 <= guest_phys_addr r /\ 0 < memory_size r /\
  guest_phys_addr r + memory_size r <= U64 /\
  0 <= userspace_addr r /\ userspace_addr r + memory_size r <= U64.

Definition range_wf (gpa size : Z) : Prop :=
  0 <= gpa /\ 0 < size /\ gpa + size <= U64.

(** [r] and the guest range [gpa, gpa + size) have no byte in common. *)
Definition apart (gpa size : Z) (r : vhost_memory_region) : Prop :=
  guest_phys_addr r + memory_size r <= gpa \/
  gpa + size <= guest_phys_addr r.

Definition disjoint (a b : vhost_memory_region) : Prop :=
  apart (guest_phys_addr a) (memory_size a) b.

(** [b] continues [a]: it starts where [a] ends, in guest and in host
    addresses. *)
Definition continues (a b : vhost_memory_region) : Prop :=
  guest_phys_addr a + memory_size a = guest_phys_addr b /\
  userspace_addr a + memory_size a = userspace_addr b.

Definition separate (a b : vhost_memory_region) : Prop :=
  ~ continues a b /\ ~ continues b a.

(** No two regions of the table overlap in guest addresses. *)
Definition non_overlapping (t : region_table) : Prop :=
  ForallOrdPairs disjoint t.

(** No two regions of the table are adjacent in both address spaces. *)
Definition merge_maximal (t : region_table) : Prop :=
  ForallOrdPairs separate t.

Definition table_ok (t : region_table) : Prop :=
  Forall reg_ok t /\ non_overlapping t.

Definition table_wf (t : region_table) : Prop :=
  Forall reg_wf t /\ non_overlapping t.

(** How a removal [gpa, gpa + size) meets a region (cases of unassign). *)
Inductive overlap_kind : Type := Disjoint | Whole | Tail | Head | Middle.

Definition reg_end (r : vhost_memory_region) : Z :=
  guest_phys_addr r + memory_size r.

Definition classify (gpa size : Z) (r : vhost_memory_region) : overlap_kind :=
  if (reg_end r <=? gpa) || (gpa + size <=? guest_phys_addr r) then Disjoint
  else if (gpa <=? guest_phys_addr r) && (reg_end r <=? gpa + size) then Whole
  else if reg_end r <=? gpa + size then Tail
  else if gpa <=? guest_phys_addr r then Head
  else Middle.

(** The part of [r] below [gpa], and the part from [gpa + size] on. *)
Definition low_part (gpa : Z) (r : vhost_memory_region)
  : vhost_memory_region :=
  mkreg (guest_phys_addr r) (gpa - guest_phys_addr r) (userspace_addr r).

Definition high_part (gpa size : Z) (r : vhost_memory_region)
  : vhost_memory_region :=
  mkreg (gpa + size) (reg_end r - (gpa + size))
    (userspace_addr r + (gpa + size - guest_phys_addr r)).

(** What a removal leaves of [r] in its slot, and what it appends. *)
Definition cut_keep (gpa size : Z) (r : vhost_memory_region)
  : list vhost_memory_region :=
  match classify gpa size r with
  | Disjoint => [r]
  | Whole => []
  | Tail => [low_part gpa r]
  | Head => [high_part gpa size r]
  | Middle => [low_part gpa r]
  end.

Definition cut_spill (gpa size : Z) (r : vhost_memory_region)
  : list vhost_memory_region :=
  match classify gpa size r with
  | Middle => [high_part gpa size r]
  | _ => []
  end.

(** The table unassign is to return: every region cut in place, the
    upper part of a split region last. *)
Definition unassign_result (gpa size : Z) (t : region_table)
  : region_table :=
  flat_map (cut_keep gpa size) t ++ flat_map (cut_spill gpa size) t.

Definition is_kind (k : overlap_kind) (gpa size : Z)
  (r : vhost_memory_region) : bool :=
  match classify gpa size r, k with
  | Disjoint, Disjoint | Whole, Whole | Tail, Tail
  | Head, Head | Middle, Middle => true
  | _, _ => false
  end.

Definition count_kind (k : overlap_kind) (gpa size : Z) (t : region_table)
  : Z :=
  Z.of_nat (length (filter (is_kind k gpa size) t)).

(** The loop state of unassign after the regions [p], on a table of [n]. *)
Definition unassign_state_after (n gpa size : Z) (p : region_table)
  : Unassign.state :=
  Unassign.mkstate
    (flat_map (cut_keep gpa size) p)
    (last (map Some (flat_map (cut_spill gpa size) p)) None)
    (n - count_kind Whole gpa size p + count_kind Middle gpa size p)
    (count_kind Head gpa size p)
    (count_kind Tail gpa size p)
    (count_kind Whole gpa size p)
    (count_kind Middle gpa size p).

(** [r'] is a part of [r]: inside its guest range, at the same distance
    from the host mapping. *)
Definition part_of (r r' : vhost_memory_region) : Prop :=
  guest_phys_addr r <= guest_phys_addr r' /\ reg_end r' <= reg_end r /\
  userspace_addr r' - guest_phys_addr r' =
  userspace_addr r - guest_phys_addr r.

Definition opt_list {A} (o : option A) : list A :=
  match o with Some a => [a] | None => [] end.

(** The region that [a] and [b] make up when [b] continues [a]. *)
Definition join (a b : vhost_memory_region) : vhost_memory_region :=
  mkreg (guest_phys_addr a) (memory_size a + memory_size b)
    (userspace_addr a).

(** The range the loop of assign currently holds in its parameters. *)
Definition running (st : Assign.state) : vhost_memory_region :=
  mkreg (Assign.start_addr st) (Assign.size st) (Assign.uaddr st).

(** The loop state of assign after a merge that produced [m]. *)
Definition merge_into (st : Assign.state) (m : vhost_memory_region)
  : Assign.state :=
  match Assign.merged st with
  | Some i =>
      Assign.mkstate (array_store (Assign.kept st) i m) (Some i)
        (guest_phys_addr m) (memory_size m) (userspace_addr m)
  | None =>
      Assign.mkstate (Assign.kept st ++ [m]) (Some (length (Assign.kept st)))
        (guest_phys_addr m) (memory_size m) (userspace_addr m)
  end.

Definition touches (a b : vhost_memory_region) : Prop :=
  continues a b \/ continues b a.

Definition touchesb (a b : vhost_memory_region) : bool :=
  ((reg_end a =? guest_phys_addr b)
   && (userspace_addr a + memory_size a =? userspace_addr b))
  || ((reg_end b =? guest_phys_addr a)
      && (userspace_addr b + memory_size b =? userspace_addr a)).

(** [m] is [x] and [n] put together, whichever comes first. *)
Definition joined (x n m : vhost_memory_region) : Prop :=
  (continues x n /\ m = join x n) \/ (continues n x /\ m = join n x).

(** What assign makes of a table [t] and a new region [n]: [n] is
    appended when nothing continues it or is continued by it; otherwise
    the first such neighbour is widened in place, and a second one is
    dropped. *)
Definition assign_result (t : region_table) (n : vhost_memory_region)
  (t' : region_table) : Prop :=
  (Forall (separate n) t /\ t' = t ++ [n]) \/
  (exists l1 x l2 m,
      t = l1 ++ x :: l2 /\ t' = l1 ++ m :: l2 /\ joined x n m /\
      Forall (separate m) (l1 ++ l2)) \/
  (exists l1 x l2 y l3 lo hi m,
      t = l1 ++ x :: l2 ++ y :: l3 /\ t' = l1 ++ m :: l2 ++ l3 /\
      continues lo n /\ continues n hi /\
      ((x = lo /\ y = hi) \/ (x = hi /\ y = lo)) /\
      guest_phys_addr m = guest_phys_addr lo /\
      memory_size m = memory_size lo + memory_size n + memory_size hi /\
      userspace_addr m = userspace_addr lo /\
      Forall (separate m) (l1 ++ l2 ++ l3)).

(** The two invariants of the region table together. *)
Definition rt_inv (t : region_table) : Prop :=
  table_ok t /\ merge_maximal t.

(** Operations on the region table, and runs of them. *)
Inductive rt_op : Type :=
| Unassign (gpa size : Z)
| Assign (gpa size uaddr : Z).

Definition apply_op (t : region_table) (op : rt_op) : option region_table :=
  match op with
  | Unassign gpa size => vhost_dev_unassign_memory t gpa size
  | Assign gpa size uaddr => vhost_dev_assign_memory t gpa size uaddr
  end.

Fixpoint run_ops (ops : list rt_op) (t : region_table)
  : option region_table :=
  match ops with
  | [] => Some t
  | op :: rest => t' <- apply_op t op ;; run_ops rest t'
  end.

(** Every assign directly follows an unassign of the same guest range
    ([prev] is the range of the unassign just done, if any), and all
    ranges are of nonzero size and clear of the top of the 64-bit space. *)
Fixpoint guarded (prev : option (Z * Z)) (ops : list rt_op) : Prop :=
  match ops with
  | [] => True
  | Unassign gpa size :: rest =>
      range_ok gpa size /\ guarded (Some (gpa, size)) rest
  | Assign gpa size uaddr :: rest =>
      prev = Some (gpa, size) /\ reg_ok (mkreg gpa size uaddr) /\
      guarded None rest
  end.

Section LogVocabulary.
Context {G : LogGeometry}.

(** Log words needed to cover the bytes up to [last]. *)
Definition chunks_upto (last : Z) : Z := last / VHOST_LOG_CHUNK + 1.

(** The largest of a list of word counts, zero for the empty list. *)
Definition max_of (l : list Z) : Z := fold_right Z.max 0 l.

(** The log size with the quotient rounded up: the maximum over all
    regions and used rings of [ceil(last_byte / CHUNK) + 1]. *)
Definition ceil_div (a b : Z) : Z := (a + b - 1) / b.

Definition ceil_log_chunks (dev : vhost_dev) : Z :=
  max_of (map (fun r => ceil_div (snd r) VHOST_LOG_CHUNK + 1)
            (logged_ranges dev)).

(** The log indices a trace touches. *)
Definition log_index (ev : event) : list Z :=
  match ev with
  | LogLoad i => [i]
  | LogFetchAnd i => [i]
  | _ => []
  end.

Definition log_indices (tr : list event) : list Z := flat_map log_index tr.

End LogVocabulary.

(** ** Vocabulary of the reconciler properties *)

(** Every coming [ioctl] succeeds. *)
Definition all_succeed (script : list Z) : Prop :=
  Forall (fun e => e = 0) script.

(** The address pushes of the queues [queues], numbered from [i]. *)
Fixpoint addr_requests (queues : list vhost_virtqueue) (i : nat)
  (enable_log : bool) : list request :=
  match queues with
  | [] => []
  | vq :: rest =>
      VHOST_SET_VRING_ADDR (vring_addr_of vq (Z.of_nat i) enable_log)
      :: addr_requests rest (S i) enable_log
  end.

(** Two devices that differ at most in the contents of the log. *)
Definition same_config (d d' : vhost_dev) : Prop :=
  mem d' = mem d /\ vqs d' = vqs d /\ log_size d' = log_size d /\
  log_enabled d' = log_enabled d /\ started d' = started d /\
  mem_sections d' = mem_sections d /\ acked_features d' = acked_features d.

(** Two devices that differ at most in the log and its size. *)
Definition same_but_log (d d' : vhost_dev) : Prop :=
  mem d' = mem d /\ vqs d' = vqs d /\
  log_enabled d' = log_enabled d /\ started d' = started d /\
  mem_sections d' = mem_sections d /\ acked_features d' = acked_features d.

(** The accelerator is configured as the device's log flag says: the
    features and the address of every queue are those last pushed with
    [log_enabled]. *)
Definition acc_in_step (d : vhost_dev) (acc : accelerator) : Prop :=
  acc_features acc = features_of d (log_enabled d) /\
  forall i, (i < length (vqs d))%nat ->
    acc_vring_addr acc (Z.of_nat i)
    = Some (vring_addr_of (nth i (vqs d) (mkvq 0 0 0 0 0 0 0 0))
              (Z.of_nat i) (log_enabled d)).

(** Two accelerator states that answer alike. *)
Definition acc_same (a a' : accelerator) : Prop :=
  acc_features a' = acc_features a /\
  acc_mem_table a' = acc_mem_table a /\
  acc_log_words a' = acc_log_words a /\
  forall i, acc_vring_addr a' i = acc_vring_addr a i.

(** The kinds of commands, to compare orders. *)
Inductive request_kind : Type :=
  SetFeatures | SetMemTable | SetLogBase | SetVringAddr.

Definition kind_of (req : request) : request_kind :=
  match req with
  | VHOST_SET_FEATURES _ => SetFeatures
  | VHOST_SET_MEM_TABLE _ => SetMemTable
  | VHOST_SET_LOG_BASE _ => SetLogBase
  | VHOST_SET_VRING_ADDR _ => SetVringAddr
  end.

(** [w'] is [w] after steps that touch only the contents of the log and
    issue no command. *)
Definition quiet (w w' : world) : Prop :=
  same_config (w_dev w) (w_dev w') /\ w_acc w' = w_acc w /\
  w_script w' = w_script w /\ w_errno w' = w_errno w /\
  w_map w' = w_map w /\
  commands (w_trace w') = commands (w_trace w).

(** [d] with the region table [m]. *)
Definition with_mem (d : vhost_dev) (m : region_table) : vhost_dev :=
  mkdev m (vqs d) (log d) (log_size d) (log_enabled d) (started d)
    (mem_sections d) (acked_features d).

(** The kinds of the commands a handler issues from [w], in order. *)
Definition command_kinds {A} (m : M A) (w : world)
  : option (list request_kind) :=
  match m w with
  | Some (_, w') => Some (map kind_of (commands (w_trace w')))
  | None => None
  end.

(** A running device with one region and two bound queues, for
    examples. *)
Definition example_queue (n : Z) : vhost_virtqueue :=
  mkvq (139637976727552 + n * 16384) (139637976731648 + n * 16384)
    (139637976735744 + n * 16384) (8192 + n * 16384) 4096
    (139637976727552 + n * 16384) (n * 16384) 12288.

Definition example_dev (logging : bool) : vhost_dev :=
  mkdev [mkreg 0 1048576 139637976727552]
    [example_queue 0; example_queue 1]
    (if logging then repeat 0 4%nat else []) (if logging then 4 else 0)
    logging true [] 0.

Definition example_acc (logging : bool) : accelerator :=
  mkacc (features_of (example_dev logging) logging)
    [mkreg 0 1048576 139637976727552] (if logging then 4 else 0)
    (fun i =>
       if (0 <=? i) && (i <? 2)
       then Some (vring_addr_of (example_queue i) i logging)
       else None).

Definition example_world (logging : bool) (script : list Z) : world :=
  mkworld (example_dev logging) (example_acc logging) script 0
    (fun _ _ => (0, 0)) [].

(** A device with two log words, word 1 holding [word1], and a section
    over its only region, for examples of the dirty sync. *)
Definition example_sync_dev (word0 word1 : Z) : vhost_dev :=
  mkdev [mkreg 0 524288 1879048192] [] [word0; word1] 2 true true [] 0.

Definition example_section : MemoryRegionSection :=
  mksection (mkmr 7 1879048192 false) 0 524288 0.

(** A device with a single 4 KiB region and no queue. *)
Definition example_small_dev : vhost_dev :=
  mkdev [mkreg 0 4096 1879048192] [] [] 0 false false [] 0.

(** ** Vocabulary of the further properties *)

(** The region [r] holds the guest byte [a] and maps it to the host byte
    [h]. *)
Definition covers (r : vhost_memory_region) (a h : Z) : Prop :=
  guest_phys_addr r <= a < reg_end r /\
  h = userspace_addr r + (a - guest_phys_addr r).

(** The table maps the guest byte [a] to the host byte [h]. *)
Definition maps_byte (t : region_table) (a h : Z) : Prop :=
  exists r, In r t /\ covers r a h.

(** An add of the guest range [g, g + s) at the host address [ram] does
    not remap the inside of a region: where the range lies strictly
    inside a region of [t], it has the host address the region gives
    it. *)
Definition fits_room (t : region_table) (g s ram : Z) : Prop :=
  forall r, In r t ->
    guest_phys_addr r < g -> g + s < reg_end r ->
    ram = userspace_addr r + (g - guest_phys_addr r).

Section DirtyVocabulary.
Context {G : LogGeometry}.

(** The bits set in a log word, lowest first. *)
Definition dirty_bits (word : Z) : list Z :=
  filter (Z.testbit word) (map Z.of_nat (seq 0 (Z.to_nat VHOST_LOG_BITS))).

(** The call of [memory_region_set_dirty] for bit [b] of a word. *)
Definition dirty_page (section : MemoryRegionSection) (b : Z) : event :=
  SetDirty (mr_id (mr section))
    (u64 (offset_within_region section + b * VHOST_LOG_PAGE)) VHOST_LOG_PAGE.

(** The calls of [memory_region_set_dirty] in a trace, in order. *)
Definition set_dirty_calls (tr : list event) : list event :=
  filter (fun ev => match ev with SetDirty _ _ _ => true | _ => false end) tr.

(** The indices of the log words that [vhost_dev_sync_region] visits for
    the intersection of [mfirst, mlast] and [rfirst, rlast], in order. *)
Definition window_words (mfirst mlast rfirst rlast : Z) : list nat :=
  let start := MAX mfirst rfirst in
  let end_ := MIN mlast rlast in
  if end_ <? start then []
  else seq (Z.to_nat (start / VHOST_LOG_CHUNK))
         (Z.to_nat (end_ / VHOST_LOG_CHUNK + 1 - start / VHOST_LOG_CHUNK)).

(** The pages that the set bits of the log words [words] stand for. *)
Definition pages_of (section : MemoryRegionSection) (lg : list Z)
  (words : list nat) : list event :=
  flat_map (fun i => map (dirty_page section) (dirty_bits (nth i lg 0)))
    words.

End DirtyVocabulary.

(** The accelerator after it took the commands [reqs], in order. *)
Definition replay (reqs : list request) (acc : accelerator) : accelerator :=
  fold_left (fun a req => accept req a) reqs acc.

Section StepVocabulary.
Context {G : LogGeometry}.

(** The accelerator holds the device's region table and, while the log
    is enabled, a log of the size the device has on record, which is not
    empty and large enough for the table and the used rings. *)
Definition tables_in_step (d : vhost_dev) (acc : accelerator) : Prop :=
  acc_mem_table acc = mem d /\
  (log_enabled d = true ->
   acc_log_words acc = log_size d /\ 0 < log_size d /\
   vhost_get_log_size d <= log_size d).

End StepVocabulary.

(** Every run of [m] that returns leaves a device that [R] relates to
    the device it started with. *)
Definition dev_frame {A} (R : vhost_dev -> vhost_dev -> Prop) (m : M A)
  : Prop :=
  forall w a w', m w = Some (a, w') -> R (w_dev w) (w_dev w').

(** ** Host notifiers *)

Definition ENOSYS : Z := 38.

(** Modelled from the spec: the binding of the virtio device is an
    external collaborator with an optional operation
    [set_host_notifier(n, assign)] that returns an [int].  Its coming
    results are scripted ([0] once the list is used up), and the calls
    made are recorded in order.  Messages on [stderr] are left out. *)
Record VirtIODevice : Type := mkvdev {
  has_set_host_notifier : bool;     (* vdev->binding->set_host_notifier != NULL *)
  notifier_results : list Z;
  notifier_calls : list (Z * bool)
}.

Definition set_host_notifier (n : Z) (assign : bool) (vdev : VirtIODevice)
  : Z * VirtIODevice :=
  (hd 0 (notifier_results vdev),
   mkvdev (has_set_host_notifier vdev) (tl (notifier_results vdev))
     (notifier_calls vdev ++ [(n, assign)])).

(** The loop at [fail_vq], [while (--i >= 0)], entered with the values
    of [i] and [r] at the [goto]; [None] when the assertion fails. *)
Fixpoint notifiers_unwind (i : nat) (r : Z) (vdev : VirtIODevice)
  : option (Z * VirtIODevice) :=
  match i with
  | O => Some (r, vdev)
  | S j =>
      let (r', vdev') := set_host_notifier (Z.of_nat j) false vdev in
      assert (r' >=? 0) ;;;
      notifiers_unwind j r' vdev'
  end.

(** The [for] loop of [vhost_dev_enable_notifiers] from queue [i] on,
    with [count] queues to go. *)
Fixpoint notifiers_enable (count i : nat) (vdev : VirtIODevice)
  : option (Z * VirtIODevice) :=
  match count with
  | O => Some (0, vdev)
  | S count' =>
      let (r, vdev') := set_host_notifier (Z.of_nat i) true vdev in
      if r <? 0 then notifiers_unwind i r vdev'
      else notifiers_enable count' (S i) vdev'
  end.

(** [vhost_dev_enable_notifiers]. *)
Definition vhost_dev_enable_notifiers (hdev : vhost_dev)
  (vdev : VirtIODevice) : option (Z * VirtIODevice) :=
  if negb (has_set_host_notifier vdev) then Some (- ENOSYS, vdev)
  else notifiers_enable (length (vqs hdev)) 0 vdev.

(** The loop of [vhost_dev_disable_notifiers] from queue [i] on. *)
Fixpoint notifiers_disable (count i : nat) (vdev : VirtIODevice)
  : option VirtIODevice :=
  match count with
  | O => Some vdev
  | S count' =>
      let (r, vdev') := set_host_notifier (Z.of_nat i) false vdev in
      assert (r >=? 0) ;;;
      notifiers_disable count' (S i) vdev'
  end.

(** [vhost_dev_disable_notifiers]. *)
Definition vhost_dev_disable_notifiers (hdev : vhost_dev)
  (vdev : VirtIODevice) : option VirtIODevice :=
  notifiers_disable (length (vqs hdev)) 0 vdev.

(** The calls that bind the queues [i .. i + count - 1] in ascending
    order, and those that release the queues [count - 1 .. 0] in
    descending order. *)
Definition bind_calls (i count : nat) : list (Z * bool) :=
  map (fun n => (Z.of_nat n, true)) (seq i count).

Definition release_calls_down (count : nat) : list (Z * bool) :=
  map (fun n => (Z.of_nat n, false)) (rev (seq 0 count)).

Definition release_calls_up (i count : nat) : list (Z * bool) :=
  map (fun n => (Z.of_nat n, false)) (seq i count).

(** ** Listener callbacks *)

(** A region event as [vhost_section] sees it: the section, whether its
    address space is the system memory, and whether its region is RAM. *)
Record region_event : Type := mkregion_event {
  ev_section : MemoryRegionSection;
  in_system_memory : bool;   (* section->address_space == get_system_memory() *)
  is_ram : bool              (* memory_region_is_ram(section->mr) *)
}.

(** [vhost_section]. *)
Definition vhost_section (ev : region_event) : bool :=
  in_system_memory ev && is_ram ev.

(** The loop of [vhost_region_del]: the first tracked section at the
    address-space offset [offset] is taken out, the later ones move up. *)
Fixpoint drop_section (offset : Z) (l : list MemoryRegionSection)
  : list MemoryRegionSection :=
  match l with
  | [] => []
  | x :: l' =>
      if offset_within_address_space x =? offset then l'
      else x :: drop_section offset l'
  end.

Definition set_mem_sections (l : list MemoryRegionSection) (d : vhost_dev)
  : vhost_dev :=
  mkdev (mem d) (vqs d) (log d) (log_size d) (log_enabled d) (started d)
    l (acked_features d).

Section Listener.
Context {G : LogGeometry}.
Local Open Scope vhost_scope.

(** [vhost_region_add]. *)
Definition vhost_region_add (ev : region_event) : M unit :=
  if negb (vhost_section ev) then ret tt
  else
    d <- get_dev ;;
    put_dev (set_mem_sections (mem_sections d ++ [ev_section ev]) d) ;;;
    vhost_set_memory (ev_section ev) true.

(** [vhost_region_del]. *)
Definition vhost_region_del (ev : region_event) : M unit :=
  if negb (vhost_section ev) then ret tt
  else
    vhost_set_memory (ev_section ev) false ;;;
    d <- get_dev ;;
    put_dev (set_mem_sections
               (drop_section (offset_within_address_space (ev_section ev))
                  (mem_sections d)) d).

(** [vhost_log_global_start] and [vhost_log_global_stop]: a failed
    toggle ends the program. *)
Definition vhost_log_global_start : M unit :=
  r <- vhost_migration_log true ;;
  massert (negb (r <? 0)).

Definition vhost_log_global_stop : M unit :=
  r <- vhost_migration_log false ;;
  massert (negb (r <? 0)).

End Listener.

(** Whether a tracked section lies at the address-space offset
    [offset]. *)
Definition tracked_at (offset : Z) (l : list MemoryRegionSection) : bool :=
  existsb (fun x => offset_within_address_space x =? offset) l.
(** * Properties *)

(** ** Scenarios of the specification *)

Example insert_and_merge :
  (t1 <- vhost_dev_assign_memory [] 0 4096 1879048192 ;;
   vhost_dev_assign_memory t1 4096 4096 1879052288)
  = Some [mkreg 0 8192 1879048192].
Proof. reflexivity. Qed.

Example non_adjacent :
  (t1 <- vhost_dev_assign_memory [] 0 4096 1879048192 ;;
   vhost_dev_assign_memory t1 8192 4096 1879056384)
  = Some [mkreg 0 4096 1879048192; mkreg 8192 4096 1879056384].
Proof. reflexivity. Qed.

Example middle_split :
  vhost_dev_unassign_memory [mkreg 0 65536 2147483648] 16384 16384
  = Some [mkreg 0 16384 2147483648; mkreg 32768 32768 2147516416].
Proof. reflexivity. Qed.

Example full_cover_removal :
  vhost_dev_unassign_memory [mkreg 0 4096 2147483648] 0 4096 = Some [].
Proof. reflexivity. Qed.

Example compare_hit :
  vhost_dev_cmp_memory [mkreg 4096 12288 2415923200] 8192 4096 2415927296
  = false.
Proof. reflexivity. Qed.

Example dirty_harvest :
  @vhost_sync_dirty_bitmap lp64 (example_sync_dev 10 0) example_section
    0 524288
  = Some ([0; 0],
          [LogLoad 0; LogFetchAnd 0; SetDirty 7 4096 4096;
           SetDirty 7 12288 4096; LogLoad 1]).
Proof. vm_compute. reflexivity. Qed.

(** ** Arithmetic without wrap-around *)

Lemma u64_small (z : Z) : 0 <= z < U64 -> u64 z = z.
Proof. intros H. unfold u64. apply Z.mod_small. exact H. Qed.

Lemma u64_range (z : Z) : 0 <= u64 z < U64.
Proof. unfold u64. apply Z.mod_pos_bound. reflexivity. Qed.

Lemma MIN_spec (a b : Z) : MIN a b = Z.min a b.
Proof. unfold MIN. destruct (Z.ltb_spec a b); lia. Qed.

Lemma MAX_spec (a b : Z) : MAX a b = Z.max a b.
Proof. unfold MAX. rewrite Z.gtb_ltb. destruct (Z.ltb_spec b a); lia. Qed.


Ltac u64_norm :=
  repeat match goal with
         | |- context [u64 ?z] => rewrite (u64_small z) by lia
         end.

Lemma range_get_last_ok (o l : Z) :
  0 <= o -> 0 < l -> o + l <= U64 -> range_get_last o l = o + l - 1.
Proof. intros. unfold range_get_last. u64_norm. reflexivity. Qed.

(** ** Loops with an abortable body *)

Lemma ofold_cons {S A} (body : S -> A -> option S) a l s :
  ofold body (a :: l) s =
  match body s a with Some s' => ofold body l s' | None => None end.
Proof.
  unfold ofold. simpl. destruct (body s a) as [s'|]; [reflexivity|].
  induction l as [|b l IH]; simpl; auto.
Qed.

Lemma ofold_nil {S A} (body : S -> A -> option S) s :
  ofold body [] s = Some s.
Proof. reflexivity. Qed.

(** ** Pairwise properties of tables *)

Lemma FOP_app {A} (R : A -> A -> Prop) (l1 l2 : list A) :
  ForallOrdPairs R (l1 ++ l2) <->
  ForallOrdPairs R l1 /\ ForallOrdPairs R l2 /\
  (forall a b, In a l1 -> In b l2 -> R a b).
Proof.
  induction l1 as [|x l1 IH]; simpl.
  - split.
    + intros H. repeat split; [constructor | exact H | contradiction].
    + intros (_ & H & _). exact H.
  - split.
    + intros H. inversion H as [|? ? Hx Hr]; subst.
      apply IH in Hr. destruct Hr as (H1 & H2 & H12).
      rewrite Forall_app in Hx. destruct Hx as [Hx1 Hx2].
      repeat split; [constructor; assumption | assumption |].
      intros a b [<-|Ha] Hb.
      * rewrite Forall_forall in Hx2. auto.
      * auto.
    + intros (H1 & H2 & H12). inversion H1 as [|? ? Hx Hr]; subst.
      constructor.
      * rewrite Forall_app. split; [assumption|].
        rewrite Forall_forall. intros b Hb. apply H12; auto.
      * apply IH. repeat split; auto.
Qed.

Lemma disjoint_sym (a b : vhost_memory_region) : disjoint a b -> disjoint b a.
Proof. unfold disjoint, apart. lia. Qed.

Lemma separate_sym (a b : vhost_memory_region) : separate a b -> separate b a.
Proof. unfold separate. tauto. Qed.

Lemma FOP_sym_in {A} (R : A -> A -> Prop) (l : list A) :
  (forall a b, R a b -> R b a) ->
  ForallOrdPairs R l ->
  forall l1 x l2, l = l1 ++ x :: l2 ->
  forall y, In y (l1 ++ l2) -> R x y.
Proof.
  intros Hsym H l1 x l2 -> y Hy.
  apply FOP_app in H. destruct H as (_ & H2 & H12).
  inversion H2 as [|? ? Hx _]; subst.
  apply in_app_or in Hy. destruct Hy as [Hy|Hy].
  - apply Hsym. apply H12; [assumption | left; reflexivity].
  - rewrite Forall_forall in Hx. auto.
Qed.

(** ** Unassign *)

Ltac decide_if :=
  match goal with
  | |- context [if ?b then _ else _] =>
      first [ replace b with true by lia | replace b with false by lia ]
  end.

Ltac run_ifs :=
  repeat first [ decide_if | progress (unfold assert, obind; cbn beta iota) ].

Ltac same := repeat first [ reflexivity | lia | progress f_equal ].

Lemma classify_spec (g s : Z) (r : vhost_memory_region) :
  match classify g s r with
  | Disjoint => apart g s r
  | Whole => g <= guest_phys_addr r /\ reg_end r <= g + s /\ ~ apart g s r
  | Tail => guest_phys_addr r < g /\ reg_end r <= g + s /\ ~ apart g s r
  | Head => g <= guest_phys_addr r /\ g + s < reg_end r /\ ~ apart g s r
  | Middle => guest_phys_addr r < g /\ g + s < reg_end r
  end.
Proof.
  unfold classify, apart, reg_end.
  repeat match goal with
         | |- context [if ?b then _ else _] => destruct b eqn:?
         end; lia.
Qed.

Lemma count_kind_app k g s p q :
  count_kind k g s (p ++ q) = count_kind k g s p + count_kind k g s q.
Proof. unfold count_kind. rewrite filter_app, length_app. lia. Qed.

Lemma count_kind_nonneg k g s p : 0 <= count_kind k g s p.
Proof. unfold count_kind. lia. Qed.

Lemma count_kind_zero k g s p :
  (forall r, In r p -> is_kind k g s r = false) -> count_kind k g s p = 0.
Proof.
  unfold count_kind. induction p as [|x p IH]; intros H; simpl; [reflexivity|].
  rewrite (H x) by (left; reflexivity). apply IH. intros r Hr. apply H.
  right. exact Hr.
Qed.

Lemma count_kind_one k g s r :
  count_kind k g s [r] = if is_kind k g s r then 1 else 0.
Proof. unfold count_kind. simpl. destruct (is_kind k g s r); reflexivity. Qed.

(** Regions that overlap the removal in a way that excludes [r] from
    overlapping it too, as [r] is disjoint from them. *)
Lemma no_middle_before g s p r :
  range_wf g s -> reg_wf r -> ~ apart g s r ->
  (forall r0, In r0 p -> reg_wf r0 /\ disjoint r0 r) ->
  count_kind Middle g s p = 0.
Proof.
  intros Hg Hr Hov Hp. apply count_kind_zero. intros r0 H0.
  destruct (Hp r0 H0) as [Hok Hd]. unfold is_kind.
  pose proof (classify_spec g s r0) as Hc.
  destruct (classify g s r0); try reflexivity.
  unfold disjoint, apart, reg_wf, range_wf, reg_end in *. lia.
Qed.

Lemma no_tail_before g s p r :
  range_wf g s -> reg_wf r -> guest_phys_addr r < g < reg_end r ->
  (forall r0, In r0 p -> reg_wf r0 /\ disjoint r0 r) ->
  count_kind Tail g s p = 0.
Proof.
  intros Hg Hr Hov Hp. apply count_kind_zero. intros r0 H0.
  destruct (Hp r0 H0) as [Hok Hd]. unfold is_kind.
  pose proof (classify_spec g s r0) as Hc.
  destruct (classify g s r0); try reflexivity.
  unfold disjoint, apart, reg_wf, range_wf, reg_end in *. lia.
Qed.

Lemma no_head_before g s p r :
  range_wf g s -> reg_wf r -> guest_phys_addr r < g + s < reg_end r ->
  (forall r0, In r0 p -> reg_wf r0 /\ disjoint r0 r) ->
  count_kind Head g s p = 0.
Proof.
  intros Hg Hr Hov Hp. apply count_kind_zero. intros r0 H0.
  destruct (Hp r0 H0) as [Hok Hd]. unfold is_kind.
  pose proof (classify_spec g s r0) as Hc.
  destruct (classify g s r0); try reflexivity.
  unfold disjoint, apart, reg_wf, range_wf, reg_end in *. lia.
Qed.

Lemma no_overlap_before g s p r :
  range_wf g s -> reg_wf r -> guest_phys_addr r < g -> g + s < reg_end r ->
  (forall r0, In r0 p -> reg_wf r0 /\ disjoint r0 r) ->
  forall k, k <> Disjoint -> count_kind k g s p = 0.
Proof.
  intros Hg Hr H1 H2 Hp k Hk. apply count_kind_zero. intros r0 H0.
  destruct (Hp r0 H0) as [Hok Hd]. unfold is_kind.
  pose proof (classify_spec g s r0) as Hc.
  destruct (classify g s r0), k; try reflexivity; try congruence;
    unfold disjoint, apart, reg_wf, range_wf, reg_end in *; lia.
Qed.

Lemma unassign_body_ok n g s p r :
  range_wf g s -> reg_wf r ->
  (forall r0, In r0 p -> reg_wf r0 /\ disjoint r0 r) ->
  Unassign.body n g s (unassign_state_after n g s p) r
  = Some (unassign_state_after n g s (p ++ [r])).
Proof.
  intros Hg Hr Hp.
  unfold unassign_state_after.
  rewrite !flat_map_app, !count_kind_app, !count_kind_one, map_app. simpl.
  rewrite !app_nil_r.
  unfold cut_keep, cut_spill, is_kind.
  pose proof (classify_spec g s r) as Hc.
  pose proof (count_kind_nonneg Middle g s p) as Hm.
  destruct (classify g s r) eqn:Hk;
    unfold Unassign.body, ranges_overlap, range_get_last; simpl;
    unfold reg_wf, range_wf, apart, reg_end in *; u64_norm.
  - (* disjoint *)
    run_ifs. rewrite !app_nil_r, !Z.add_0_r. reflexivity.
  - (* whole *)
    rewrite (no_middle_before g s p r) by (unfold range_wf, reg_wf, apart; auto; lia).
    run_ifs.
    rewrite !app_nil_r, !Z.add_0_r. same.
  - (* tail *)
    rewrite (no_middle_before g s p r) by (unfold range_wf, reg_wf, apart; auto; lia).
    rewrite (no_tail_before g s p r)
      by (unfold range_wf, reg_wf, apart, reg_end; auto; lia).
    run_ifs.
    rewrite !app_nil_r, !Z.add_0_r. reflexivity.
  - (* head *)
    rewrite (no_middle_before g s p r) by (unfold range_wf, reg_wf, apart; auto; lia).
    rewrite (no_head_before g s p r)
      by (unfold range_wf, reg_wf, apart, reg_end; auto; lia).
    run_ifs.
    rewrite !app_nil_r, !Z.add_0_r. unfold high_part, reg_end. same.
  - (* middle *)
    assert (Hz : forall k, k <> Disjoint -> count_kind k g s p = 0).
    { apply (no_overlap_before g s p r);
        unfold range_wf, reg_wf, reg_end; auto; lia. }
    rewrite (Hz Middle), (Hz Whole), (Hz Tail), (Hz Head) by discriminate.
    run_ifs.
    rewrite last_last. unfold high_part, low_part, reg_end.
    rewrite !Z.add_0_r. same.
Qed.

Lemma table_ok_app (p t : region_table) :
  table_wf (p ++ t) ->
  table_wf p /\ table_wf t /\
  (forall a b, In a p -> In b t -> disjoint a b).
Proof.
  intros [Hok Hno]. apply Forall_app in Hok. destruct Hok as [Hp Ht].
  apply FOP_app in Hno. destruct Hno as (H1 & H2 & H12).
  repeat split; assumption.
Qed.

Lemma unassign_fold n g s :
  range_wf g s ->
  forall t p, table_wf (p ++ t) ->
  ofold (Unassign.body n g s) t (unassign_state_after n g s p)
  = Some (unassign_state_after n g s (p ++ t)).
Proof.
  intros Hg t. induction t as [|r t IH]; intros p Hok.
  - rewrite app_nil_r. reflexivity.
  - rewrite ofold_cons.
    replace (p ++ r :: t) with ((p ++ [r]) ++ t) in *
      by (rewrite <- app_assoc; reflexivity).
    destruct (table_ok_app _ _ Hok) as (Hpr & _ & _).
    destruct (table_ok_app _ _ Hpr) as ((Hp & _) & (Hr & _) & Hd).
    rewrite unassign_body_ok.
    + apply IH. exact Hok.
    + exact Hg.
    + inversion Hr; assumption.
    + intros r0 H0. split.
      * rewrite Forall_forall in Hp. auto.
      * apply Hd; [assumption | left; reflexivity].
Qed.

Lemma cut_apart g s r :
  apart g s r -> cut_keep g s r = [r] /\ cut_spill g s r = [].
Proof.
  intros H. unfold cut_keep, cut_spill, classify.
  unfold apart, reg_end in *. decide_if. auto.
Qed.

Lemma cut_all_apart g s t :
  Forall (apart g s) t ->
  flat_map (cut_keep g s) t = t /\ flat_map (cut_spill g s) t = [].
Proof.
  induction 1 as [|r t Hr _ [IH1 IH2]]; simpl; [auto|].
  destruct (cut_apart g s r Hr) as [-> ->]. simpl. rewrite IH1, IH2. auto.
Qed.

Lemma cut_spill_cases g s r :
  cut_spill g s r = [] \/
  (cut_spill g s r = [high_part g s r] /\
   guest_phys_addr r < g /\ g + s < reg_end r).
Proof.
  unfold cut_spill. pose proof (classify_spec g s r) as Hc.
  destruct (classify g s r); auto.
Qed.

Lemma spill_at_most_one g s t :
  range_wf g s -> table_wf t ->
  opt_list (last (map Some (flat_map (cut_spill g s) t)) None)
  = flat_map (cut_spill g s) t.
Proof.
  intros Hg. induction t as [|r t IH]; intros [Hok Hno]; [reflexivity|].
  inversion Hok as [|? ? Hr Hok']; subst.
  inversion Hno as [|? ? Hd Hno']; subst.
  simpl.
  destruct (cut_spill_cases g s r) as [-> | (-> & H1 & H2)].
  - simpl. apply IH. split; assumption.
  - assert (Ha : Forall (apart g s) t).
    { rewrite Forall_forall in *. intros r0 H0.
      specialize (Hd r0 H0). specialize (Hok' r0 H0).
      unfold disjoint, apart, reg_wf, range_wf, reg_end in *. lia. }
    destruct (cut_all_apart g s t Ha) as [_ ->]. reflexivity.
Qed.

(** What unassign computes on a table without overlaps: every region is
    cut in place, and the upper part of a split region goes last. *)
Lemma unassign_exact g s t :
  range_wf g s -> table_wf t ->
  vhost_dev_unassign_memory t g s = Some (unassign_result g s t).
Proof.
  intros Hg Hok. unfold vhost_dev_unassign_memory.
  pose proof (unassign_fold (Z.of_nat (length t)) g s Hg t [] Hok) as H.
  simpl in H. unfold unassign_state_after at 1 in H. simpl in H.
  unfold Unassign.init. unfold count_kind in H. simpl in H.
  rewrite Z.sub_0_r, Z.add_0_r in H. rewrite H. simpl.
  unfold Unassign.finish, unassign_result. simpl. f_equal. f_equal.
  apply (spill_at_most_one g s t Hg Hok).
Qed.

Lemma piece_spec g s r r' :
  range_wf g s -> reg_wf r ->
  In r' (cut_keep g s r ++ cut_spill g s r) ->
  reg_wf r' /\ apart g s r' /\ part_of r r'.
Proof.
  intros Hg Hr. unfold cut_keep, cut_spill.
  pose proof (classify_spec g s r) as Hc.
  destruct (classify g s r); simpl; intros Hin;
    repeat match goal with
           | H : _ = r' \/ _ |- _ => destruct H
           | H : False |- _ => destruct H
           end; subst r'.
  all: unfold reg_wf, apart, part_of, range_wf, reg_end, low_part, high_part in *;
    simpl; unfold reg_end; lia.
Qed.

Lemma FOP_in {A} (R : A -> A -> Prop) (l : list A) :
  (forall a b, R a b -> R b a) ->
  ForallOrdPairs R l ->
  forall a b, In a l -> In b l -> a = b \/ R a b.
Proof.
  intros Hsym. induction 1 as [|x l Hx Hl IH]; intros a b Ha Hb.
  - destruct Ha.
  - rewrite Forall_forall in Hx.
    destruct Ha as [<-|Ha], Hb as [<-|Hb]; auto.
Qed.

Lemma FOP_and {A} (R1 R2 : A -> A -> Prop) (l : list A) :
  ForallOrdPairs R1 l -> ForallOrdPairs R2 l ->
  ForallOrdPairs (fun a b => R1 a b /\ R2 a b) l.
Proof.
  induction 1 as [|x l Hx Hl IH]; intros H2; [constructor|].
  inversion H2 as [|? ? Hx2 Hl2]; subst. constructor; [|auto].
  rewrite Forall_forall in *. auto.
Qed.

Lemma FOP_impl {A} (R1 R2 : A -> A -> Prop) (l : list A) :
  (forall a b, In a l -> In b l -> R1 a b -> R2 a b) ->
  ForallOrdPairs R1 l -> ForallOrdPairs R2 l.
Proof.
  intros Himp H. induction H as [|x l Hx Hl IH]; [constructor|].
  constructor.
  - rewrite Forall_forall in *. intros b Hb.
    apply Himp; [left; reflexivity | right; assumption | auto].
  - apply IH. intros a b Ha Hb. apply Himp; right; assumption.
Qed.

Lemma FOP_flat_map {A B} (R : A -> A -> Prop) (R' : B -> B -> Prop)
  (f : A -> list B) (l : list A) :
  (forall x, In x l -> ForallOrdPairs R' (f x)) ->
  (forall x y, In x l -> In y l -> R x y ->
     forall a b, In a (f x) -> In b (f y) -> R' a b) ->
  ForallOrdPairs R l -> ForallOrdPairs R' (flat_map f l).
Proof.
  intros Hself Hcross H. induction H as [|x l Hx Hl IH]; simpl; [constructor|].
  apply FOP_app. repeat split.
  - apply Hself. left. reflexivity.
  - apply IH.
    + intros y Hy. apply Hself. right. exact Hy.
    + intros y z Hy Hz. apply Hcross; right; assumption.
  - intros a b Ha Hb. apply in_flat_map in Hb. destruct Hb as (y & Hy & Hb).
    rewrite Forall_forall in Hx.
    apply (Hcross x y); auto; [left; reflexivity | right; assumption].
Qed.

Lemma FOP_short {A} (R : A -> A -> Prop) (l : list A) :
  (length l <= 1)%nat -> ForallOrdPairs R l.
Proof.
  destruct l as [|x [|y l]]; simpl; intros H.
  - constructor.
  - constructor; constructor.
  - lia.
Qed.

Lemma part_disjoint r1 r2 a b :
  disjoint r1 r2 -> part_of r1 a -> part_of r2 b -> disjoint a b.
Proof. unfold disjoint, apart, part_of, reg_end. lia. Qed.

Lemma part_separate r1 r2 a b :
  reg_wf a -> reg_wf b ->
  disjoint r1 r2 -> separate r1 r2 ->
  part_of r1 a -> part_of r2 b -> separate a b.
Proof.
  unfold disjoint, apart, part_of, separate, continues, reg_wf, reg_end. lia.
Qed.

Lemma cut_lengths g s r :
  (length (cut_keep g s r) <= 1)%nat /\ (length (cut_spill g s r) <= 1)%nat.
Proof.
  unfold cut_keep, cut_spill. destruct (classify g s r); simpl; lia.
Qed.

(** The two parts a split leaves of one region. *)
Lemma cut_same_region g s r a b :
  range_wf g s -> reg_wf r ->
  In a (cut_keep g s r) -> In b (cut_spill g s r) ->
  disjoint a b /\ separate a b.
Proof.
  intros Hg Hr. unfold cut_keep, cut_spill.
  pose proof (classify_spec g s r) as Hc.
  destruct (classify g s r); simpl; try tauto.
  intros [<-|[]] [<-|[]].
  unfold disjoint, separate, continues, apart, low_part, high_part, reg_end,
    range_wf, reg_wf in *; simpl. lia.
Qed.

Section UnassignPreserves.
Variables (g s : Z) (t : region_table).
Hypothesis Hg : range_wf g s.
Hypothesis Hok : table_wf t.

Lemma result_piece r' :
  In r' (unassign_result g s t) ->
  exists r, In r t /\ In r' (cut_keep g s r ++ cut_spill g s r).
Proof.
  unfold unassign_result. intros H. apply in_app_or in H.
  destruct H as [H|H]; apply in_flat_map in H; destruct H as (r & Hr & H);
    exists r; split; auto; apply in_or_app; auto.
Qed.

Lemma result_spec r' :
  In r' (unassign_result g s t) ->
  reg_wf r' /\ apart g s r' /\ exists r, In r t /\ part_of r r'.
Proof.
  intros H. destruct (result_piece r' H) as (r & Hr & Hp).
  destruct Hok as [Hall _]. rewrite Forall_forall in Hall.
  destruct (piece_spec g s r r' Hg (Hall r Hr) Hp) as (H1 & H2 & H3).
  split; [|split]; auto. exists r. auto.
Qed.

(** A pairwise property of the table carries over to the result as soon
    as it passes from two regions to their parts and holds between the
    two parts of a split. *)
Lemma result_pairwise (R : vhost_memory_region -> vhost_memory_region -> Prop) :
  (forall a b, R a b -> R b a) ->
  (forall r1 r2 a b, In r1 t -> In r2 t -> disjoint r1 r2 -> R r1 r2 ->
     In a (cut_keep g s r1 ++ cut_spill g s r1) ->
     In b (cut_keep g s r2 ++ cut_spill g s r2) -> R a b) ->
  (forall r a b, In r t -> In a (cut_keep g s r) -> In b (cut_spill g s r) ->
     R a b) ->
  ForallOrdPairs R t -> ForallOrdPairs R (unassign_result g s t).
Proof.
  intros Hsym Hcross Hsame HR.
  destruct Hok as [Hall Hno].
  assert (HDR : ForallOrdPairs (fun a b => disjoint a b /\ R a b) t)
    by (apply FOP_and; assumption).
  assert (HDRsym : forall a b : vhost_memory_region,
             disjoint a b /\ R a b -> disjoint b a /\ R b a).
  { intros a b [H1 H2]. split; [apply disjoint_sym | apply Hsym]; auto. }
  unfold unassign_result. apply FOP_app. repeat split.
  - apply (FOP_flat_map (fun a b => disjoint a b /\ R a b)); auto.
    + intros x _. apply FOP_short. apply cut_lengths.
    + intros x y Hx Hy [Hd Hr] a b Ha Hb.
      apply (Hcross x y); auto; apply in_or_app; auto.
  - apply (FOP_flat_map (fun a b => disjoint a b /\ R a b)); auto.
    + intros x _. apply FOP_short. apply cut_lengths.
    + intros x y Hx Hy [Hd Hr] a b Ha Hb.
      apply (Hcross x y); auto; apply in_or_app; auto.
  - intros a b Ha Hb.
    apply in_flat_map in Ha. destruct Ha as (r1 & H1 & Ha).
    apply in_flat_map in Hb. destruct Hb as (r2 & H2 & Hb).
    destruct (FOP_in _ t HDRsym HDR r1 r2 H1 H2) as [<- | [Hd Hr]].
    + apply (Hsame r1); auto.
    + apply (Hcross r1 r2); auto; apply in_or_app; auto.
Qed.

Lemma unassign_table_wf : table_wf (unassign_result g s t).
Proof.
  split.
  - rewrite Forall_forall. intros r' H. apply (result_spec r' H).
  - destruct Hok as [Hall Hno]. rewrite Forall_forall in Hall.
    apply result_pairwise; auto.
    + apply disjoint_sym.
    + intros r1 r2 a b H1 H2 Hd _ Ha Hb.
      apply (part_disjoint r1 r2); auto.
      * apply (piece_spec g s r1 a Hg (Hall r1 H1) Ha).
      * apply (piece_spec g s r2 b Hg (Hall r2 H2) Hb).
    + intros r a b Hr Ha Hb.
      apply (cut_same_region g s r a b Hg (Hall r Hr) Ha Hb).
Qed.

Lemma unassign_apart : Forall (apart g s) (unassign_result g s t).
Proof.
  rewrite Forall_forall. intros r' H. apply (result_spec r' H).
Qed.

Lemma unassign_merge_maximal : merge_maximal t -> merge_maximal (unassign_result g s t).
Proof.
  intros Hmm. destruct Hok as [Hall Hno]. rewrite Forall_forall in Hall.
  apply result_pairwise; auto.
  - apply separate_sym.
  - intros r1 r2 a b H1 H2 Hd Hs Ha Hb.
    destruct (piece_spec g s r1 a Hg (Hall r1 H1) Ha) as (Ha1 & _ & Ha2).
    destruct (piece_spec g s r2 b Hg (Hall r2 H2) Hb) as (Hb1 & _ & Hb2).
    apply (part_separate r1 r2); auto.
  - intros r a b Hr Ha Hb.
    apply (cut_same_region g s r a b Hg (Hall r Hr) Ha Hb).
Qed.

End UnassignPreserves.

Lemma reg_ok_wf r : reg_ok r -> reg_wf r.
Proof. unfold reg_ok, reg_wf. lia. Qed.

Lemma range_ok_wf g s : range_ok g s -> range_wf g s.
Proof. unfold range_ok, range_wf. lia. Qed.

Lemma table_ok_wf t : table_ok t -> table_wf t.
Proof.
  intros [Hall Hno]. split; [|exact Hno].
  eapply Forall_impl; [|exact Hall]. apply reg_ok_wf.
Qed.

Lemma part_ok r r' : reg_ok r -> reg_wf r' -> part_of r r' -> reg_ok r'.
Proof. unfold reg_ok, reg_wf, part_of, reg_end. lia. Qed.

(** With the margin at the top, unassign keeps the margin. *)
Lemma unassign_table_ok g s t :
  range_ok g s -> table_ok t -> table_ok (unassign_result g s t).
Proof.
  intros Hg Hok.
  pose proof (unassign_table_wf g s t (range_ok_wf g s Hg) (table_ok_wf t Hok))
    as [Hall Hno].
  split; [|exact Hno]. rewrite Forall_forall in *. intros r' Hr'.
  destruct (result_spec g s t (range_ok_wf g s Hg) (table_ok_wf t Hok) r' Hr')
    as (Hwf & _ & r & Hr & Hpart).
  destruct Hok as [Hok _]. rewrite Forall_forall in Hok.
  apply (part_ok r r'); auto.
Qed.


(** ** Assign *)

Lemma touchesb_spec a b : touchesb a b = true <-> touches a b.
Proof. unfold touchesb, touches, continues, reg_end. lia. Qed.

Lemma not_touchesb a b : touchesb a b = false <-> separate a b.
Proof. unfold touchesb, separate, continues, reg_end. lia. Qed.

Lemma join_ok a b : reg_ok a -> reg_ok b -> continues a b -> reg_ok (join a b).
Proof. unfold reg_ok, continues, join. simpl. lia. Qed.

Lemma assign_body_skip st r :
  reg_ok (running st) -> reg_ok r ->
  disjoint (running st) r -> separate (running st) r ->
  Assign.body st r
  = Some (Assign.mkstate (Assign.kept st ++ [r]) (Assign.merged st)
            (Assign.start_addr st) (Assign.size st) (Assign.uaddr st)).
Proof.
  unfold reg_ok, disjoint, apart, separate, continues, running. simpl.
  intros Hn Hr Hd Hs.
  unfold Assign.body, range_get_last. u64_norm. run_ifs. reflexivity.
Qed.

Lemma assign_body_left st r :
  reg_ok (running st) -> reg_ok r -> continues r (running st) ->
  Assign.body st r = Some (merge_into st (join r (running st))).
Proof.
  unfold reg_ok, continues, running. simpl. intros Hn Hr Hc.
  unfold Assign.body, range_get_last, MIN, MAX. u64_norm. run_ifs. u64_norm.
  run_ifs. unfold merge_into, join. simpl.
  destruct (Assign.merged st); same.
Qed.

Lemma assign_body_right st r :
  reg_ok (running st) -> reg_ok r -> continues (running st) r ->
  Assign.body st r = Some (merge_into st (join (running st) r)).
Proof.
  unfold reg_ok, continues, running. simpl. intros Hn Hr Hc.
  unfold Assign.body, range_get_last, MIN, MAX. u64_norm. run_ifs. u64_norm.
  run_ifs. unfold merge_into, join. simpl.
  destruct (Assign.merged st); same.
Qed.

Lemma assign_skip l :
  forall st,
  reg_ok (running st) ->
  Forall (fun r => reg_ok r /\ disjoint (running st) r /\
                   separate (running st) r) l ->
  ofold Assign.body l st
  = Some (Assign.mkstate (Assign.kept st ++ l) (Assign.merged st)
            (Assign.start_addr st) (Assign.size st) (Assign.uaddr st)).
Proof.
  induction l as [|r l IH]; intros st Hn Hl.
  - rewrite app_nil_r. destruct st. reflexivity.
  - inversion Hl as [|? ? (H1 & H2 & H3) Hl']; subst.
    rewrite ofold_cons, assign_body_skip by assumption.
    rewrite IH; simpl; auto.
    rewrite <- app_assoc. reflexivity.
Qed.

Lemma ofold_app {S A} (body : S -> A -> option S) l1 l2 s :
  ofold body (l1 ++ l2) s =
  match ofold body l1 s with Some s' => ofold body l2 s' | None => None end.
Proof.
  revert s. induction l1 as [|a l1 IH]; intros s; simpl.
  - reflexivity.
  - rewrite !ofold_cons. destruct (body s a); [apply IH | reflexivity].
Qed.

Lemma array_store_app {A} (l1 l2 : list A) a b :
  array_store (l1 ++ a :: l2) (length l1) b = l1 ++ b :: l2.
Proof. induction l1 as [|x l1 IH]; simpl; [reflexivity | rewrite IH; reflexivity]. Qed.

Lemma list_first {A} (P : A -> bool) (l : list A) :
  Forall (fun x => P x = false) l \/
  exists l1 x l2,
    l = l1 ++ x :: l2 /\ Forall (fun x => P x = false) l1 /\ P x = true.
Proof.
  induction l as [|a l IH].
  - left. constructor.
  - destruct (P a) eqn:Ha.
    + right. exists [], a, l. repeat split; auto.
    + destruct IH as [IH | (l1 & x & l2 & -> & H1 & Hx)].
      * left. constructor; assumption.
      * right. exists (a :: l1), x, l2. repeat split; auto.
Qed.

Lemma joined_ok x n m : reg_ok x -> reg_ok n -> joined x n m -> reg_ok m.
Proof. intros Hx Hn [[Hc ->] | [Hc ->]]; apply join_ok; assumption. Qed.

Lemma joined_disjoint x n m z :
  reg_ok z -> joined x n m -> disjoint n z -> disjoint x z -> disjoint m z.
Proof.
  intros Hz [[Hc ->] | [Hc ->]];
    unfold disjoint, apart, continues, join, reg_ok in *; simpl; lia.
Qed.

Lemma joined_touches x n m z :
  reg_ok z -> reg_ok x -> reg_ok n ->
  joined x n m -> touches m z -> touches n z \/ touches x z.
Proof.
  intros Hz Hx Hn [[Hc ->] | [Hc ->]];
    unfold touches, continues, join, reg_ok in *; simpl; lia.
Qed.

Lemma joined_touches_self x n m : joined x n m -> touches n x.
Proof. unfold joined, touches. tauto. Qed.

Lemma three_neighbours n x y z :
  reg_ok n -> reg_ok x -> reg_ok y -> reg_ok z ->
  disjoint x y -> disjoint x z -> disjoint y z ->
  touches n x -> touches n y -> touches n z -> False.
Proof.
  unfold reg_ok, disjoint, apart, touches, continues. lia.
Qed.

Lemma separate_or_touches a b : separate a b \/ touches a b.
Proof. unfold separate, touches, continues. lia. Qed.

Lemma assign_body_touch st x :
  reg_ok (running st) -> reg_ok x -> touches (running st) x ->
  exists m, joined x (running st) m /\
            Assign.body st x = Some (merge_into st m).
Proof.
  intros Hn Hx [Hc | Hc].
  - exists (join (running st) x). split.
    + right. auto.
    + apply assign_body_right; assumption.
  - exists (join x (running st)). split.
    + left. auto.
    + apply assign_body_left; assumption.
Qed.

Lemma merge_into_first l n m :
  merge_into (Assign.mkstate l None (guest_phys_addr n) (memory_size n)
                (userspace_addr n)) m
  = Assign.mkstate (l ++ [m]) (Some (length l))
      (guest_phys_addr m) (memory_size m) (userspace_addr m).
Proof. reflexivity. Qed.

Lemma merge_into_second l1 m1 l2 m :
  merge_into (Assign.mkstate (l1 ++ m1 :: l2) (Some (length l1))
                (guest_phys_addr m1) (memory_size m1) (userspace_addr m1)) m
  = Assign.mkstate (l1 ++ m :: l2) (Some (length l1))
      (guest_phys_addr m) (memory_size m) (userspace_addr m).
Proof. unfold merge_into. simpl. rewrite array_store_app. reflexivity. Qed.

Lemma running_mk l o n :
  running (Assign.mkstate l o (guest_phys_addr n) (memory_size n)
             (userspace_addr n)) = n.
Proof. destruct n. reflexivity. Qed.

Section AssignShape.
Variables (t : region_table) (n : vhost_memory_region).
Hypothesis Hok : table_ok t.
Hypothesis Hmm : merge_maximal t.
Hypothesis Hn : reg_ok n.
Hypothesis Hd : Forall (disjoint n) t.

Lemma table_regions_ok : forall z, In z t -> reg_ok z.
Proof. destruct Hok as [H _]. rewrite Forall_forall in H. exact H. Qed.

Lemma table_apart_new : forall z, In z t -> disjoint n z.
Proof. rewrite Forall_forall in Hd. exact Hd. Qed.

Lemma table_others : forall l1 x l2, t = l1 ++ x :: l2 ->
  forall z, In z (l1 ++ l2) -> disjoint x z /\ separate x z.
Proof.
  intros l1 x l2 E z Hz. destruct Hok as [_ Hno]. split.
  - apply (FOP_sym_in disjoint t disjoint_sym Hno l1 x l2 E z Hz).
  - apply (FOP_sym_in separate t separate_sym Hmm l1 x l2 E z Hz).
Qed.

Lemma assign_shape_run :
  match vhost_dev_assign_memory t (guest_phys_addr n) (memory_size n)
          (userspace_addr n) with
  | Some t' => assign_result t n t'
  | None => False
  end.
Proof.
  unfold vhost_dev_assign_memory, Assign.init.
  pose proof table_regions_ok as Hreg. pose proof table_apart_new as HdN.
  assert (Hsz : negb (memory_size n =? 0) = true)
    by (unfold reg_ok in Hn; lia).
  destruct (list_first (touchesb n) t) as [Hnone | (l1 & x & l2 & E & H1 & Hx)].
  - (* nothing to merge with *)
    rewrite assign_skip.
    + simpl. unfold Assign.finish. simpl. rewrite Hsz. simpl.
      replace (mkreg (guest_phys_addr n) (memory_size n) (userspace_addr n))
        with n by (destruct n; reflexivity).
      left. split; [|reflexivity].
      rewrite Forall_forall in *. intros z Hz. apply not_touchesb. auto.
    + rewrite running_mk. exact Hn.
    + rewrite running_mk. rewrite Forall_forall in *. intros z Hz.
      split; [|split]; auto; apply not_touchesb; auto.
  - (* a first neighbour [x] *)
    assert (Hin1 : forall z, In z l1 -> In z t)
      by (intros z Hz; rewrite E; apply in_or_app; auto).
    assert (Hinx : In x t)
      by (rewrite E; apply in_or_app; right; left; reflexivity).
    assert (Hin2 : forall z, In z l2 -> In z t)
      by (intros z Hz; rewrite E; apply in_or_app; right; right; auto).
    rewrite E. rewrite ofold_app, assign_skip; cycle 1.
    { rewrite running_mk. exact Hn. }
    { rewrite running_mk. rewrite Forall_forall in *. intros z Hz.
      split; [|split]; auto; apply not_touchesb; auto. }
    cbn [app Assign.kept Assign.merged Assign.start_addr Assign.size
           Assign.uaddr].
    rewrite ofold_cons.
    destruct (assign_body_touch
                (Assign.mkstate l1 None (guest_phys_addr n) (memory_size n)
                   (userspace_addr n)) x) as (m1 & Hj1 & ->).
    { rewrite running_mk. exact Hn. }
    { auto. }
    { rewrite running_mk. apply touchesb_spec. exact Hx. }
    rewrite running_mk in Hj1. rewrite merge_into_first.
    assert (Hm1 : reg_ok m1) by (apply (joined_ok x n); auto).
    assert (Hm1d : forall z, In z (l1 ++ l2) -> disjoint m1 z).
    { intros z Hz. apply (joined_disjoint x n); auto.
      - apply table_regions_ok. apply in_app_or in Hz. destruct Hz; auto.
      - apply table_apart_new. apply in_app_or in Hz. destruct Hz; auto.
      - apply (table_others l1 x l2 E z Hz). }
    destruct (list_first (touchesb m1) l2)
      as [Hnone | (l3 & y & l4 & E2 & H3 & Hy)].
    + (* no second neighbour *)
      rewrite assign_skip.
      * simpl. unfold Assign.finish. simpl.
        rewrite <- app_assoc. simpl.
        right. left. exists l1, x, l2, m1.
        do 3 (split; [first [reflexivity | assumption]|]).
        rewrite Forall_forall in *. intros z Hz.
        apply in_app_or in Hz. destruct Hz as [Hz|Hz].
        -- destruct (separate_or_touches m1 z) as [|Ht]; [assumption|].
           exfalso.
           destruct (joined_touches x n m1 z) as [Ht'|Ht']; auto.
           ++ apply touchesb_spec in Ht'. rewrite (H1 z Hz) in Ht'.
              discriminate.
           ++ destruct (table_others l1 x l2 E z) as [_ Hs].
              { apply in_or_app; auto. }
              unfold separate, touches in *. tauto.
        -- apply not_touchesb. auto.
      * rewrite running_mk. exact Hm1.
      * rewrite running_mk. rewrite Forall_forall in *. intros z Hz.
        split; [|split]; auto.
        -- apply Hm1d. apply in_or_app; auto.
        -- apply not_touchesb; auto.
    + (* a second neighbour [y] *)
      assert (Hin3 : forall z, In z l3 -> In z t)
        by (intros z Hz; apply Hin2; rewrite E2; apply in_or_app; auto).
      assert (Hiny : In y t)
        by (apply Hin2; rewrite E2; apply in_or_app; right; left; reflexivity).
      assert (Hin4 : forall z, In z l4 -> In z t)
        by (intros z Hz; apply Hin2; rewrite E2; apply in_or_app; right;
            right; auto).
      assert (Ey : t = (l1 ++ x :: l3) ++ y :: l4).
      { rewrite E, E2, <- app_assoc. reflexivity. }
      assert (Hxy : disjoint x y /\ separate x y).
      { apply (table_others l1 x l2 E). rewrite E2. apply in_or_app. right.
        apply in_or_app. right. left. reflexivity. }
      assert (Hny : touches n y).
      { destruct (joined_touches x n m1 y) as [Ht|Ht]; auto.
        - apply touchesb_spec. exact Hy.
        - exfalso. destruct Hxy as [_ Hs]. unfold separate, touches in *.
          tauto. }
      assert (Hnx : touches n x) by (apply (joined_touches_self x n m1 Hj1)).
      rewrite E2. rewrite ofold_app, assign_skip; cycle 1.
      { rewrite running_mk. exact Hm1. }
      { rewrite running_mk. rewrite Forall_forall in *. intros z Hz.
        split; [|split]; auto.
        - apply Hm1d. apply in_or_app. right. rewrite E2.
          apply in_or_app; auto.
        - apply not_touchesb; auto. }
      cbn [Assign.kept Assign.merged Assign.start_addr Assign.size
             Assign.uaddr].
      rewrite ofold_cons.
      destruct (assign_body_touch
                  (Assign.mkstate ((l1 ++ [m1]) ++ l3) (Some (length l1))
                     (guest_phys_addr m1) (memory_size m1)
                     (userspace_addr m1)) y) as (m2 & Hj2 & ->).
      { rewrite running_mk. exact Hm1. }
      { auto. }
      { rewrite running_mk. apply touchesb_spec. exact Hy. }
      rewrite running_mk in Hj2.
      replace ((l1 ++ [m1]) ++ l3) with (l1 ++ m1 :: l3)
        by (rewrite <- app_assoc; reflexivity).
      rewrite merge_into_second.
      assert (Hm2 : reg_ok m2) by (apply (joined_ok y m1); auto).
      assert (Hrest : forall z, In z (l1 ++ l3 ++ l4) ->
                reg_ok z /\ disjoint m2 z /\ separate m2 z).
      { intros z Hz.
        assert (Hzt : In z t).
        { apply in_app_or in Hz. destruct Hz as [Hz|Hz]; auto.
          apply in_app_or in Hz. destruct Hz; auto. }
        assert (Hzx : disjoint x z /\ separate x z).
        { apply (table_others l1 x l2 E). apply in_app_or in Hz.
          apply in_or_app. destruct Hz as [Hz|Hz]; auto. right.
          rewrite E2. apply in_app_or in Hz. apply in_or_app.
          destruct Hz; auto. right. right. assumption. }
        assert (Hzy : disjoint y z /\ separate y z).
        { apply (table_others (l1 ++ x :: l3) y l4 Ey). apply in_app_or in Hz.
          rewrite <- app_assoc. apply in_or_app.
          destruct Hz as [Hz|Hz]; auto. right. right. assumption. }
        split; [auto|]. split.
        - apply (joined_disjoint y m1); auto.
          + apply (joined_disjoint x n); auto. apply Hzx.
          + apply Hzy.
        - destruct (separate_or_touches m2 z) as [|Ht]; [assumption|].
          exfalso.
          destruct (joined_touches y m1 m2 z) as [Ht'|Ht']; auto.
          + destruct (joined_touches x n m1 z) as [Ht''|Ht'']; auto.
            * apply (three_neighbours n x y z); auto;
                first [apply Hxy | apply Hzx | apply Hzy].
            * destruct Hzx as [_ Hs]. unfold separate, touches in *. tauto.
          + destruct Hzy as [_ Hs]. unfold separate, touches in *. tauto. }
      rewrite assign_skip.
      * simpl. unfold Assign.finish. simpl.
        rewrite <- app_assoc. simpl.
        right. right.
        assert (Hshape : exists lo hi,
                   continues lo n /\ continues n hi /\
                   ((x = lo /\ y = hi) \/ (x = hi /\ y = lo)) /\
                   guest_phys_addr m2 = guest_phys_addr lo /\
                   memory_size m2 =
                     memory_size lo + memory_size n + memory_size hi /\
                   userspace_addr m2 = userspace_addr lo).
        { destruct Hxy as [Hdxy Hsxy].
          pose proof (table_regions_ok x Hinx) as Hrx. pose proof (table_regions_ok y Hiny) as Hry.
          destruct Hj1 as [[Hc1 ->] | [Hc1 ->]];
            destruct Hj2 as [[Hc2 ->] | [Hc2 ->]].
          - exfalso. destruct Hsxy as [_ Hs]. apply Hs. exact Hc2.
          - exists x, y. unfold continues, join in *; simpl in *.
            repeat split; auto; lia.
          - exists y, x. unfold continues, join in *; simpl in *.
            repeat split; auto; lia.
          - exfalso. destruct Hsxy as [Hs _]. apply Hs.
            clear - Hc1 Hc2. unfold continues, join in *. simpl in *. lia. }
        destruct Hshape as (lo & hi & Hs1 & Hs2 & Hs3 & Hs4 & Hs5 & Hs6).
        exists l1, x, l3, y, l4, lo, hi, m2.
        do 8 (split; [first [reflexivity | assumption]|]).
        rewrite Forall_forall. intros z Hz. apply Hrest. exact Hz.
      * rewrite running_mk. exact Hm2.
      * rewrite running_mk. rewrite Forall_forall. intros z Hz.
        apply Hrest. apply in_or_app. right. apply in_or_app. auto.
Qed.

Lemma assign_shape :
  exists t',
    vhost_dev_assign_memory t (guest_phys_addr n) (memory_size n)
      (userspace_addr n) = Some t' /\
    assign_result t n t'.
Proof.
  pose proof assign_shape_run as H.
  destruct (vhost_dev_assign_memory t (guest_phys_addr n) (memory_size n)
              (userspace_addr n)) as [t'|]; [|contradiction].
  exists t'. auto.
Qed.

End AssignShape.

(** ** Assign keeps the invariants *)

Lemma FOP_replace {A} (R : A -> A -> Prop) l1 x l2 m :
  (forall a b, R a b -> R b a) ->
  ForallOrdPairs R (l1 ++ x :: l2) ->
  (forall z, In z (l1 ++ l2) -> R m z) ->
  ForallOrdPairs R (l1 ++ m :: l2).
Proof.
  intros Hsym H Hm. apply FOP_app in H. destruct H as (H1 & H2 & H12).
  inversion H2 as [|? ? Hx H2']; subst.
  apply FOP_app. repeat split; auto.
  - constructor; auto. rewrite Forall_forall. intros z Hz. apply Hm.
    apply in_or_app. auto.
  - intros a b Ha [<-|Hb].
    + apply Hsym. apply Hm. apply in_or_app. auto.
    + apply H12; auto. right. auto.
Qed.

Lemma FOP_remove {A} (R : A -> A -> Prop) l1 y l2 :
  ForallOrdPairs R (l1 ++ y :: l2) -> ForallOrdPairs R (l1 ++ l2).
Proof.
  intros H. apply FOP_app in H. destruct H as (H1 & H2 & H12).
  inversion H2; subst. apply FOP_app. repeat split; auto.
  intros a b Ha Hb. apply H12; auto. right. auto.
Qed.

Lemma FOP_snoc {A} (R : A -> A -> Prop) l n :
  ForallOrdPairs R l -> (forall z, In z l -> R z n) ->
  ForallOrdPairs R (l ++ [n]).
Proof.
  intros H Hn. apply FOP_app. repeat split; auto.
  - constructor; constructor.
  - intros a b Ha [<-|[]]. auto.
Qed.

Lemma Forall_replace {A} (P : A -> Prop) l1 x l2 m :
  Forall P (l1 ++ x :: l2) -> P m -> Forall P (l1 ++ m :: l2).
Proof.
  rewrite !Forall_app. intros [H1 H2] Hm. inversion H2; subst.
  split; auto.
Qed.

Lemma Forall_remove {A} (P : A -> Prop) l1 x l2 :
  Forall P (l1 ++ x :: l2) -> Forall P (l1 ++ l2).
Proof.
  rewrite !Forall_app. intros [H1 H2]. inversion H2; subst. auto.
Qed.

Lemma triple_ok lo n hi m :
  reg_ok lo -> reg_ok n -> reg_ok hi ->
  continues lo n -> continues n hi ->
  guest_phys_addr m = guest_phys_addr lo ->
  memory_size m = memory_size lo + memory_size n + memory_size hi ->
  userspace_addr m = userspace_addr lo ->
  reg_ok m.
Proof. unfold reg_ok, continues. lia. Qed.

Lemma triple_disjoint lo n hi m z :
  reg_ok z -> reg_ok lo -> reg_ok n -> reg_ok hi ->
  continues lo n -> continues n hi ->
  guest_phys_addr m = guest_phys_addr lo ->
  memory_size m = memory_size lo + memory_size n + memory_size hi ->
  disjoint lo z -> disjoint n z -> disjoint hi z -> disjoint m z.
Proof. unfold reg_ok, continues, disjoint, apart. lia. Qed.

Lemma assign_result_inv t n t' :
  rt_inv t -> reg_ok n -> Forall (disjoint n) t ->
  assign_result t n t' -> rt_inv t'.
Proof.
  intros [[Hall Hno] Hmm] Hn Hd
    [[Hsep ->] |
     [(l1 & x & l2 & m & -> & -> & Hj & Hsep) |
      (l1 & x & l2 & y & l3 & lo & hi & m & -> & -> & Hlo & Hhi & Hxy &
       Hg & Hs & Hu & Hsep)]].
  - (* appended *)
    repeat split.
    + apply Forall_app. split; auto.
    + apply FOP_snoc; auto. rewrite Forall_forall in Hd.
      intros z Hz. apply disjoint_sym. auto.
    + apply FOP_snoc; auto. rewrite Forall_forall in Hsep.
      intros z Hz. apply separate_sym. auto.
  - (* one neighbour widened *)
    assert (Hx : reg_ok x).
    { rewrite Forall_forall in Hall. apply Hall. apply in_or_app.
      right. left. reflexivity. }
    repeat split.
    + apply (Forall_replace _ l1 x l2 m); auto. apply (joined_ok x n); auto.
    + apply (FOP_replace _ l1 x l2 m disjoint_sym); auto.
      intros z Hz. apply (joined_disjoint x n); auto.
      * apply Forall_remove in Hall. rewrite Forall_forall in Hall. auto.
      * apply Forall_remove in Hd. rewrite Forall_forall in Hd. auto.
      * apply (FOP_sym_in disjoint _ disjoint_sym Hno l1 x l2 eq_refl z Hz).
    + apply (FOP_replace _ l1 x l2 m separate_sym); auto.
      rewrite Forall_forall in Hsep. auto.
  - (* two neighbours joined *)
    set (t := l1 ++ x :: l2 ++ y :: l3) in *.
    assert (Et : t = (l1 ++ x :: l2) ++ y :: l3)
      by (unfold t; rewrite <- app_assoc; reflexivity).
    assert (Hinx : In x t)
      by (apply in_or_app; right; left; reflexivity).
    assert (Hiny : In y t).
    { rewrite Et. apply in_or_app. right. left. reflexivity. }
    assert (Hin : forall z, In z (l1 ++ l2 ++ l3) -> In z t).
    { intros z Hz. unfold t. apply in_app_or in Hz. apply in_or_app.
      destruct Hz as [Hz|Hz]; auto. right. right.
      apply in_app_or in Hz. apply in_or_app. destruct Hz; auto.
      right. right. assumption. }
    assert (Hreg : forall z, In z t -> reg_ok z)
      by (rewrite Forall_forall in Hall; exact Hall).
    assert (Hlo' : reg_ok lo /\ In lo t)
      by (destruct Hxy as [[<- _]|[_ <-]]; auto).
    assert (Hhi' : reg_ok hi /\ In hi t)
      by (destruct Hxy as [[_ <-]|[<- _]]; auto).
    assert (Hzx : forall z, In z (l1 ++ l2 ++ l3) -> disjoint x z).
    { intros z Hz.
      apply (FOP_sym_in disjoint _ disjoint_sym Hno l1 x (l2 ++ y :: l3)
               eq_refl).
      apply in_app_or in Hz. apply in_or_app. destruct Hz as [Hz|Hz]; auto.
      right. apply in_app_or in Hz. apply in_or_app.
      destruct Hz; auto. right. right. assumption. }
    assert (Hzy : forall z, In z (l1 ++ l2 ++ l3) -> disjoint y z).
    { intros z Hz.
      apply (FOP_sym_in disjoint _ disjoint_sym Hno (l1 ++ x :: l2) y l3 Et).
      rewrite <- app_assoc. apply in_app_or in Hz. apply in_or_app.
      destruct Hz as [Hz|Hz]; auto. right. right. assumption. }
    assert (Hfinal : l1 ++ m :: l2 ++ l3 = l1 ++ m :: (l2 ++ l3))
      by reflexivity.
    assert (Hcut : forall (P : vhost_memory_region -> Prop),
               Forall P t -> Forall P (l1 ++ x :: l2 ++ l3)).
    { intros P HP. rewrite Et in HP. apply Forall_remove in HP.
      rewrite <- app_assoc in HP. exact HP. }
    assert (Hcut2 : forall (R : vhost_memory_region -> _ -> Prop),
               ForallOrdPairs R t -> ForallOrdPairs R (l1 ++ x :: l2 ++ l3)).
    { intros R HR. rewrite Et in HR. apply FOP_remove in HR.
      rewrite <- app_assoc in HR. exact HR. }
    repeat split.
    + apply (Forall_replace _ l1 x (l2 ++ l3) m); auto.
      apply (triple_ok lo n hi); tauto.
    + apply (FOP_replace _ l1 x (l2 ++ l3) m disjoint_sym); auto.
      intros z Hz.
      apply (triple_disjoint lo n hi); try tauto; auto.
      * destruct Hxy as [[<- _]|[_ <-]]; auto.
      * rewrite Forall_forall in Hd. auto.
      * destruct Hxy as [[_ <-]|[<- _]]; auto.
    + apply (FOP_replace _ l1 x (l2 ++ l3) m separate_sym); auto.
      rewrite Forall_forall in Hsep. auto.
Qed.

(** ** Runs of operations *)

Lemma rt_inv_nil : rt_inv [].
Proof. repeat split; constructor. Qed.

Lemma unassign_inv g s t :
  range_ok g s -> rt_inv t ->
  exists t',
    vhost_dev_unassign_memory t g s = Some t' /\ rt_inv t' /\
    Forall (apart g s) t'.
Proof.
  intros Hg [Hok Hmm].
  pose proof (range_ok_wf g s Hg) as Hg'.
  pose proof (table_ok_wf t Hok) as Hok'.
  rewrite (unassign_exact g s t Hg' Hok').
  eexists. split; [reflexivity|]. split; [split|].
  - apply (unassign_table_ok g s t Hg Hok).
  - apply (unassign_merge_maximal g s t Hg' Hok' Hmm).
  - apply (unassign_apart g s t Hg' Hok').
Qed.

Lemma assign_inv g s h t :
  reg_ok (mkreg g s h) -> rt_inv t -> Forall (apart g s) t ->
  exists t',
    vhost_dev_assign_memory t g s h = Some t' /\ rt_inv t' /\
    assign_result t (mkreg g s h) t'.
Proof.
  intros Hn Hinv Hd.
  destruct (assign_shape t (mkreg g s h)) as (t' & Hrun & Hres);
    try tauto; auto.
  - destruct Hinv. assumption.
  - destruct Hinv. assumption.
  - exists t'. split; [exact Hrun|]. split; [|exact Hres].
    apply (assign_result_inv t (mkreg g s h)); auto.
Qed.

Lemma run_ops_inv ops :
  forall prev t,
  rt_inv t ->
  (forall g s, prev = Some (g, s) -> Forall (apart g s) t) ->
  guarded prev ops ->
  exists t', run_ops ops t = Some t' /\ rt_inv t'.
Proof.
  induction ops as [|op ops IH]; intros prev t Hinv Hprev Hgd.
  - exists t. auto.
  - destruct op as [g s | g s h]; simpl in *.
    + destruct Hgd as [Hg Hgd].
      destruct (unassign_inv g s t Hg Hinv) as (t1 & -> & Hinv1 & Hap).
      simpl. apply (IH (Some (g, s))); auto.
      intros g' s' E. inversion E; subst. exact Hap.
    + destruct Hgd as (Hp & Hn & Hgd).
      destruct (assign_inv g s h t Hn Hinv (Hprev g s Hp))
        as (t1 & -> & Hinv1 & _).
      simpl. apply (IH None); auto. intros g' s' E. discriminate.
Qed.

Lemma reg_eq (a b : vhost_memory_region) :
  guest_phys_addr a = guest_phys_addr b ->
  memory_size a = memory_size b ->
  userspace_addr a = userspace_addr b -> a = b.
Proof. destruct a, b. simpl. intros -> -> ->. reflexivity. Qed.

Lemma cut_whole n :
  reg_ok n ->
  cut_keep (guest_phys_addr n) (memory_size n) n = [] /\
  cut_spill (guest_phys_addr n) (memory_size n) n = [].
Proof.
  intros Hn. unfold cut_keep, cut_spill, classify, reg_end, reg_ok in *.
  run_ifs. auto.
Qed.

Lemma cut_joined x n m :
  reg_ok x -> reg_ok n -> joined x n m ->
  cut_keep (guest_phys_addr n) (memory_size n) m = [x] /\
  cut_spill (guest_phys_addr n) (memory_size n) m = [].
Proof.
  intros Hx Hn [[Hc ->] | [Hc ->]];
    unfold cut_keep, cut_spill, classify, reg_end, reg_ok, continues, join in *;
    simpl; run_ifs; (split; [|reflexivity]); f_equal;
    apply reg_eq; unfold low_part, high_part, reg_end; simpl; lia.
Qed.

Lemma cut_triple lo n hi m :
  reg_ok lo -> reg_ok n -> reg_ok hi ->
  continues lo n -> continues n hi ->
  guest_phys_addr m = guest_phys_addr lo ->
  memory_size m = memory_size lo + memory_size n + memory_size hi ->
  userspace_addr m = userspace_addr lo ->
  cut_keep (guest_phys_addr n) (memory_size n) m = [lo] /\
  cut_spill (guest_phys_addr n) (memory_size n) m = [hi].
Proof.
  intros Hlo Hn Hhi Hc1 Hc2 Hg Hs Hu.
  unfold cut_keep, cut_spill, classify, reg_end, reg_ok, continues in *.
  run_ifs. split; f_equal; apply reg_eq;
    unfold low_part, high_part, reg_end; simpl; lia.
Qed.

Lemma perm_two {A} (l1 l2 l3 : list A) a b :
  Permutation (l1 ++ a :: l2 ++ b :: l3) (a :: b :: l1 ++ l2 ++ l3).
Proof.
  apply Permutation_sym.
  apply Permutation_trans with (a :: l1 ++ l2 ++ b :: l3).
  - apply perm_skip. rewrite !app_assoc. apply Permutation_middle.
  - apply Permutation_middle.
Qed.

Lemma perm_one_end {A} (l1 l2 l3 : list A) a b :
  Permutation ((l1 ++ a :: l2 ++ l3) ++ [b]) (a :: b :: l1 ++ l2 ++ l3).
Proof.
  apply Permutation_trans with (b :: l1 ++ a :: l2 ++ l3).
  - apply Permutation_sym. apply Permutation_cons_append.
  - apply Permutation_trans with (b :: a :: l1 ++ l2 ++ l3).
    + apply perm_skip. apply Permutation_sym. apply Permutation_middle.
    + apply perm_swap.
Qed.

Lemma flat_map_cons_app {A B} (f : A -> list B) l1 x l2 :
  flat_map f (l1 ++ x :: l2) = flat_map f l1 ++ f x ++ flat_map f l2.
Proof. rewrite flat_map_app. reflexivity. Qed.

(** ** Properties of the region table *)

Ltac concrete :=
  repeat first
    [ progress cbn [guest_phys_addr memory_size userspace_addr]
    | lia | split | constructor ].

(** C2: after any sequence of unassign and assign operations in which
    every assign directly follows an unassign of the same range (ranges of
    nonzero size, clear of the top of the 64-bit space), started from a
    table that satisfies the invariants (the empty table of a new device
    does), the run completes without a failed assertion, no two regions
    of the resulting table overlap in guest addresses, and every region
    has nonzero size. *)
Theorem regions_never_overlap (ops : list rt_op) (t0 : region_table) :
  rt_inv t0 -> guarded None ops ->
  exists t,
    run_ops ops t0 = Some t /\ non_overlapping t /\
    Forall (fun r => memory_size r <> 0) t.
Proof.
  intros Hinv Hgd.
  destruct (run_ops_inv ops None t0 Hinv) as (t & Hrun & [[Hall Hno] _]);
    auto.
  - intros g s E. discriminate.
  - exists t. repeat split; auto.
    eapply Forall_impl; [|exact Hall]. unfold reg_ok. intros r Hr. lia.
Qed.

Lemma regions_never_overlap_witness :
  exists t,
    run_ops [Unassign 0 4096; Assign 0 4096 1879048192;
             Unassign 4096 4096; Assign 4096 4096 1879052288;
             Unassign 2048 1024] [] = Some t /\
    non_overlapping t /\ Forall (fun r => memory_size r <> 0) t.
Proof.
  apply (regions_never_overlap _ []).
  - exact rt_inv_nil.
  - unfold guarded, range_ok, reg_ok, U64; simpl. repeat split; lia.
Defined.

(** C6: after any such sequence no two regions of the table are adjacent
    in both guest and host addresses: the table is merge-maximal. *)
Theorem regions_merge_maximal (ops : list rt_op) (t0 : region_table) :
  rt_inv t0 -> guarded None ops ->
  exists t, run_ops ops t0 = Some t /\ merge_maximal t.
Proof.
  intros Hinv Hgd.
  destruct (run_ops_inv ops None t0 Hinv) as (t & Hrun & [_ Hmm]); auto.
  - intros g s E. discriminate.
  - exists t. auto.
Qed.

Lemma regions_merge_maximal_witness :
  exists t,
    run_ops [Unassign 0 4096; Assign 0 4096 1879048192;
             Unassign 8192 4096; Assign 8192 4096 1879056384;
             Unassign 4096 4096; Assign 4096 4096 1879052288] []
    = Some t /\ merge_maximal t.
Proof.
  apply (regions_merge_maximal _ []).
  - exact rt_inv_nil.
  - unfold guarded, range_ok, reg_ok, U64; simpl. repeat split; lia.
Defined.

Lemma round_trip_cut (t t1 : region_table) (n : vhost_memory_region) :
  table_ok t -> reg_ok n -> Forall (disjoint n) t ->
  assign_result t n t1 ->
  Permutation (unassign_result (guest_phys_addr n) (memory_size n) t1) t.
Proof.
  intros [Hall _] Hn Hap Hres. unfold disjoint in Hap.
  unfold unassign_result.
  destruct Hres as
    [[Hsep ->] |
     [(l1 & x & l2 & m & -> & -> & Hj & Hsep) |
      (l1 & x & l2 & y & l3 & lo & hi & m & -> & -> & Hlo & Hhi & Hxy &
       Hmg & Hms & Hmu & Hsep)]].
  - rewrite !flat_map_app. simpl.
    destruct (cut_all_apart _ _ t Hap) as [-> ->].
    destruct (cut_whole n Hn) as [-> ->]. simpl. rewrite !app_nil_r.
    apply Permutation_refl.
  - rewrite !flat_map_cons_app.
    apply Forall_app in Hap. destruct Hap as [Hap1 Hap2].
    inversion Hap2 as [|? ? _ Hap2']; subst.
    destruct (cut_all_apart _ _ l1 Hap1) as [-> ->].
    destruct (cut_all_apart _ _ l2 Hap2') as [-> ->].
    assert (Hx : reg_ok x).
    { rewrite Forall_forall in Hall. apply Hall. apply in_or_app.
      right. left. reflexivity. }
    destruct (cut_joined x n m Hx Hn Hj) as [-> ->]. simpl.
    rewrite app_nil_r. apply Permutation_refl.
  - rewrite !flat_map_cons_app, !flat_map_app.
    assert (Hx : reg_ok x).
    { rewrite Forall_forall in Hall. apply Hall. apply in_or_app.
      right. left. reflexivity. }
    assert (Hy : reg_ok y).
    { rewrite Forall_forall in Hall. apply Hall. apply in_or_app.
      right. right. apply in_or_app. right. left. reflexivity. }
    apply Forall_app in Hap. destruct Hap as [Hap1 Hap2].
    inversion Hap2 as [|? ? _ Hap2']; subst.
    apply Forall_app in Hap2'. destruct Hap2' as [Hap2' Hap3].
    inversion Hap3 as [|? ? _ Hap3']; subst.
    destruct (cut_all_apart _ _ l1 Hap1) as [-> ->].
    destruct (cut_all_apart _ _ l2 Hap2') as [-> ->].
    destruct (cut_all_apart _ _ l3 Hap3') as [-> ->].
    assert (Hrlo : reg_ok lo) by (destruct Hxy as [[<- _]|[_ <-]]; auto).
    assert (Hrhi : reg_ok hi) by (destruct Hxy as [[_ <-]|[<- _]]; auto).
    destruct (cut_triple lo n hi m Hrlo Hn Hrhi Hlo Hhi Hmg Hms Hmu)
      as [-> ->].
    simpl.
    apply Permutation_trans with (lo :: hi :: l1 ++ l2 ++ l3).
    + apply perm_one_end.
    + apply Permutation_sym. destruct Hxy as [[-> ->] | [-> ->]].
      * apply perm_two.
      * apply Permutation_trans with (hi :: lo :: l1 ++ l2 ++ l3).
        -- apply perm_two.
        -- apply perm_swap.
Qed.

(** C7: on a table that satisfies its invariants, for a range that
    overlaps no region of it, assign followed by unassign of the range
    gives back the table it started from, as a set of regions. *)
Theorem assign_unassign_round_trip (t : region_table) (g s h : Z) :
  rt_inv t -> reg_ok (mkreg g s h) -> Forall (apart g s) t ->
  exists t1 t2,
    vhost_dev_assign_memory t g s h = Some t1 /\
    vhost_dev_unassign_memory t1 g s = Some t2 /\
    Permutation t2 t.
Proof.
  intros Hinv Hn Hap.
  assert (Hg : range_ok g s) by (unfold reg_ok, range_ok in *; simpl in *; lia).
  destruct (assign_inv g s h t Hn Hinv Hap) as (t1 & Hrun & [Hok1 _] & Hres).
  exists t1.
  rewrite (unassign_exact g s t1 (range_ok_wf g s Hg) (table_ok_wf t1 Hok1)).
  eexists. split; [exact Hrun|]. split; [reflexivity|].
  destruct Hinv as [Hok _].
  apply (round_trip_cut t t1 (mkreg g s h) Hok Hn Hap Hres).
Qed.

Lemma assign_unassign_round_trip_witness :
  exists t1 t2,
    vhost_dev_assign_memory
      [mkreg 8192 4096 1879056384; mkreg 0 4096 1879048192]
      4096 4096 1879052288 = Some t1 /\
    vhost_dev_unassign_memory t1 4096 4096 = Some t2 /\
    Permutation t2 [mkreg 8192 4096 1879056384; mkreg 0 4096 1879048192].
Proof.
  apply assign_unassign_round_trip.
  - unfold rt_inv, table_ok, non_overlapping, merge_maximal, reg_ok, disjoint,
      apart, separate, continues, U64; simpl.
    concrete.
  - unfold reg_ok, U64; simpl. lia.
  - unfold apart. concrete.
Defined.

(** C8: on a table without overlaps, for a range of nonzero size that
    does not wrap around, a second unassign of the same range leaves the
    table exactly as the first one left it. *)
Theorem unassign_twice (t : region_table) (g s : Z) :
  table_wf t -> range_wf g s ->
  exists t1,
    vhost_dev_unassign_memory t g s = Some t1 /\
    vhost_dev_unassign_memory t1 g s = Some t1.
Proof.
  intros Hok Hg. rewrite (unassign_exact g s t Hg Hok).
  eexists. split; [reflexivity|].
  rewrite unassign_exact; auto.
  - unfold unassign_result at 1.
    destruct (cut_all_apart g s _ (unassign_apart g s t Hg Hok)) as [-> ->].
    rewrite app_nil_r. reflexivity.
  - apply (unassign_table_wf g s t Hg Hok).
Qed.

Lemma unassign_twice_witness :
  exists t1,
    vhost_dev_unassign_memory [mkreg 0 65536 2147483648] 16384 16384
    = Some t1 /\
    vhost_dev_unassign_memory t1 16384 16384 = Some t1.
Proof.
  apply unassign_twice.
  - unfold table_wf, non_overlapping, reg_wf, U64; simpl.
    concrete.
  - unfold range_wf, U64. lia.
Defined.

(** ** Size of the log *)

Section LogFacts.
Context {G : LogGeometry}.

Lemma VHOST_LOG_BITS_range : 8 <= VHOST_LOG_BITS <= 64.
Proof.
  unfold VHOST_LOG_BITS. pose proof sizeof_log_chunk_range. lia.
Qed.

Lemma VHOST_LOG_CHUNK_range : 8 <= VHOST_LOG_CHUNK.
Proof.
  unfold VHOST_LOG_CHUNK. pose proof VHOST_LOG_BITS_range.
  pose proof VHOST_LOG_PAGE_range. nia.
Qed.

Lemma chunks_upto_small (last : Z) :
  0 <= last < U64 -> u64 (last / VHOST_LOG_CHUNK + 1) = chunks_upto last.
Proof.
  intros H. unfold chunks_upto. apply u64_small.
  pose proof VHOST_LOG_CHUNK_range as Hc.
  assert (0 <= last / VHOST_LOG_CHUNK) by (apply Z.div_pos; lia).
  assert (last / VHOST_LOG_CHUNK <= last / 8).
  { apply Z.div_le_compat_l; lia. }
  assert (last / 8 <= U64 / 8) by (apply Z.div_le_mono; lia).
  change (U64 / 8) with 2305843009213693952 in *. unfold U64. lia.
Qed.

Lemma chunks_upto_pos (last : Z) : 0 <= last -> 0 < chunks_upto last.
Proof.
  intros H. unfold chunks_upto. pose proof VHOST_LOG_CHUNK_range.
  assert (0 <= last / VHOST_LOG_CHUNK) by (apply Z.div_pos; lia). lia.
Qed.

Lemma used_last_eq (vq : vhost_virtqueue) :
  u64 (u64 (used_phys vq + used_size vq) - 1)
  = range_get_last (used_phys vq) (used_size vq).
Proof.
  unfold range_get_last, u64. rewrite Zminus_mod_idemp_l. reflexivity.
Qed.

Lemma fold_MAX {A} (f : A -> Z) (l : list A) (a : Z) :
  0 <= a ->
  fold_left (fun acc x => MAX acc (f x)) l a = Z.max a (max_of (map f l)).
Proof.
  revert a. induction l as [|x l IH]; intros a Ha; simpl.
  - unfold max_of. simpl. lia.
  - rewrite IH by (rewrite MAX_spec; lia).
    rewrite MAX_spec. unfold max_of. simpl. lia.
Qed.

Lemma max_of_nonneg (l : list Z) : 0 <= max_of l.
Proof. induction l; simpl; unfold max_of in *; simpl; lia. Qed.

Lemma max_of_app (l1 l2 : list Z) :
  max_of (l1 ++ l2) = Z.max (max_of l1) (max_of l2).
Proof.
  induction l1 as [|x l1 IH]; simpl.
  - pose proof (max_of_nonneg l2). unfold max_of in *. simpl. lia.
  - unfold max_of in *. simpl. rewrite IH. lia.
Qed.

Lemma max_of_upper (l : list Z) (x : Z) : In x l -> x <= max_of l.
Proof.
  induction l as [|y l IH]; simpl; [contradiction|].
  unfold max_of in *. simpl. intros [->|H]; [lia|]. specialize (IH H). lia.
Qed.

Lemma max_of_attained (l : list Z) :
  Forall (fun x => 0 <= x) l -> l <> [] -> In (max_of l) l.
Proof.
  induction l as [|y l IH]; intros Hl Hne; [congruence|].
  inversion Hl as [|? ? Hy Hl']; subst.
  unfold max_of in *. simpl.
  destruct l as [|z l].
  - simpl. left. lia.
  - destruct (Z.max_spec y (fold_right Z.max 0 (z :: l))) as [[_ ->]|[_ ->]].
    + right. apply IH; [assumption | discriminate].
    + left. reflexivity.
Qed.

Lemma range_last_bounds (r : Z * Z) (dev : vhost_dev) :
  In r (logged_ranges dev) -> 0 <= snd r < U64.
Proof.
  unfold logged_ranges. intros H. apply in_app_or in H.
  destruct H as [H|H]; apply in_map_iff in H; destruct H as (x & <- & _);
    simpl; apply u64_range.
Qed.

(** The loops of [vhost_get_log_size] compute the largest
    [last / VHOST_LOG_CHUNK + 1] over the logged ranges. *)
Lemma vhost_get_log_size_max (dev : vhost_dev) :
  vhost_get_log_size dev
  = max_of (map (fun r => chunks_upto (snd r)) (logged_ranges dev)).
Proof.
  unfold vhost_get_log_size, logged_ranges.
  rewrite map_app, max_of_app, !map_map.
  rewrite (fold_MAX (fun reg => u64 (range_get_last (guest_phys_addr reg)
                                       (memory_size reg)
                                     / VHOST_LOG_CHUNK + 1))) by lia.
  rewrite (Z.max_r 0) by apply max_of_nonneg.
  rewrite (fold_MAX (fun vq => u64 (u64 (u64 (used_phys vq + used_size vq) - 1)
                                      / VHOST_LOG_CHUNK + 1)))
    by apply max_of_nonneg.
  f_equal; f_equal; apply map_ext; intros x; simpl.
  - apply chunks_upto_small. apply u64_range.
  - rewrite used_last_eq. apply chunks_upto_small. apply u64_range.
Qed.

End LogFacts.

(** ** Properties of the dirty log *)

(** C4 (amended): the log size is the maximum, over all regions and all
    used rings, of [floor(last_byte / CHUNK) + 1], and zero when there is
    neither a region nor a virtqueue. *)
Theorem log_size_is_max_floor {G : LogGeometry} (dev : vhost_dev) :
  (forall r, In r (logged_ranges dev) ->
     snd r / VHOST_LOG_CHUNK + 1 <= vhost_get_log_size dev) /\
  (logged_ranges dev = [] -> vhost_get_log_size dev = 0) /\
  (logged_ranges dev <> [] ->
     exists r, In r (logged_ranges dev) /\
       vhost_get_log_size dev = snd r / VHOST_LOG_CHUNK + 1).
Proof.
  rewrite vhost_get_log_size_max. repeat split.
  - intros r Hr. apply max_of_upper.
    apply (in_map (fun r => chunks_upto (snd r))) in Hr. exact Hr.
  - intros ->. reflexivity.
  - intros Hne.
    assert (Hin : In (max_of (map (fun r => chunks_upto (snd r))
                                (logged_ranges dev)))
                    (map (fun r => chunks_upto (snd r)) (logged_ranges dev))).
    { apply max_of_attained.
      - rewrite Forall_forall. intros x Hx. apply in_map_iff in Hx.
        destruct Hx as (r & <- & Hr).
        apply Z.lt_le_incl, chunks_upto_pos.
        apply (range_last_bounds r dev Hr).
      - destruct (logged_ranges dev); [congruence | discriminate]. }
    apply in_map_iff in Hin. destruct Hin as (r & Hr & Hin).
    exists r. split; [exact Hin | symmetry; exact Hr].
Qed.

(** C4 with the quotient rounded up fails: for a single 4 KiB region at
    guest address 0 the code sizes the log at one word, the formula with
    [ceil] gives two. *)
Lemma log_size_is_not_max_ceil :
  @vhost_get_log_size lp64 example_small_dev = 1 /\
  @ceil_log_chunks lp64 example_small_dev = 2 /\
  @vhost_get_log_size lp64 example_small_dev
  <> @ceil_log_chunks lp64 example_small_dev.
Proof. split; [reflexivity|]. split; [reflexivity|]. vm_compute. discriminate. Qed.

Section SyncFacts.
Context {G : LogGeometry}.

Lemma ffs_from_spec (n : nat) :
  forall i x, 0 <= i ->
  (ffs_from n i x = 0 /\
   forall j, i <= j < i + Z.of_nat n -> Z.testbit x j = false) \/
  (i < ffs_from n i x <= i + Z.of_nat n /\
   Z.testbit x (ffs_from n i x - 1) = true /\
   forall j, i <= j < ffs_from n i x - 1 -> Z.testbit x j = false).
Proof.
  induction n as [|n IH]; intros i x Hi; simpl ffs_from.
  - left. split; [reflexivity|]. intros j Hj. lia.
  - destruct (Z.testbit x i) eqn:Hb.
    + right. replace (i + 1 - 1) with i by lia.
      split; [lia|]. split; [exact Hb|]. intros j Hj. lia.
    + destruct (IH (i + 1) x) as [[H0 Hall] | (Hr & Hbit & Hall)]; [lia| |].
      * left. split; [exact H0|]. intros j Hj.
        destruct (Z.eq_dec j i) as [->|]; [exact Hb|]. apply Hall. lia.
      * right. split; [lia|]. split; [exact Hbit|]. intros j Hj.
        destruct (Z.eq_dec j i) as [->|]; [exact Hb|]. apply Hall. lia.
Qed.

Lemma clear_bit_spec (x b j : Z) :
  0 <= j <= b -> b < 64 ->
  Z.testbit (Z.land x (u64 (Z.lnot (Z.shiftl 1 b)))) j
  = if j =? b then false else Z.testbit x j.
Proof.
  intros Hj Hb. rewrite Z.land_spec. unfold u64.
  change U64 with (2 ^ 64).
  rewrite Z.mod_pow2_bits_low by lia.
  rewrite Z.lnot_spec by lia. rewrite Z.shiftl_spec by lia.
  destruct (Z.eqb_spec j b) as [->|Hne].
  - rewrite Z.sub_diag. simpl. apply andb_false_r.
  - rewrite (Z.testbit_neg_r 1 (j - b)) by lia. simpl. apply andb_true_r.
Qed.

(** The inner loop ends: every round clears the lowest set bit. *)
Lemma harvest_terminates (section : MemoryRegionSection) (fuel : nat) :
  forall k x,
  0 <= k <= VHOST_LOG_BITS ->
  (forall j, 0 <= j < k -> Z.testbit x j = false) ->
  VHOST_LOG_BITS - k < Z.of_nat fuel ->
  exists evs,
    harvest fuel section x = Some evs /\ log_indices evs = [].
Proof.
  pose proof VHOST_LOG_BITS_range as HB.
  induction fuel as [|fuel IH]; intros k x Hk Hlow Hfuel; [lia|].
  simpl harvest. unfold ffs.
  destruct (ffs_from_spec (Z.to_nat VHOST_LOG_BITS) 0 x) as
    [[-> _] | (Hr & Hbit & Hall)]; [lia | |].
  - simpl. exists []. auto.
  - rewrite Z2Nat.id in Hr by lia.
    set (b := ffs_from (Z.to_nat VHOST_LOG_BITS) 0 x - 1) in *.
    replace (ffs_from (Z.to_nat VHOST_LOG_BITS) 0 x =? 0) with false by lia.
    assert (Hbk : k <= b).
    { destruct (Z.le_gt_cases k b); [assumption|].
      rewrite Hlow in Hbit by lia. discriminate. }
    destruct (IH (b + 1) (Z.land x (u64 (Z.lnot (Z.shiftl 1 b)))))
      as (evs & -> & Hevs).
    + lia.
    + intros j Hj. rewrite clear_bit_spec by lia.
      destruct (Z.eqb_spec j b); [reflexivity|]. apply Hall. lia.
    + lia.
    + simpl. eexists. split; [reflexivity|]. simpl. exact Hevs.
Qed.

Lemma log_indices_app (a b : list event) :
  log_indices (a ++ b) = log_indices a ++ log_indices b.
Proof. unfold log_indices. apply flat_map_app. Qed.

(** The outer loop ends and touches the words [from .. from + count). *)
Lemma sync_chunks_ok (section : MemoryRegionSection) (count : nat) :
  forall from addr lg,
  exists lg' evs,
    sync_chunks count section from addr lg = Some (lg', evs) /\
    forall i, In i (log_indices evs) -> from <= i < from + Z.of_nat count.
Proof.
  induction count as [|count IH]; intros from addr lg.
  - exists lg, []. split; [reflexivity|]. intros i [].
  - cbn [sync_chunks].
    destruct (nth (Z.to_nat from) lg 0 =? 0).
    + destruct (IH (from + 1) (u64 (addr + VHOST_LOG_CHUNK)) lg)
        as (lg' & evs & -> & Hevs).
      simpl. eexists _, _. split; [reflexivity|].
      intros i [<-|Hi]; [lia|]. specialize (Hevs i Hi). lia.
    + destruct (harvest_terminates section (S (Z.to_nat VHOST_LOG_BITS)) 0
                  (nth (Z.to_nat from) lg 0)) as (dirty & -> & Hd).
      * pose proof VHOST_LOG_BITS_range. lia.
      * intros j Hj. lia.
      * pose proof VHOST_LOG_BITS_range. lia.
      * destruct (IH (from + 1) (u64 (addr + VHOST_LOG_CHUNK))
                    (array_store lg (Z.to_nat from) 0))
          as (lg' & evs & -> & Hevs).
        simpl. eexists _, _. split; [reflexivity|].
        intros i [<-|[<-|Hi]]; [lia | lia |].
        fold (log_indices (dirty ++ evs)) in Hi.
        rewrite log_indices_app, Hd in Hi. simpl in Hi.
        specialize (Hevs i Hi). lia.
Qed.

End SyncFacts.

(** C10: when the per-region sync routine is called for one of the
    device's regions or used rings, the log covers the last byte of every
    such range, and the intersection with the synced range is not empty,
    both assertions hold, the routine completes, and every log word it
    reads or clears has an index below [log_size]. *)
Theorem sync_region_in_bounds {G : LogGeometry} (dev : vhost_dev)
  (section : MemoryRegionSection) (mfirst mlast rfirst rlast : Z) :
  In (rfirst, rlast) (logged_ranges dev) ->
  (forall r, In r (logged_ranges dev) ->
     snd r / VHOST_LOG_CHUNK < log_size dev) ->
  0 <= mfirst ->
  MAX mfirst rfirst <= MIN mlast rlast ->
  (MIN mlast rlast / VHOST_LOG_CHUNK <? log_size dev) = true /\
  (MAX mfirst rfirst / VHOST_LOG_CHUNK <? log_size dev) = true /\
  exists lg' evs,
    vhost_dev_sync_region (log dev) (log_size dev) section
      mfirst mlast rfirst rlast = Some (lg', evs) /\
    forall i, In i (log_indices evs) -> 0 <= i < log_size dev.
Proof.
  intros Hin Hcov Hm Hne.
  pose proof VHOST_LOG_CHUNK_range as Hc.
  specialize (Hcov _ Hin). simpl in Hcov.
  assert (Hend : MIN mlast rlast / VHOST_LOG_CHUNK < log_size dev).
  { assert (MIN mlast rlast / VHOST_LOG_CHUNK <= rlast / VHOST_LOG_CHUNK).
    { apply Z.div_le_mono; [lia|]. rewrite MIN_spec. lia. }
    lia. }
  assert (Hse : MAX mfirst rfirst / VHOST_LOG_CHUNK
                <= MIN mlast rlast / VHOST_LOG_CHUNK)
    by (apply Z.div_le_mono; lia).
  assert (Hs0 : 0 <= MAX mfirst rfirst / VHOST_LOG_CHUNK).
  { apply Z.div_pos; [|lia]. rewrite MAX_spec. lia. }
  split; [lia|]. split; [lia|].
  unfold vhost_dev_sync_region.
  replace (MIN mlast rlast <? MAX mfirst rfirst) with false by lia.
  replace (MIN mlast rlast / VHOST_LOG_CHUNK <? log_size dev) with true by lia.
  replace (MAX mfirst rfirst / VHOST_LOG_CHUNK <? log_size dev) with true
    by lia.
  cbn [assert obind].
  destruct (sync_chunks_ok section
              (Z.to_nat (MIN mlast rlast / VHOST_LOG_CHUNK + 1
                         - MAX mfirst rfirst / VHOST_LOG_CHUNK))
              (MAX mfirst rfirst / VHOST_LOG_CHUNK)
              (u64 (MAX mfirst rfirst / VHOST_LOG_CHUNK * VHOST_LOG_CHUNK))
              (log dev)) as (lg' & evs & -> & Hevs).
  exists lg', evs. split; [reflexivity|].
  intros i Hi. specialize (Hevs i Hi). lia.
Qed.

Lemma sync_region_in_bounds_witness :
  (MIN 524288 524287 / @VHOST_LOG_CHUNK lp64
   <? log_size (example_sync_dev 5 8)) = true /\
  (MAX 0 0 / @VHOST_LOG_CHUNK lp64 <? log_size (example_sync_dev 5 8)) = true /\
  exists lg' evs,
    @vhost_dev_sync_region lp64 (log (example_sync_dev 5 8))
      (log_size (example_sync_dev 5 8)) example_section
      0 524288 0 524287 = Some (lg', evs) /\
    forall i, In i (log_indices evs) ->
      0 <= i < log_size (example_sync_dev 5 8).
Proof.
  apply (@sync_region_in_bounds lp64 (example_sync_dev 5 8) example_section
           0 524288 0 524287).
  - left. reflexivity.
  - intros r [<-|[]]. vm_compute. reflexivity.
  - lia.
  - vm_compute. discriminate.
Defined.

(** C1 (what the code does where it departs from the property): with bit 3
    set in the second log word, the page at guest address
    [VHOST_LOG_CHUNK + 3 * VHOST_LOG_PAGE = 274432] of a section that
    starts at guest address 0 is dirty, but the notification is for offset
    [3 * VHOST_LOG_PAGE = 12288]: the address of the word is left out. *)
Theorem sync_drops_word_address :
  @vhost_sync_dirty_bitmap lp64 (example_sync_dev 0 8) example_section
    0 524288
  = Some ([0; 0],
          [LogLoad 0; LogLoad 1; LogFetchAnd 1; SetDirty 7 12288 4096]).
Proof. vm_compute. reflexivity. Qed.

(** ** The reconciler *)

Section ReconcilerFacts.
Context {G : LogGeometry}.
Local Open Scope vhost_scope.

Lemma commands_app (a b : list event) :
  commands (a ++ b) = commands a ++ commands b.
Proof. unfold commands. apply flat_map_app. Qed.

Lemma harvest_no_commands section fuel :
  forall x evs, harvest fuel section x = Some evs -> commands evs = [].
Proof.
  induction fuel as [|fuel IH]; intros x evs; simpl; [discriminate|].
  destruct (ffs x =? 0).
  - intros E. inversion E. reflexivity.
  - destruct (harvest fuel section _) as [rest|] eqn:Hr; simpl; [|discriminate].
    intros E. inversion E. simpl. apply (IH _ _ Hr).
Qed.

Lemma sync_chunks_no_commands section count :
  forall from addr lg r,
  sync_chunks count section from addr lg = Some r -> commands (snd r) = [].
Proof.
  induction count as [|count IH]; intros from addr lg r; cbn [sync_chunks].
  - intros E. inversion E. reflexivity.
  - destruct (nth (Z.to_nat from) lg 0 =? 0).
    + destruct (sync_chunks count section _ _ _) as [r'|] eqn:Hr; simpl;
        [|discriminate].
      intros E. inversion E. simpl. apply (IH _ _ _ _ Hr).
    + destruct (harvest _ section _) as [dirty|] eqn:Hd; simpl; [|discriminate].
      destruct (sync_chunks count section _ _ _) as [r'|] eqn:Hr; simpl;
        [|discriminate].
      intros E. inversion E. simpl. rewrite commands_app.
      rewrite (harvest_no_commands _ _ _ _ Hd). apply (IH _ _ _ _ Hr).
Qed.

Lemma sync_region_total lg lg_size section mfirst mlast rfirst rlast :
  mlast / VHOST_LOG_CHUNK < lg_size ->
  exists r,
    vhost_dev_sync_region lg lg_size section mfirst mlast rfirst rlast
    = Some r /\ commands (snd r) = [].
Proof.
  intros Hm. pose proof VHOST_LOG_CHUNK_range as Hc.
  unfold vhost_dev_sync_region.
  destruct (Z.ltb_spec (MIN mlast rlast) (MAX mfirst rfirst)) as [Hlt|Hge].
  - eexists. split; reflexivity.
  - assert (MIN mlast rlast / VHOST_LOG_CHUNK <= mlast / VHOST_LOG_CHUNK).
    { apply Z.div_le_mono; [lia|]. rewrite MIN_spec. lia. }
    assert (MAX mfirst rfirst / VHOST_LOG_CHUNK
            <= MIN mlast rlast / VHOST_LOG_CHUNK)
      by (apply Z.div_le_mono; lia).
    replace (MIN mlast rlast / VHOST_LOG_CHUNK <? lg_size) with true by lia.
    replace (MAX mfirst rfirst / VHOST_LOG_CHUNK <? lg_size) with true by lia.
    cbn [assert obind].
    match goal with
    | |- context [sync_chunks ?c ?s ?f ?a ?l] =>
        destruct (sync_chunks_ok s c f a l) as (lg' & evs & Hrun & _)
    end.
    rewrite Hrun. eexists. split; [reflexivity|].
    apply (sync_chunks_no_commands _ _ _ _ _ _ Hrun).
Qed.

Lemma sync_ranges_total lg_size section mfirst mlast ranges :
  mlast / VHOST_LOG_CHUNK < lg_size ->
  forall lg,
  exists r,
    sync_ranges lg lg_size section mfirst mlast ranges = Some r /\
    commands (snd r) = [].
Proof.
  intros Hm. induction ranges as [|[rfirst rlast] ranges IH]; intros lg; simpl.
  - eexists. split; reflexivity.
  - destruct (sync_region_total lg lg_size section mfirst mlast rfirst rlast Hm)
      as (r1 & -> & H1).
    simpl. destruct (IH (fst r1)) as (r2 & -> & H2). simpl.
    eexists. split; [reflexivity|]. simpl. rewrite commands_app, H1, H2.
    reflexivity.
Qed.

Lemma sync_dirty_bitmap_total dev section mfirst mlast :
  log_enabled dev = false \/ started dev = false \/
  mlast / VHOST_LOG_CHUNK < log_size dev ->
  exists r,
    vhost_sync_dirty_bitmap dev section mfirst mlast = Some r /\
    commands (snd r) = [].
Proof.
  intros H. unfold vhost_sync_dirty_bitmap.
  destruct (negb (log_enabled dev) || negb (started dev)) eqn:E.
  - eexists. split; reflexivity.
  - apply sync_ranges_total.
    destruct H as [H | [H | H]]; [rewrite H in E | rewrite H in E |]; auto;
      simpl in E; try discriminate.
    rewrite orb_true_r in E. discriminate.
Qed.

Lemma same_config_refl d : same_config d d.
Proof. unfold same_config. tauto. Qed.

Lemma quiet_refl w : quiet w w.
Proof. unfold quiet. pose proof (same_config_refl (w_dev w)). tauto. Qed.

Lemma quiet_trans w1 w2 w3 : quiet w1 w2 -> quiet w2 w3 -> quiet w1 w3.
Proof.
  unfold quiet, same_config. intros H1 H2.
  repeat match goal with H : _ /\ _ |- _ => destruct H end.
  repeat split; congruence.
Qed.

Lemma sync_dirty_bitmap_quiet section mfirst mlast w :
  log_enabled (w_dev w) = false \/ started (w_dev w) = false \/
  mlast / VHOST_LOG_CHUNK < log_size (w_dev w) ->
  exists w', sync_dirty_bitmap section mfirst mlast w = Some (0, w') /\
             quiet w w'.
Proof.
  intros H.
  destruct (sync_dirty_bitmap_total (w_dev w) section mfirst mlast H)
    as (r & Hr & Hc).
  unfold sync_dirty_bitmap, bind, get_dev, lift, put_dev, emit, ret.
  rewrite Hr. simpl. eexists. split; [reflexivity|].
  unfold quiet, same_config. simpl. rewrite commands_app, Hc, app_nil_r.
  tauto.
Qed.

(** The range of the old log, as [vhost_dev_log_resize] computes it, ends
    inside the log. *)
Lemma old_log_range (n : Z) :
  0 < n -> u64 (u64 (n * VHOST_LOG_CHUNK) - 1) / VHOST_LOG_CHUNK < n.
Proof.
  intros Hn. pose proof VHOST_LOG_CHUNK_range as Hc.
  apply Z.div_lt_upper_bound; [lia|].
  destruct (Z.lt_ge_cases (n * VHOST_LOG_CHUNK) U64) as [Hlt|Hge].
  - rewrite (u64_small (n * VHOST_LOG_CHUNK)) by nia.
    rewrite u64_small by nia. lia.
  - pose proof (u64_range (u64 (n * VHOST_LOG_CHUNK) - 1)). lia.
Qed.

Lemma for_each_quiet {A} (f : A -> M unit) (P : world -> Prop) (l : list A) :
  (forall a w, P w -> exists w', f a w = Some (tt, w') /\ quiet w w' /\ P w') ->
  forall w, P w ->
  exists w', for_each l f w = Some (tt, w') /\ quiet w w' /\ P w'.
Proof.
  intros Hf. induction l as [|a l IH]; intros w Hw; simpl.
  - exists w. split; [reflexivity|]. split; [apply quiet_refl | exact Hw].
  - unfold bind. destruct (Hf a w Hw) as (w1 & -> & Hq1 & Hw1).
    destruct (IH w1 Hw1) as (w2 & -> & Hq2 & Hw2).
    exists w2. split; [reflexivity|]. split; [|exact Hw2].
    apply (quiet_trans w w1 w2); assumption.
Qed.

End ReconcilerFacts.

Section ReconcilerRuns.
Context {G : LogGeometry}.
Local Open Scope vhost_scope.

Lemma all_succeed_hd l : all_succeed l -> hd 0 l = 0.
Proof. destruct 1; simpl; auto. Qed.

Lemma all_succeed_tl l : all_succeed l -> all_succeed (tl l).
Proof. destruct 1; simpl; [constructor | assumption]. Qed.

Lemma ioctl_ok req w :
  hd 0 (w_script w) = 0 ->
  ioctl req w
  = Some (0, mkworld (w_dev w) (accept req (w_acc w)) (tl (w_script w))
               (w_errno w) (w_map w) (w_trace w ++ [Ioctl req true])).
Proof. intros H. unfold ioctl. rewrite H. reflexivity. Qed.

Lemma ioctl_fail req w e :
  hd 0 (w_script w) = e -> e <> 0 ->
  ioctl req w
  = Some (-1, mkworld (w_dev w) (w_acc w) (tl (w_script w))
                e (w_map w) (w_trace w ++ [Ioctl req false])).
Proof.
  intros H He. unfold ioctl. rewrite H.
  replace (e =? 0) with false by lia. reflexivity.
Qed.

Lemma max_of_le (l : list Z) (b : Z) :
  0 <= b -> Forall (fun x => x <= b) l -> max_of l <= b.
Proof.
  intros Hb. induction 1 as [|x l Hx _ IH]; unfold max_of in *; simpl; lia.
Qed.

Lemma get_log_size_bounds (d : vhost_dev) :
  0 <= vhost_get_log_size d <= 2305843009213693952.
Proof.
  rewrite vhost_get_log_size_max. split; [apply max_of_nonneg|].
  apply max_of_le; [lia|]. rewrite Forall_forall. intros x Hx.
  apply in_map_iff in Hx. destruct Hx as (r & <- & Hr).
  pose proof (range_last_bounds r d Hr) as Hb.
  pose proof VHOST_LOG_CHUNK_range as Hc. unfold chunks_upto.
  assert (snd r / VHOST_LOG_CHUNK <= snd r / 8)
    by (apply Z.div_le_compat_l; lia).
  assert (snd r / 8 <= (U64 - 1) / 8) by (apply Z.div_le_mono; lia).
  change ((U64 - 1) / 8) with 2305843009213693951 in *. lia.
Qed.

Lemma VHOST_LOG_BUFFER_range : 512 <= VHOST_LOG_BUFFER <= 4096.
Proof.
  unfold VHOST_LOG_BUFFER. pose proof sizeof_log_chunk_range as H. split.
  - apply Z.div_le_lower_bound; lia.
  - apply Z.div_le_upper_bound; lia.
Qed.

Lemma slack_no_wrap (d : vhost_dev) :
  u64 (vhost_get_log_size d + VHOST_LOG_BUFFER)
  = vhost_get_log_size d + VHOST_LOG_BUFFER.
Proof.
  apply u64_small. pose proof (get_log_size_bounds d).
  pose proof VHOST_LOG_BUFFER_range. unfold U64. lia.
Qed.

(** [vhost_dev_log_resize] when the command succeeds and the old log is
    either unused or not empty. *)
Lemma log_resize_ok (size : Z) (w : world) :
  all_succeed (w_script w) ->
  log_enabled (w_dev w) = false \/ started (w_dev w) = false \/
  0 < log_size (w_dev w) ->
  exists w',
    vhost_dev_log_resize size w = Some (tt, w') /\
    same_but_log (w_dev w) (w_dev w') /\
    log_size (w_dev w') = size /\
    all_succeed (w_script w') /\
    w_acc w' = accept (VHOST_SET_LOG_BASE size) (w_acc w) /\
    commands (w_trace w')
    = commands (w_trace w) ++ [VHOST_SET_LOG_BASE size].
Proof.
  intros Hs Hpre. unfold vhost_dev_log_resize, bind at 1.
  rewrite ioctl_ok by (apply all_succeed_hd; exact Hs).
  unfold bind at 1. unfold massert. cbn [Z.geb Z.compare].
  unfold bind at 1. unfold get_dev at 1. cbn [w_dev].
  set (w0 := mkworld (w_dev w) _ _ _ _ _).
  set (P := fun w1 : world =>
              log_size (w_dev w1) = log_size (w_dev w) /\
              log_enabled (w_dev w1) = log_enabled (w_dev w) /\
              started (w_dev w1) = started (w_dev w)).
  destruct (for_each_quiet
              (fun section : MemoryRegionSection =>
                 sync_dirty_bitmap section 0
                   (u64 (u64 (log_size (w_dev w) * VHOST_LOG_CHUNK) - 1)) ;;;
                 ret tt) P (mem_sections (w_dev w))) with (w := w0)
    as (w1 & Hrun & Hq & Hp1).
  - intros section wa (Ha1 & Ha2 & Ha3).
    destruct (sync_dirty_bitmap_quiet section 0
                (u64 (u64 (log_size (w_dev w) * VHOST_LOG_CHUNK) - 1)) wa)
      as (wb & Hb & Hqb).
    { rewrite Ha1, Ha2, Ha3. destruct Hpre as [H|[H|H]]; auto.
      right. right. apply old_log_range. exact H. }
    exists wb. unfold bind. rewrite Hb. split; [reflexivity|].
    split; [exact Hqb|].
    destruct Hqb as ((_ & _ & Hc3 & Hc4 & Hc5 & _) & _).
    unfold P. rewrite Hc3, Hc4, Hc5. auto.
  - unfold P. auto.
  - unfold bind at 1. rewrite Hrun.
    unfold bind, get_dev, put_dev. eexists. split; [reflexivity|].
    destruct Hq as ((Hc1 & Hc2 & Hc3 & Hc4 & Hc5 & Hc6 & Hc7) & Hacc & Hscr &
                    _ & _ & Hcmd).
    unfold same_but_log. cbn [w_dev w_acc w_script w_trace mem vqs log_size
      log_enabled started mem_sections acked_features].
    rewrite Hc1, Hc2, Hc4, Hc5, Hc6, Hc7, Hacc, Hscr, Hcmd.
    unfold w0. cbn [w_dev w_acc w_script w_trace].
    rewrite commands_app. simpl.
    repeat split. apply all_succeed_tl. exact Hs.
Qed.


Lemma verify_ring_mappings_ok (queues : list vhost_virtqueue)
  (start_addr size : Z) (w : world) :
  Forall (fun vq =>
            ranges_overlap start_addr size (ring_phys vq) (ring_size vq) = true ->
            w_map w (ring_phys vq) (ring_size vq) = (ring vq, ring_size vq) /\
            ring vq <> 0) queues ->
  verify_ring_mappings_from queues start_addr size w = Some (0, w).
Proof.
  induction 1 as [|vq queues Hvq _ IH]; simpl; [reflexivity|].
  destruct (ranges_overlap start_addr size (ring_phys vq) (ring_size vq)).
  - simpl. destruct (Hvq eq_refl) as [-> Hnz].
    replace (ring vq =? 0) with false by lia.
    rewrite !Z.eqb_refl. simpl. exact IH.
  - simpl. exact IH.
Qed.

End ReconcilerRuns.

(** ** Properties of the reconciler *)

Section RegionEvent.
Context {G : LogGeometry}.
Local Open Scope vhost_scope.


End RegionEvent.


Section LogToggle.
Context {G : LogGeometry}.
Local Open Scope vhost_scope.

Lemma set_features_ok (enable_log : bool) (w : world) :
  hd 0 (w_script w) = 0 ->
  vhost_dev_set_features enable_log w
  = Some (0, mkworld (w_dev w)
               (accept (VHOST_SET_FEATURES (features_of (w_dev w) enable_log))
                  (w_acc w))
               (tl (w_script w)) (w_errno w) (w_map w)
               (w_trace w ++
                [Ioctl (VHOST_SET_FEATURES (features_of (w_dev w) enable_log))
                   true])).
Proof.
  intros H. unfold vhost_dev_set_features, bind, get_dev.
  rewrite ioctl_ok by exact H. reflexivity.
Qed.

Lemma set_addr_ok (vq : vhost_virtqueue) (idx : Z) (enable_log : bool)
  (w : world) :
  hd 0 (w_script w) = 0 ->
  vhost_virtqueue_set_addr vq idx enable_log w
  = Some (0, mkworld (w_dev w)
               (accept (VHOST_SET_VRING_ADDR (vring_addr_of vq idx enable_log))
                  (w_acc w))
               (tl (w_script w)) (w_errno w) (w_map w)
               (w_trace w ++
                [Ioctl (VHOST_SET_VRING_ADDR (vring_addr_of vq idx enable_log))
                   true])).
Proof.
  intros H. unfold vhost_virtqueue_set_addr, bind.
  rewrite ioctl_ok by exact H. reflexivity.
Qed.

Lemma set_addr_fail (vq : vhost_virtqueue) (idx : Z) (enable_log : bool)
  (w : world) (e : Z) :
  hd 0 (w_script w) = e -> e <> 0 ->
  vhost_virtqueue_set_addr vq idx enable_log w
  = Some (- e, mkworld (w_dev w) (w_acc w) (tl (w_script w)) e (w_map w)
                 (w_trace w ++
                  [Ioctl (VHOST_SET_VRING_ADDR
                            (vring_addr_of vq idx enable_log)) false])).
Proof.
  intros H He. unfold vhost_virtqueue_set_addr, bind.
  rewrite (ioctl_fail _ _ e) by assumption. reflexivity.
Qed.

Lemma set_features_fail (enable_log : bool) (w : world) (e : Z) :
  hd 0 (w_script w) = e -> e <> 0 ->
  vhost_dev_set_features enable_log w
  = Some (- e, mkworld (w_dev w) (w_acc w) (tl (w_script w)) e (w_map w)
                 (w_trace w ++
                  [Ioctl (VHOST_SET_FEATURES
                            (features_of (w_dev w) enable_log)) false])).
Proof.
  intros H He. unfold vhost_dev_set_features, bind, get_dev.
  rewrite (ioctl_fail _ _ e) by assumption. reflexivity.
Qed.

(** The loop over the queues when every push succeeds. *)
Lemma set_log_queues_ok (enable_log : bool) (queues : list vhost_virtqueue) :
  forall i w,
  all_succeed (w_script w) ->
  exists w',
    set_log_queues queues i enable_log w
    = Some ((0, (i + length queues)%nat), w') /\
    w_dev w' = w_dev w /\ all_succeed (w_script w') /\
    commands (w_trace w')
    = commands (w_trace w) ++ addr_requests queues i enable_log.
Proof.
  induction queues as [|vq queues IH]; intros i w Hs; simpl.
  - exists w. rewrite Nat.add_0_r, app_nil_r. auto.
  - unfold bind. rewrite set_addr_ok by (apply all_succeed_hd; exact Hs).
    cbn [Z.ltb Z.compare].
    match goal with
    | |- context [set_log_queues queues (S i) enable_log ?w0] =>
        destruct (IH (S i) w0) as (w' & -> & Hd & Hs' & Hc)
    end.
    + cbn [w_script]. apply all_succeed_tl. exact Hs.
    + exists w'. rewrite Nat.add_succ_r. split; [reflexivity|].
      cbn [w_dev w_trace] in *. split; [exact Hd|]. split; [exact Hs'|].
      rewrite Hc, commands_app. simpl. rewrite <- app_assoc. reflexivity.
Qed.

Lemma set_log_ok (enable_log : bool) (w : world) :
  all_succeed (w_script w) ->
  exists w',
    vhost_dev_set_log enable_log w = Some (0, w') /\
    w_dev w' = w_dev w /\ all_succeed (w_script w') /\
    commands (w_trace w')
    = commands (w_trace w) ++
      VHOST_SET_FEATURES (features_of (w_dev w) enable_log)
      :: addr_requests (vqs (w_dev w)) 0 enable_log.
Proof.
  intros Hs. unfold vhost_dev_set_log. unfold bind at 1.
  rewrite set_features_ok by (apply all_succeed_hd; exact Hs).
  cbn [Z.ltb Z.compare]. unfold bind at 1. unfold get_dev at 1.
  cbn [w_dev]. unfold bind at 1.
  match goal with
  | |- context [set_log_queues ?q 0 enable_log ?w0] =>
      destruct (set_log_queues_ok enable_log q 0 w0) as (w' & -> & Hd & Hs' & Hc)
  end.
  - cbn [w_script]. apply all_succeed_tl. exact Hs.
  - cbn [fst Z.ltb Z.compare]. exists w'. split; [reflexivity|].
    cbn [w_dev w_trace] in *. split; [exact Hd|]. split; [exact Hs'|].
    rewrite Hc, commands_app. simpl. rewrite <- app_assoc. reflexivity.
Qed.

(** C5 (amended): on a running device whose commands all succeed,
    enabling migration logging issues SetLogBase for the newly sized log,
    then SetFeatures with the log bit, then SetVringAddr with the log flag
    for every queue in index order; disabling issues SetFeatures without
    the log bit and then SetVringAddr without the flag for every queue in
    index order, and no SetLogBase at all: the log is only freed. *)
Theorem migration_log_order (w : world) :
  started (w_dev w) = true ->
  all_succeed (w_script w) ->
  (log_enabled (w_dev w) = false ->
   exists w',
     vhost_migration_log true w = Some (0, w') /\
     commands (w_trace w')
     = commands (w_trace w) ++
       VHOST_SET_LOG_BASE (vhost_get_log_size (w_dev w))
       :: VHOST_SET_FEATURES (features_of (w_dev w) true)
       :: addr_requests (vqs (w_dev w)) 0 true /\
     log_enabled (w_dev w') = true /\
     log_size (w_dev w') = vhost_get_log_size (w_dev w)) /\
  (log_enabled (w_dev w) = true ->
   exists w',
     vhost_migration_log false w = Some (0, w') /\
     commands (w_trace w')
     = commands (w_trace w) ++
       VHOST_SET_FEATURES (features_of (w_dev w) false)
       :: addr_requests (vqs (w_dev w)) 0 false /\
     log_enabled (w_dev w') = false /\
     log_size (w_dev w') = 0 /\ log (w_dev w') = []).
Proof.
  intros Hst Hs. split; intros Hlog.
  - unfold vhost_migration_log. unfold bind at 1. unfold get_dev at 1.
    rewrite Hlog, Hst. cbn [Bool.eqb negb].
    destruct (log_resize_ok (vhost_get_log_size (w_dev w)) w Hs)
      as (w1 & Hrun & Hsame & Hsize & Hs1 & _ & Hcmd); [auto|].
    unfold bind at 1. rewrite Hrun. unfold bind at 1.
    destruct (set_log_ok true w1 Hs1) as (w2 & -> & Hd2 & _ & Hc2).
    cbn [Z.ltb Z.compare]. unfold bind, get_dev, put_dev, ret.
    eexists. split; [reflexivity|]. cbn [w_dev w_trace log_enabled log_size].
    rewrite Hc2, Hcmd, Hd2, Hsize.
    destruct Hsame as (_ & Hv & _ & _ & _ & Hf).
    unfold features_of. rewrite Hv, Hf, <- app_assoc. auto.
  - unfold vhost_migration_log. unfold bind at 1. unfold get_dev at 1.
    rewrite Hlog, Hst. cbn [Bool.eqb negb]. unfold bind at 1.
    destruct (set_log_ok false w Hs) as (w2 & -> & Hd2 & _ & Hc2).
    cbn [Z.ltb Z.compare]. unfold bind, get_dev, put_dev, ret.
    eexists. split; [reflexivity|].
    cbn [w_dev w_trace log_enabled log_size log]. auto.
Qed.

End LogToggle.

Lemma migration_log_order_witness :
  (log_enabled (w_dev (example_world false [])) = false ->
   exists w',
     @vhost_migration_log lp64 true (example_world false []) = Some (0, w') /\
     commands (w_trace w')
     = commands (w_trace (example_world false [])) ++
       VHOST_SET_LOG_BASE
         (@vhost_get_log_size lp64 (w_dev (example_world false [])))
       :: VHOST_SET_FEATURES
            (features_of (w_dev (example_world false [])) true)
       :: addr_requests (vqs (w_dev (example_world false []))) 0 true /\
     log_enabled (w_dev w') = true /\
     log_size (w_dev w')
     = @vhost_get_log_size lp64 (w_dev (example_world false []))) /\
  (log_enabled (w_dev (example_world false [])) = true ->
   exists w',
     @vhost_migration_log lp64 false (example_world false []) = Some (0, w') /\
     commands (w_trace w')
     = commands (w_trace (example_world false [])) ++
       VHOST_SET_FEATURES
         (features_of (w_dev (example_world false [])) false)
       :: addr_requests (vqs (w_dev (example_world false []))) 0 false /\
     log_enabled (w_dev w') = false /\
     log_size (w_dev w') = 0 /\ log (w_dev w') = []).
Proof.
  apply (@migration_log_order lp64 (example_world false [])).
  - reflexivity.
  - constructor.
Defined.

(** C5 with the reversed order fails: disabling does not issue the
    commands of enabling in reverse order; it starts with SetFeatures and
    issues no SetLogBase. *)
Lemma migration_log_disable_not_reversed :
  @command_kinds Z (@vhost_migration_log lp64 true) (example_world false [])
  = Some [SetLogBase; SetFeatures; SetVringAddr; SetVringAddr] /\
  @command_kinds Z (@vhost_migration_log lp64 false) (example_world true [])
  = Some [SetFeatures; SetVringAddr; SetVringAddr] /\
  [SetFeatures; SetVringAddr; SetVringAddr]
  <> rev [SetLogBase; SetFeatures; SetVringAddr; SetVringAddr].
Proof.
  split; [vm_compute; reflexivity|]. split; [vm_compute; reflexivity|].
  simpl. discriminate.
Qed.

Section LogToggleFailure.
Context {G : LogGeometry}.
Local Open Scope vhost_scope.

Lemma set_log_unwind_eq (i : nat) :
  set_log_unwind i
  = (d <- get_dev ;;
     t <- vhost_virtqueue_set_addr (nth i (vqs d) (mkvq 0 0 0 0 0 0 0 0))
            (Z.of_nat i) (log_enabled d) ;;
     massert (t >=? 0) ;;;
     match i with
     | O => ret tt
     | S j => set_log_unwind j
     end).
Proof. destruct i; reflexivity. Qed.

(** The loop over the queues when the push for the queue after [q1]
    fails: the queues of [q1] have the new flag, nothing else changed. *)
Lemma set_log_queues_fail (enable_log : bool) (vq : vhost_virtqueue)
  (q2 : list vhost_virtqueue) (e : Z) (rest : list Z)
  (q1 : list vhost_virtqueue) :
  0 < e ->
  forall i w,
  w_script w = repeat 0 (length q1) ++ e :: rest ->
  exists w',
    set_log_queues (q1 ++ vq :: q2) i enable_log w
    = Some ((- e, (i + length q1)%nat), w') /\
    w_dev w' = w_dev w /\ w_script w' = rest /\
    acc_features (w_acc w') = acc_features (w_acc w) /\
    acc_mem_table (w_acc w') = acc_mem_table (w_acc w) /\
    acc_log_words (w_acc w') = acc_log_words (w_acc w) /\
    forall j, ~ (Z.of_nat i <= j < Z.of_nat (i + length q1)) ->
      acc_vring_addr (w_acc w') j = acc_vring_addr (w_acc w) j.
Proof.
  intros He. induction q1 as [|v q1 IH]; intros i w Hscr; simpl in *.
  - unfold bind. rewrite (set_addr_fail _ _ _ _ e) by (try rewrite Hscr; simpl; lia).
    replace (- e <? 0) with true by lia. unfold ret.
    eexists. rewrite Nat.add_0_r. split; [reflexivity|].
    cbn [w_dev w_script w_acc]. rewrite Hscr. simpl. auto 10.
  - unfold bind. rewrite set_addr_ok by (rewrite Hscr; reflexivity).
    cbn [Z.ltb Z.compare].
    match goal with
    | |- context [set_log_queues _ (S i) enable_log ?w0] =>
        destruct (IH (S i) w0)
          as (w' & -> & Hd & Hs' & Hf & Hm & Hl & Hv)
    end.
    + cbn [w_script]. rewrite Hscr. reflexivity.
    + exists w'. rewrite Nat.add_succ_r. split; [reflexivity|].
      cbn [w_dev w_acc accept acc_features acc_mem_table acc_log_words
             acc_vring_addr] in *.
      do 5 (split; [assumption|]).
      intros j Hj. rewrite Hv by lia.
      cbn [vring_addr_of index].
      replace (j =? Z.of_nat i) with false by lia. reflexivity.
Qed.

(** The loop at [err_vq] when every push succeeds: the queues [0 .. k]
    have the flag of [log_enabled] again. *)
Lemma set_log_unwind_ok (k : nat) :
  forall w rest,
  w_script w = repeat 0 (S k) ++ rest ->
  exists w',
    set_log_unwind k w = Some (tt, w') /\
    w_dev w' = w_dev w /\ w_script w' = rest /\
    acc_features (w_acc w') = acc_features (w_acc w) /\
    acc_mem_table (w_acc w') = acc_mem_table (w_acc w) /\
    acc_log_words (w_acc w') = acc_log_words (w_acc w) /\
    forall j,
      acc_vring_addr (w_acc w') j
      = if (0 <=? j) && (j <=? Z.of_nat k)
        then Some (vring_addr_of
                     (nth (Z.to_nat j) (vqs (w_dev w)) (mkvq 0 0 0 0 0 0 0 0))
                     j (log_enabled (w_dev w)))
        else acc_vring_addr (w_acc w) j.
Proof.
  induction k as [|k IH]; intros w rest Hscr; rewrite set_log_unwind_eq;
    unfold bind at 1; unfold get_dev at 1; unfold bind at 1;
    rewrite set_addr_ok by (rewrite Hscr; reflexivity);
    unfold bind at 1; unfold massert at 1; cbn [Z.geb Z.compare].
  - unfold ret. eexists. split; [reflexivity|].
    cbn [w_dev w_script w_acc accept acc_features acc_mem_table
           acc_log_words acc_vring_addr vring_addr_of index].
    rewrite Hscr. simpl tl. do 5 (split; [reflexivity|]).
    intros j. change (Z.of_nat 0) with 0.
    destruct (Z.eqb_spec j 0) as [->|Hne].
    + reflexivity.
    + replace ((0 <=? j) && (j <=? 0)) with false by lia. reflexivity.
  - match goal with
    | |- context [set_log_unwind k ?w0] =>
        destruct (IH w0 rest) as (w' & -> & Hd & Hs' & Hf & Hm & Hl & Hv)
    end.
    + cbn [w_script]. rewrite Hscr. reflexivity.
    + exists w'. split; [reflexivity|].
      cbn [w_dev w_acc accept acc_features acc_mem_table acc_log_words
             acc_vring_addr vring_addr_of index] in *.
      do 5 (split; [assumption|]).
      intros j. rewrite Hv.
      pose proof (Nat2Z.is_nonneg k) as Hk0.
      destruct (Z.eqb_spec j (Z.of_nat (S k))) as [->|Hne].
      * rewrite Nat2Z.id, !Nat2Z.inj_succ. unfold Z.succ.
        replace ((0 <=? Z.of_nat k + 1) && (Z.of_nat k + 1 <=? Z.of_nat k))
          with false by lia.
        replace ((0 <=? Z.of_nat k + 1)
                 && (Z.of_nat k + 1 <=? Z.of_nat k + 1))
          with true by lia.
        reflexivity.
      * rewrite Nat2Z.inj_succ in *. unfold Z.succ in *.
        replace ((0 <=? j) && (j <=? Z.of_nat k + 1))
          with ((0 <=? j) && (j <=? Z.of_nat k)) by lia.
        reflexivity.
Qed.

(** A failing push in the loop at [err_vq] trips its assertion. *)
Lemma set_log_unwind_abort (e : Z) (rest : list Z) (k : nat) :
  0 < e ->
  forall j w,
  (j <= k)%nat ->
  w_script w = repeat 0 j ++ e :: rest ->
  set_log_unwind k w = None.
Proof.
  intros He. induction k as [|k IH]; intros j w Hj Hscr;
    rewrite set_log_unwind_eq; unfold bind at 1; unfold get_dev at 1;
    unfold bind at 1.
  - assert (j = 0%nat) by lia. subst j. simpl in Hscr.
    rewrite (set_addr_fail _ _ _ _ e) by (try rewrite Hscr; simpl; lia).
    unfold bind, massert. replace (- e >=? 0) with false by lia. reflexivity.
  - destruct j as [|j]; simpl in Hscr.
    + rewrite (set_addr_fail _ _ _ _ e) by (try rewrite Hscr; simpl; lia).
      unfold bind, massert. replace (- e >=? 0) with false by lia. reflexivity.
    + rewrite set_addr_ok by (rewrite Hscr; reflexivity).
      unfold bind at 1. unfold massert at 1. cbn [Z.geb Z.compare].
      apply (IH j); [lia|]. cbn [w_script]. rewrite Hscr. reflexivity.
Qed.

Lemma split_at_queue (queues : list vhost_virtqueue) (k : nat) :
  (k < length queues)%nat ->
  exists q1 vq q2, queues = q1 ++ vq :: q2 /\ length q1 = k.
Proof.
  intros Hk. exists (firstn k queues).
  destruct (skipn k queues) as [|vq q2] eqn:E.
  - apply (f_equal (@length _)) in E. rewrite length_skipn in E.
    simpl in E. lia.
  - exists vq, q2. split.
    + rewrite <- E. symmetry. apply firstn_skipn.
    + rewrite length_firstn. lia.
Qed.

(** C9: when, during a toggle of the log flag on a device whose
    accelerator is configured as [log_enabled] says, the address push
    fails for queue [k] (after the feature push and the pushes for the
    queues before [k] succeeded), then, provided the pushes of the unwind
    succeed, the call returns the error and the accelerator is configured
    exactly as before the toggle: features and the address and log flag of
    every queue; and if any push of the unwind fails, the call stops on
    the failed assertion. *)
Theorem set_log_failure_unwinds (enable_log : bool) (w : world) (k : nat)
  (e : Z) :
  (k < length (vqs (w_dev w)))%nat ->
  0 < e ->
  acc_in_step (w_dev w) (w_acc w) ->
  (forall rest,
     w_script w = repeat 0 (S k) ++ e :: repeat 0 (k + 2) ++ rest ->
     exists w',
       vhost_dev_set_log enable_log w = Some (- e, w') /\
       acc_same (w_acc w) (w_acc w') /\
       w_dev w' = w_dev w /\ w_script w' = rest) /\
  (forall j e' rest,
     (j < k + 2)%nat -> 0 < e' ->
     w_script w = repeat 0 (S k) ++ e :: repeat 0 j ++ e' :: rest ->
     vhost_dev_set_log enable_log w = None).
Proof.
  intros Hk He [Hfeat Hvr].
  destruct (split_at_queue (vqs (w_dev w)) k Hk) as (q1 & vq & q2 & Eq & Hlen).
  assert (Hstart : forall tail,
            w_script w = repeat 0 (S k) ++ e :: tail ->
            exists w1,
              vhost_dev_set_log enable_log w
              = ((set_log_unwind k ;;;
                  t <- vhost_dev_set_features (log_enabled (w_dev w)) ;;
                  massert (t >=? 0) ;;;
                  ret (- e)) w1) /\
              w_dev w1 = w_dev w /\ w_script w1 = tail /\
              acc_features (w_acc w1)
              = features_of (w_dev w) enable_log /\
              acc_mem_table (w_acc w1) = acc_mem_table (w_acc w) /\
              acc_log_words (w_acc w1) = acc_log_words (w_acc w) /\
              forall j, ~ (0 <= j < Z.of_nat k) ->
                acc_vring_addr (w_acc w1) j = acc_vring_addr (w_acc w) j).
  { intros tail Hscr. unfold vhost_dev_set_log. unfold bind at 1.
    rewrite set_features_ok by (rewrite Hscr; reflexivity).
    cbn [Z.ltb Z.compare]. unfold bind at 1. unfold get_dev at 1.
    cbn [w_dev]. unfold bind at 1. rewrite Eq.
    match goal with
    | |- context [set_log_queues _ 0 enable_log ?w0] =>
        destruct (set_log_queues_fail enable_log vq q2 e tail q1 He 0%nat w0)
          as (w1 & -> & Hd & Hs1 & Hf & Hm & Hl & Hv)
    end.
    { cbn [w_script]. rewrite Hscr, Hlen. reflexivity. }
    cbn [fst snd]. replace (- e <? 0) with true by lia.
    rewrite Hlen. cbn [Nat.add].
    exists w1. split; [reflexivity|].
    cbn [w_dev w_acc accept acc_features acc_mem_table acc_log_words
           acc_vring_addr] in *.
    rewrite Hlen in Hv. do 5 (split; [assumption|]).
    intros j Hj. apply Hv. simpl. exact Hj. }
  split.
  - intros rest Hscr.
    destruct (Hstart _ Hscr) as (w1 & -> & Hd1 & Hs1 & Hf1 & Hm1 & Hl1 & Hv1).
    replace (k + 2)%nat with (S k + 1)%nat in Hs1 by lia.
    rewrite repeat_app, <- app_assoc in Hs1.
    destruct (set_log_unwind_ok k w1 _ Hs1)
      as (w2 & Hrun & Hd2 & Hs2 & Hf2 & Hm2 & Hl2 & Hv2).
    unfold bind at 1. rewrite Hrun. unfold bind at 1.
    rewrite set_features_ok by (rewrite Hs2; reflexivity).
    unfold bind, massert, ret. cbn [Z.geb Z.compare].
    eexists. split; [reflexivity|].
    cbn [w_dev w_acc w_script accept].
    split; [|split; [congruence | rewrite Hs2; reflexivity]].
    unfold acc_same.
    cbn [acc_features acc_mem_table acc_log_words acc_vring_addr].
    split; [rewrite Hd2, Hd1; symmetry; exact Hfeat|].
    split; [congruence|]. split; [congruence|].
    intros j. rewrite Hv2, Hd1.
    destruct ((0 <=? j) && (j <=? Z.of_nat k)) eqn:Ej.
    + pose proof (Nat2Z.is_nonneg k) as Hk0.
      assert (Hj : Z.of_nat (Z.to_nat j) = j) by lia.
      assert (Hjk : (Z.to_nat j < length (vqs (w_dev w)))%nat) by lia.
      specialize (Hvr (Z.to_nat j) Hjk). rewrite Hj in Hvr.
      symmetry. exact Hvr.
    + pose proof (Nat2Z.is_nonneg k) as Hk0. apply Hv1. lia.
  - intros j e' rest Hj He' Hscr.
    destruct (Hstart _ Hscr) as (w1 & -> & Hd1 & Hs1 & _).
    destruct (Nat.le_gt_cases j k) as [Hjk|Hjk].
    + unfold bind at 1.
      rewrite (set_log_unwind_abort e' rest k He' j w1 Hjk Hs1). reflexivity.
    + assert (j = S k) by lia. subst j.
      destruct (set_log_unwind_ok k w1 _ Hs1)
        as (w2 & Hrun & Hd2 & Hs2 & _).
      unfold bind at 1. rewrite Hrun. unfold bind at 1.
      rewrite (set_features_fail _ _ e') by (try rewrite Hs2; simpl; lia).
      unfold bind, massert. replace (- e' >=? 0) with false by lia.
      reflexivity.
Qed.

End LogToggleFailure.

Lemma example_acc_in_step (logging : bool) :
  acc_in_step (example_dev logging) (example_acc logging).
Proof.
  split; [reflexivity|]. intros i Hi.
  destruct i as [|[|i]]; [reflexivity | reflexivity | simpl in Hi; lia].
Qed.

Lemma set_log_failure_unwinds_witness :
  exists w',
    vhost_dev_set_log true (example_world false [0; 0; 22; 0; 0; 0])
    = Some (- 22, w') /\
    acc_same (w_acc (example_world false [0; 0; 22; 0; 0; 0])) (w_acc w') /\
    w_dev w' = w_dev (example_world false [0; 0; 22; 0; 0; 0]) /\
    w_script w' = [].
Proof.
  destruct (set_log_failure_unwinds true
              (example_world false [0; 0; 22; 0; 0; 0]) 1%nat 22) as [H _].
  - simpl. lia.
  - lia.
  - apply example_acc_in_step.
  - apply (H []). reflexivity.
Defined.

(** * Further properties *)

(** ** What the region table maps *)

Lemma maps_byte_app (l1 l2 : region_table) (a h : Z) :
  maps_byte (l1 ++ l2) a h <-> maps_byte l1 a h \/ maps_byte l2 a h.
Proof.
  unfold maps_byte. split.
  - intros (r & Hr & Hc). apply in_app_or in Hr.
    destruct Hr; [left | right]; exists r; auto.
  - intros [(r & Hr & Hc) | (r & Hr & Hc)]; exists r; split; auto;
      apply in_or_app; auto.
Qed.

Lemma maps_byte_cons (x : vhost_memory_region) (l : region_table) (a h : Z) :
  maps_byte (x :: l) a h <-> covers x a h \/ maps_byte l a h.
Proof.
  unfold maps_byte. split.
  - intros (r & [<-|Hr] & Hc); [left; assumption | right; exists r; auto].
  - intros [Hc | (r & Hr & Hc)].
    + exists x. split; [left; reflexivity | assumption].
    + exists r. split; [right; assumption | assumption].
Qed.

Lemma maps_byte_nil (a h : Z) : ~ maps_byte [] a h.
Proof. intros (r & [] & _). Qed.

(** What is left of one region maps what the region mapped outside the
    removed range. *)
Lemma piece_covers g s r a h :
  range_wf g s -> reg_wf r ->
  (maps_byte (cut_keep g s r ++ cut_spill g s r) a h
   <-> covers r a h /\ ~ (g <= a < g + s)).
Proof.
  intros Hg Hr. unfold cut_keep, cut_spill.
  pose proof (classify_spec g s r) as Hc.
  destruct (classify g s r); simpl;
    rewrite ?maps_byte_cons;
    unfold covers, low_part, high_part, reg_end, apart, range_wf, reg_wf in *;
    simpl;
    (split;
     [ intros H;
       repeat match goal with
              | H : _ \/ _ |- _ => destruct H
              | H : maps_byte [] _ _ |- _ => destruct (maps_byte_nil _ _ H)
              end; lia
     | intros H ]).
  - left. lia.
  - exfalso. lia.
  - left. lia.
  - left. lia.
  - assert (a < g \/ g + s <= a) as [Hlo|Hhi] by lia;
      [left | right; left]; lia.
Qed.

Lemma maps_byte_flat_map (f : vhost_memory_region -> region_table)
  (t : region_table) (a h : Z) :
  maps_byte (flat_map f t) a h <-> exists r, In r t /\ maps_byte (f r) a h.
Proof.
  unfold maps_byte. split.
  - intros (r' & Hr' & Hc). apply in_flat_map in Hr'.
    destruct Hr' as (r & Hr & Hin). exists r. split; [assumption|].
    exists r'. auto.
  - intros (r & Hr & r' & Hin & Hc). exists r'. split; [|assumption].
    apply in_flat_map. exists r. auto.
Qed.

Lemma unassign_result_maps g s t a h :
  range_wf g s -> Forall reg_wf t ->
  (maps_byte (unassign_result g s t) a h
   <-> maps_byte t a h /\ ~ (g <= a < g + s)).
Proof.
  intros Hg Hall. rewrite Forall_forall in Hall. unfold unassign_result.
  rewrite maps_byte_app, !maps_byte_flat_map. split.
  - intros [(r & Hr & Hm) | (r & Hr & Hm)];
      assert (Hp : maps_byte (cut_keep g s r ++ cut_spill g s r) a h)
        by (apply maps_byte_app; auto);
      apply (piece_covers g s r a h Hg (Hall r Hr)) in Hp;
      destruct Hp as [Hc Hout]; (split; [exists r; auto | assumption]).
  - intros [(r & Hr & Hc) Hout].
    assert (Hp : maps_byte (cut_keep g s r ++ cut_spill g s r) a h)
      by (apply (piece_covers g s r a h Hg (Hall r Hr)); auto).
    apply maps_byte_app in Hp. destruct Hp; [left | right]; exists r; auto.
Qed.

(** X1: on a table without overlaps, unassign of a range that does not
    wrap around completes, and the resulting table maps exactly the guest
    bytes outside the range that the table mapped before, to the same
    host bytes. *)
Theorem unassign_removes_exactly (t : region_table) (g s : Z) :
  table_wf t -> range_wf g s ->
  exists t',
    vhost_dev_unassign_memory t g s = Some t' /\
    forall a h, maps_byte t' a h <-> maps_byte t a h /\ ~ (g <= a < g + s).
Proof.
  intros Hok Hg. rewrite (unassign_exact g s t Hg Hok).
  eexists. split; [reflexivity|]. intros a h.
  apply unassign_result_maps; [assumption | apply Hok].
Qed.

Lemma unassign_removes_exactly_witness :
  exists t',
    vhost_dev_unassign_memory
      [mkreg 0 65536 2147483648; mkreg 131072 4096 2415919104] 16384 16384
    = Some t' /\
    forall a h,
      maps_byte t' a h <->
      maps_byte [mkreg 0 65536 2147483648; mkreg 131072 4096 2415919104] a h /\
      ~ (16384 <= a < 16384 + 16384).
Proof.
  apply unassign_removes_exactly.
  - unfold table_wf, non_overlapping, reg_wf, disjoint, apart, U64; simpl.
    concrete.
  - unfold range_wf, U64. lia.
Defined.

Lemma joined_covers x n m a h :
  reg_ok x -> reg_ok n -> joined x n m ->
  (covers m a h <-> covers x a h \/ covers n a h).
Proof.
  intros Hx Hn [[Hc ->] | [Hc ->]];
    unfold covers, join, continues, reg_ok, reg_end in *; simpl; lia.
Qed.

Lemma triple_covers lo n hi m a h :
  reg_ok lo -> reg_ok n -> reg_ok hi ->
  continues lo n -> continues n hi ->
  guest_phys_addr m = guest_phys_addr lo ->
  memory_size m = memory_size lo + memory_size n + memory_size hi ->
  userspace_addr m = userspace_addr lo ->
  (covers m a h <-> covers lo a h \/ covers n a h \/ covers hi a h).
Proof. unfold covers, continues, reg_ok, reg_end. lia. Qed.

Lemma assign_result_maps t n t' a h :
  Forall reg_ok t -> reg_ok n -> assign_result t n t' ->
  (maps_byte t' a h <-> maps_byte t a h \/ covers n a h).
Proof.
  intros Hall Hn
    [[Hsep ->] |
     [(l1 & x & l2 & m & -> & -> & Hj & Hsep) |
      (l1 & x & l2 & y & l3 & lo & hi & m & -> & -> & Hlo & Hhi & Hxy &
       Hg & Hs & Hu & Hsep)]].
  - rewrite maps_byte_app, maps_byte_cons.
    pose proof (maps_byte_nil a h). tauto.
  - assert (Hx : reg_ok x).
    { rewrite Forall_forall in Hall. apply Hall. apply in_or_app.
      right. left. reflexivity. }
    rewrite !maps_byte_app, !maps_byte_cons.
    rewrite (joined_covers x n m a h Hx Hn Hj). tauto.
  - assert (Hx : reg_ok x).
    { rewrite Forall_forall in Hall. apply Hall. apply in_or_app.
      right. left. reflexivity. }
    assert (Hy : reg_ok y).
    { rewrite Forall_forall in Hall. apply Hall. apply in_or_app.
      right. right. apply in_or_app. right. left. reflexivity. }
    assert (Hrlo : reg_ok lo) by (destruct Hxy as [[<- _]|[_ <-]]; auto).
    assert (Hrhi : reg_ok hi) by (destruct Hxy as [[_ <-]|[<- _]]; auto).
    rewrite !maps_byte_app, !maps_byte_cons, !maps_byte_app, !maps_byte_cons.
    rewrite (triple_covers lo n hi m a h Hrlo Hn Hrhi Hlo Hhi Hg Hs Hu).
    destruct Hxy as [[-> ->] | [-> ->]]; tauto.
Qed.

(** X2: on a table that satisfies its invariants, assign of a range that
    overlaps no region completes, and the resulting table maps what the
    table mapped before and, in addition, every guest byte of the range to
    the host byte at the same offset from [uaddr]. *)
Theorem assign_adds_exactly (t : region_table) (g s uaddr : Z) :
  rt_inv t -> reg_ok (mkreg g s uaddr) -> Forall (apart g s) t ->
  exists t',
    vhost_dev_assign_memory t g s uaddr = Some t' /\
    forall a h,
      maps_byte t' a h <->
      maps_byte t a h \/ (g <= a < g + s /\ h = uaddr + (a - g)).
Proof.
  intros Hinv Hn Hap.
  destruct (assign_inv g s uaddr t Hn Hinv Hap) as (t' & Hrun & _ & Hres).
  exists t'. split; [exact Hrun|]. intros a h.
  destruct Hinv as [[Hall _] _].
  apply (assign_result_maps t (mkreg g s uaddr) t' a h Hall Hn Hres).
Qed.

Lemma assign_adds_exactly_witness :
  exists t',
    vhost_dev_assign_memory
      [mkreg 8192 4096 1879056384; mkreg 0 4096 1879048192]
      4096 4096 1879052288 = Some t' /\
    forall a h,
      maps_byte t' a h <->
      maps_byte [mkreg 8192 4096 1879056384; mkreg 0 4096 1879048192] a h \/
      (4096 <= a < 4096 + 4096 /\ h = 1879052288 + (a - 4096)).
Proof.
  apply assign_adds_exactly.
  - unfold rt_inv, table_ok, non_overlapping, merge_maximal, reg_ok, disjoint,
      apart, separate, continues, U64; simpl.
    concrete.
  - unfold reg_ok, U64; simpl. lia.
  - unfold apart. concrete.
Defined.

(** ** Looking regions up *)

Lemma overlap_spec g s r :
  range_wf g s -> reg_wf r ->
  (ranges_overlap (guest_phys_addr r) (memory_size r) g s = false
   <-> apart g s r).
Proof.
  unfold range_wf, reg_wf, apart, ranges_overlap, range_get_last.
  intros Hg Hr. u64_norm. lia.
Qed.

Lemma find_reg_none g s t :
  range_wf g s -> Forall reg_wf t ->
  (vhost_dev_find_reg t g s = None <-> Forall (apart g s) t).
Proof.
  intros Hg Hall. unfold vhost_dev_find_reg. rewrite Forall_forall in Hall.
  split.
  - intros Hnone. rewrite Forall_forall. intros r Hr.
    apply (overlap_spec g s r Hg (Hall r Hr)).
    apply (find_none _ _ Hnone r Hr).
  - intros Hap. rewrite Forall_forall in Hap.
    destruct (find _ t) as [r|] eqn:E; [|reflexivity].
    apply find_some in E. destruct E as [Hr Hov].
    apply (overlap_spec g s r Hg (Hall r Hr)) in Hap; [|assumption].
    congruence.
Qed.

Lemma unassign_skip n g s (l : region_table) :
  (forall r, In r l ->
     ranges_overlap (guest_phys_addr r) (memory_size r) g s = false) ->
  forall st,
  ofold (Unassign.body n g s) l st
  = Some (Unassign.mkstate (Unassign.kept st ++ l) (Unassign.spill st)
            (Unassign.nregions st) (Unassign.overlap_start st)
            (Unassign.overlap_end st) (Unassign.overlap_middle st)
            (Unassign.split st)).
Proof.
  induction l as [|r l IH]; intros Hl st.
  - rewrite app_nil_r. destruct st. reflexivity.
  - rewrite ofold_cons. unfold Unassign.body at 1.
    rewrite (Hl r) by (left; reflexivity). cbn [negb].
    rewrite IH by (intros r' Hr'; apply Hl; right; exact Hr').
    cbn [Unassign.kept Unassign.spill Unassign.nregions
           Unassign.overlap_start Unassign.overlap_end
           Unassign.overlap_middle Unassign.split].
    rewrite <- app_assoc. reflexivity.
Qed.

(** X3: when no region of the table overlaps the range (the lookup
    returns nothing), unassign returns the table as it is, whatever the
    table holds. *)
Theorem unassign_without_overlap (t : region_table) (g s : Z) :
  vhost_dev_find_reg t g s = None ->
  vhost_dev_unassign_memory t g s = Some t.
Proof.
  intros Hnone. unfold vhost_dev_unassign_memory.
  rewrite unassign_skip.
  - unfold Unassign.init, Unassign.finish. cbn [obind Unassign.kept
      Unassign.spill app]. rewrite app_nil_r. reflexivity.
  - intros r Hr. apply (find_none _ _ Hnone r Hr).
Qed.

Lemma unassign_without_overlap_witness :
  vhost_dev_unassign_memory
    [mkreg 0 4096 1879048192; mkreg 8192 4096 1879056384] 4096 4096
  = Some [mkreg 0 4096 1879048192; mkreg 8192 4096 1879056384].
Proof. apply unassign_without_overlap. reflexivity. Defined.

(** X4: after unassign of a range, on a table without overlaps, the
    lookup finds no region that overlaps the range: the table is as
    assign expects it. *)
Theorem unassign_clears_range (t : region_table) (g s : Z) :
  table_wf t -> range_wf g s ->
  exists t',
    vhost_dev_unassign_memory t g s = Some t' /\
    vhost_dev_find_reg t' g s = None.
Proof.
  intros Hok Hg. rewrite (unassign_exact g s t Hg Hok).
  eexists. split; [reflexivity|].
  apply find_reg_none; [assumption | | apply (unassign_apart g s t Hg Hok)].
  apply (unassign_table_wf g s t Hg Hok).
Qed.

Lemma unassign_clears_range_witness :
  exists t',
    vhost_dev_unassign_memory
      [mkreg 0 65536 2147483648; mkreg 65536 4096 2415919104] 61440 8192
    = Some t' /\
    vhost_dev_find_reg t' 61440 8192 = None.
Proof.
  apply unassign_clears_range.
  - unfold table_wf, non_overlapping, reg_wf, disjoint, apart, U64; simpl.
    concrete.
  - unfold range_wf, U64. lia.
Defined.

Lemma u64_sub_idemp (x y : Z) : u64 (u64 x - y) = u64 (x - y).
Proof. unfold u64. apply Zminus_mod_idemp_l. Qed.

Lemma covers_unique t r1 r2 a h1 h2 :
  non_overlapping t -> In r1 t -> In r2 t ->
  covers r1 a h1 -> covers r2 a h2 -> r1 = r2.
Proof.
  intros Hno H1 H2 Hc1 Hc2.
  destruct (FOP_in disjoint t disjoint_sym Hno r1 r2 H1 H2) as [E|Hd];
    [exact E|].
  exfalso. unfold covers, disjoint, apart, reg_end in *. lia.
Qed.

(** The comparison is right to say that nothing changes. *)
Lemma cmp_false_mapped (t : region_table) (g s uaddr : Z) :
  table_wf t -> range_wf g s -> 0 <= uaddr -> uaddr + s <= U64 ->
  vhost_dev_cmp_memory t g s uaddr = false ->
  forall a, g <= a < g + s -> maps_byte t a (uaddr + (a - g)).
Proof.
  intros [Hall Hno] Hg Hu0 Hu1.
  pose proof Hall as Hall'. rewrite Forall_forall in Hall'.
  unfold vhost_dev_cmp_memory.
  destruct (vhost_dev_find_reg t g s) as [r|] eqn:E; [|discriminate].
  apply find_some in E. destruct E as [Hr Hov].
  pose proof (Hall' r Hr) as Hwf.
  unfold ranges_overlap, range_get_last in *.
  unfold range_wf, reg_wf in *. revert Hov. u64_norm. intros Hov.
  destruct ((g <? guest_phys_addr r)
            || (g + s - 1 >? guest_phys_addr r + memory_size r - 1)) eqn:Hc;
    [discriminate|].
  rewrite u64_sub_idemp.
  rewrite (u64_small (userspace_addr r + g - guest_phys_addr r)) by lia.
  intros Hcmp a Ha. exists r. split; [exact Hr|].
  unfold covers, reg_end. lia.
Qed.

(** And it says so whenever nothing changes. *)
Lemma mapped_cmp_false (t : region_table) (g s uaddr : Z) :
  table_wf t -> merge_maximal t -> range_wf g s ->
  0 <= uaddr -> uaddr + s <= U64 ->
  (forall a, g <= a < g + s -> maps_byte t a (uaddr + (a - g))) ->
  vhost_dev_cmp_memory t g s uaddr = false.
Proof.
  intros [Hall Hno] Hmm Hg Hu0 Hu1 Hmap.
  pose proof Hall as Hall'. rewrite Forall_forall in Hall'.
  destruct (vhost_dev_find_reg t g s) as [r|] eqn:E.
  - pose proof E as E'. unfold vhost_dev_find_reg in E'.
    apply find_some in E'. destruct E' as [Hr Hov].
    pose proof (Hall' r Hr) as Hwf.
    assert (Hnap : ~ apart g s r).
    { intros Hap. apply (overlap_spec g s r Hg Hwf) in Hap. congruence. }
    (* a byte of the range inside [r] is mapped by [r] itself *)
    destruct (Hmap (Z.max g (guest_phys_addr r))) as (r1 & H1 & Hc1).
    { unfold apart, range_wf, reg_wf, reg_end in *. lia. }
    assert (E1 : r = r1).
    { apply (covers_unique t r r1 (Z.max g (guest_phys_addr r))
               (userspace_addr r + (Z.max g (guest_phys_addr r)
                                    - guest_phys_addr r))
               (uaddr + (Z.max g (guest_phys_addr r) - g))
               Hno Hr H1); [|exact Hc1].
      unfold covers, apart, range_wf, reg_wf, reg_end in *. lia. }
    subst r1.
    (* the range does not start before [r] *)
    assert (Hlo : guest_phys_addr r <= g).
    { destruct (Z.le_gt_cases (guest_phys_addr r) g) as [|Hlt]; [assumption|].
      exfalso.
      destruct (Hmap (guest_phys_addr r - 1)) as (r2 & H2 & Hc2).
      { unfold apart, range_wf, reg_wf, reg_end in *. lia. }
      pose proof (Hall' r2 H2) as Hwf2.
      destruct (FOP_in disjoint t disjoint_sym Hno r r2 Hr H2) as [<-|Hd].
      { unfold covers, reg_end in *. lia. }
      destruct (FOP_in separate t separate_sym Hmm r r2 Hr H2) as [<-|Hs].
      { unfold covers, reg_end in *. lia. }
      unfold covers, disjoint, apart, separate, continues, range_wf, reg_wf,
        reg_end in *. lia. }
    (* nor end after it *)
    assert (Hhi : g + s <= reg_end r).
    { destruct (Z.le_gt_cases (g + s) (reg_end r)) as [|Hlt]; [assumption|].
      exfalso.
      destruct (Hmap (reg_end r)) as (r2 & H2 & Hc2).
      { unfold apart, range_wf, reg_wf, reg_end in *. lia. }
      pose proof (Hall' r2 H2) as Hwf2.
      destruct (FOP_in disjoint t disjoint_sym Hno r r2 Hr H2) as [<-|Hd].
      { unfold covers, reg_end in *. lia. }
      destruct (FOP_in separate t separate_sym Hmm r r2 Hr H2) as [<-|Hs].
      { unfold covers, reg_end in *. lia. }
      unfold covers, disjoint, apart, separate, continues, range_wf, reg_wf,
        reg_end in *. lia. }
    unfold vhost_dev_cmp_memory. rewrite E.
    unfold range_get_last. rewrite u64_sub_idemp.
    unfold covers, range_wf, reg_wf, reg_end in *.
    rewrite (u64_small (userspace_addr r + g - guest_phys_addr r)) by lia.
    u64_norm.
    replace ((g <? guest_phys_addr r)
             || (g + s - 1 >? guest_phys_addr r + memory_size r - 1))
      with false by lia.
    lia.
  - exfalso.
    apply (find_reg_none g s t Hg Hall) in E. rewrite Forall_forall in E.
    destruct (Hmap g) as (r0 & H0 & Hc0).
    { unfold range_wf in Hg. lia. }
    specialize (E r0 H0). pose proof (Hall' r0 H0) as Hwf.
    unfold covers, apart, range_wf, reg_wf, reg_end in *. lia.
Qed.

(** X5: on a table that satisfies its invariants, the comparison that
    guards the add path returns [false] (nothing to do) exactly when the
    table already maps every guest byte of the range to the host byte at
    the same offset from [uaddr]. *)
Theorem cmp_memory_false_iff (t : region_table) (g s uaddr : Z) :
  table_wf t -> merge_maximal t -> range_wf g s ->
  0 <= uaddr -> uaddr + s <= U64 ->
  (vhost_dev_cmp_memory t g s uaddr = false <->
   forall a, g <= a < g + s -> maps_byte t a (uaddr + (a - g))).
Proof.
  intros Hwf Hmm Hg Hu0 Hu1. split.
  - apply cmp_false_mapped; assumption.
  - apply mapped_cmp_false; assumption.
Qed.

Lemma cmp_memory_false_iff_witness :
  vhost_dev_cmp_memory [mkreg 4096 12288 2415923200] 8192 4096 2415927296
  = false <->
  forall a, 8192 <= a < 8192 + 4096 ->
    maps_byte [mkreg 4096 12288 2415923200] a (2415927296 + (a - 8192)).
Proof.
  apply cmp_memory_false_iff.
  - unfold table_wf, non_overlapping, reg_wf, U64; simpl. concrete.
  - unfold merge_maximal. constructor; constructor.
  - unfold range_wf, U64. lia.
  - lia.
  - unfold U64. lia.
Defined.

Lemma rt_inv_wf t : rt_inv t -> table_wf t /\ merge_maximal t.
Proof. intros [Hok Hmm]. split; [apply table_ok_wf|]; assumption. Qed.

Lemma maps_byte_unique t a h1 h2 :
  non_overlapping t -> maps_byte t a h1 -> maps_byte t a h2 -> h1 = h2.
Proof.
  intros Hno (r1 & H1 & Hc1) (r2 & H2 & Hc2).
  assert (r1 = r2) by (apply (covers_unique t r1 r2 a h1 h2); assumption).
  subst r2. unfold covers in *. lia.
Qed.

(** X6: when the comparison says that nothing changes, removing the
    range and adding it again, as the add path would, gives a table that
    maps every guest byte as the table did: returning early leaves nothing
    out. *)
Theorem add_of_mapped_range_changes_nothing (t : region_table)
  (g s uaddr : Z) :
  rt_inv t -> reg_ok (mkreg g s uaddr) ->
  vhost_dev_cmp_memory t g s uaddr = false ->
  exists t1 t2,
    vhost_dev_unassign_memory t g s = Some t1 /\
    vhost_dev_assign_memory t1 g s uaddr = Some t2 /\
    forall a h, maps_byte t2 a h <-> maps_byte t a h.
Proof.
  intros Hinv Hn Hcmp.
  assert (Hg : range_ok g s) by (unfold reg_ok, range_ok in *; simpl in *; lia).
  destruct (rt_inv_wf t Hinv) as [Hwf Hmm].
  assert (Hmapped : forall a, g <= a < g + s ->
            maps_byte t a (uaddr + (a - g))).
  { apply (cmp_false_mapped t g s uaddr); auto.
    - apply range_ok_wf. exact Hg.
    - unfold reg_ok in Hn. simpl in Hn. lia.
    - unfold reg_ok in Hn. simpl in Hn. lia. }
  pose proof (unassign_exact g s t (range_ok_wf g s Hg) Hwf) as Hun.
  destruct (unassign_inv g s t Hg Hinv) as (t1 & Hrun1 & Hinv1 & Hap1).
  assert (Et1 : t1 = unassign_result g s t) by congruence.
  destruct (assign_inv g s uaddr t1 Hn Hinv1 Hap1) as (t2 & Hrun2 & _ & Hres).
  exists t1, t2. split; [exact Hrun1|]. split; [exact Hrun2|].
  intros a h.
  destruct Hinv1 as [[Hall1 _] _].
  rewrite (assign_result_maps t1 (mkreg g s uaddr) t2 a h Hall1 Hn Hres).
  rewrite Et1.
  rewrite (unassign_result_maps g s t a h (range_ok_wf g s Hg)
             (proj1 Hwf)).
  unfold covers, reg_end. simpl. split.
  - intros [[Hm _] | [Ha ->]]; [exact Hm | apply Hmapped; exact Ha].
  - intros Hm.
    destruct (Z.lt_ge_cases a g) as [|Hge]; [left; split; [assumption | lia]|].
    destruct (Z.lt_ge_cases a (g + s)) as [Hlt|];
      [|left; split; [assumption | lia]].
    right. split; [lia|].
    apply (maps_byte_unique t a h (uaddr + (a - g)) (proj2 Hwf) Hm).
    apply Hmapped. lia.
Qed.

Lemma add_of_mapped_range_changes_nothing_witness :
  exists t1 t2,
    vhost_dev_unassign_memory [mkreg 4096 12288 2415923200] 8192 4096
    = Some t1 /\
    vhost_dev_assign_memory t1 8192 4096 2415927296 = Some t2 /\
    forall a h,
      maps_byte t2 a h <-> maps_byte [mkreg 4096 12288 2415923200] a h.
Proof.
  apply add_of_mapped_range_changes_nothing.
  - unfold rt_inv, table_ok, non_overlapping, merge_maximal, reg_ok, U64;
      simpl. concrete.
  - unfold reg_ok, U64; simpl. lia.
  - reflexivity.
Defined.

(** ** How many regions *)

Lemma length_flat_map_le {A B} (f : A -> list B) (l : list A) :
  (forall x, (length (f x) <= 1)%nat) ->
  (length (flat_map f l) <= length l)%nat.
Proof.
  intros Hf. induction l as [|x l IH]; simpl; [lia|].
  rewrite length_app. specialize (Hf x). lia.
Qed.

Lemma spill_length g s t :
  range_wf g s -> table_wf t ->
  (length (flat_map (cut_spill g s) t) <= 1)%nat.
Proof.
  intros Hg Hok. rewrite <- (spill_at_most_one g s t Hg Hok).
  destruct (last _ None); simpl; lia.
Qed.

(** X7: unassign never adds more than one region to the table. *)
Theorem unassign_adds_at_most_one (t : region_table) (g s : Z) :
  table_wf t -> range_wf g s ->
  exists t',
    vhost_dev_unassign_memory t g s = Some t' /\
    (length t' <= length t + 1)%nat.
Proof.
  intros Hok Hg. rewrite (unassign_exact g s t Hg Hok).
  eexists. split; [reflexivity|]. unfold unassign_result.
  rewrite length_app.
  pose proof (length_flat_map_le (cut_keep g s) t
                (fun x => proj1 (cut_lengths g s x))).
  pose proof (spill_length g s t Hg Hok). lia.
Qed.

Lemma unassign_adds_at_most_one_witness :
  exists t',
    vhost_dev_unassign_memory [mkreg 0 65536 2147483648] 16384 16384
    = Some t' /\
    (length t' <= length [mkreg 0 65536 2147483648] + 1)%nat.
Proof.
  apply unassign_adds_at_most_one.
  - unfold table_wf, non_overlapping, reg_wf, U64; simpl. concrete.
  - unfold range_wf, U64. lia.
Defined.

Lemma assign_result_length t n t' :
  assign_result t n t' ->
  (length t <= length t' + 1 /\ length t' <= length t + 1)%nat.
Proof.
  intros [[_ ->] |
          [(l1 & x & l2 & m & -> & -> & _) |
           (l1 & x & l2 & y & l3 & lo & hi & m & -> & -> & _)]];
    repeat (rewrite ?length_app; simpl); lia.
Qed.

Lemma no_neighbour (n : vhost_memory_region) (l : region_table) :
  (forall z, In z l -> separate n z) -> filter (touchesb n) l = [].
Proof.
  induction l as [|z l IH]; intros H; simpl; [reflexivity|].
  replace (touchesb n z) with false
    by (symmetry; apply not_touchesb; apply H; left; reflexivity).
  apply IH. intros y Hy. apply H. right. exact Hy.
Qed.

(** A region away from [x] and from [n] that the join of the two
    neither continues nor is continued by does not touch [n]. *)
Lemma joined_others_separate x n m z :
  reg_ok x -> reg_ok n -> reg_ok z -> joined x n m ->
  disjoint x z -> disjoint n z -> separate m z -> separate n z.
Proof.
  intros Hx Hn Hz [[Hc ->] | [Hc ->]] Hd1 Hd2 Hs;
    unfold separate, continues, join, disjoint, apart, reg_ok in *;
    simpl in *; lia.
Qed.

Lemma triple_others_separate lo n hi m z :
  reg_ok lo -> reg_ok n -> reg_ok hi -> reg_ok z ->
  continues lo n -> continues n hi ->
  guest_phys_addr m = guest_phys_addr lo ->
  memory_size m = memory_size lo + memory_size n + memory_size hi ->
  userspace_addr m = userspace_addr lo ->
  disjoint lo z -> disjoint hi z -> disjoint n z ->
  separate m z -> separate n z.
Proof.
  unfold separate, continues, disjoint, apart, reg_ok. lia.
Qed.

(** The number of regions after assign, by the number of regions that
    the new one continues or is continued by. *)
Lemma assign_result_count t n t' :
  Forall reg_ok t -> non_overlapping t -> reg_ok n ->
  Forall (disjoint n) t -> assign_result t n t' ->
  (length t' + length (filter (touchesb n) t) = length t + 1 /\
   length (filter (touchesb n) t) <= 2)%nat.
Proof.
  intros Hall Hno Hn Hap Hres.
  rewrite Forall_forall in Hall, Hap.
  destruct Hres as
    [[Hsep ->] |
     [(l1 & x & l2 & m & Et & -> & Hj & Hsep) |
      (l1 & x & l2 & y & l3 & lo & hi & m & Et & -> & Hlo & Hhi & Hxy &
       Hg & Hs & Hu & Hsep)]].
  - rewrite no_neighbour by (rewrite Forall_forall in Hsep; exact Hsep).
    rewrite length_app. simpl. lia.
  - assert (Hx : reg_ok x)
      by (apply Hall; rewrite Et; apply in_or_app; right; left; reflexivity).
    assert (Hothers : forall z, In z (l1 ++ l2) -> separate n z).
    { intros z Hz. rewrite Forall_forall in Hsep.
      assert (Hzt : In z t).
      { rewrite Et. apply in_app_or in Hz. apply in_or_app.
        destruct Hz; auto. right. right. assumption. }
      apply (joined_others_separate x n m z); auto.
      apply (FOP_sym_in disjoint t disjoint_sym Hno l1 x l2 Et z Hz). }
    assert (Htx : touchesb n x = true)
      by (apply touchesb_spec; apply (joined_touches_self x n m Hj)).
    rewrite Et, filter_app. cbn [filter]. rewrite Htx.
    rewrite (no_neighbour n l1)
      by (intros z Hz; apply Hothers; apply in_or_app; auto).
    rewrite (no_neighbour n l2)
      by (intros z Hz; apply Hothers; apply in_or_app; auto).
    repeat (rewrite ?length_app; simpl). lia.
  - assert (Hx : reg_ok x)
      by (apply Hall; rewrite Et; apply in_or_app; right; left; reflexivity).
    assert (Hy : reg_ok y).
    { apply Hall. rewrite Et. apply in_or_app. right. right.
      apply in_or_app. right. left. reflexivity. }
    assert (Hrlo : reg_ok lo) by (destruct Hxy as [[<- _]|[_ <-]]; auto).
    assert (Hrhi : reg_ok hi) by (destruct Hxy as [[_ <-]|[<- _]]; auto).
    assert (Hdx : forall z, In z (l1 ++ l2 ++ l3) -> disjoint x z).
    { intros z Hz.
      apply (FOP_sym_in disjoint t disjoint_sym Hno l1 x (l2 ++ y :: l3) Et).
      apply in_app_or in Hz. apply in_or_app. destruct Hz as [Hz|Hz]; auto.
      right. apply in_app_or in Hz. apply in_or_app.
      destruct Hz; auto. right. right. assumption. }
    assert (Hdy : forall z, In z (l1 ++ l2 ++ l3) -> disjoint y z).
    { intros z Hz.
      apply (FOP_sym_in disjoint t disjoint_sym Hno (l1 ++ x :: l2) y l3).
      - rewrite Et, <- app_assoc. reflexivity.
      - rewrite <- app_assoc. cbn [app].
        apply in_app_or in Hz. apply in_or_app. destruct Hz as [Hz|Hz]; auto.
        right. right. exact Hz. }
    assert (Hothers : forall z, In z (l1 ++ l2 ++ l3) -> separate n z).
    { intros z Hz. rewrite Forall_forall in Hsep.
      assert (Hzt : In z t).
      { rewrite Et. apply in_app_or in Hz. apply in_or_app.
        destruct Hz as [Hz|Hz]; auto. right. right.
        apply in_app_or in Hz. apply in_or_app.
        destruct Hz; auto. right. right. assumption. }
      apply (triple_others_separate lo n hi m z); auto.
      - destruct Hxy as [[<- _]|[_ <-]]; auto.
      - destruct Hxy as [[_ <-]|[<- _]]; auto. }
    assert (Htx : touchesb n x = true).
    { apply touchesb_spec. unfold touches.
      destruct Hxy as [[-> _]|[-> _]]; auto. }
    assert (Hty : touchesb n y = true).
    { apply touchesb_spec. unfold touches.
      destruct Hxy as [[_ ->]|[_ ->]]; auto. }
    rewrite Et, filter_app. cbn [filter]. rewrite Htx.
    rewrite filter_app. cbn [filter]. rewrite Hty.
    rewrite (no_neighbour n l1)
      by (intros z Hz; apply Hothers; apply in_or_app; auto).
    rewrite (no_neighbour n l2)
      by (intros z Hz; apply Hothers; apply in_or_app; right;
          apply in_or_app; auto).
    rewrite (no_neighbour n l3)
      by (intros z Hz; apply Hothers; apply in_or_app; right;
          apply in_or_app; auto).
    repeat (rewrite ?length_app; simpl). lia.
Qed.

(** X8: assign changes the number of regions by what the new range
    merges with.  With [k] the number of regions of the table that the
    new range continues, or that continue it, in guest and in host
    addresses alike, the new table has [length t + 1 - k] regions, and
    [k] is at most 2: one region more when the range is appended, as
    many when it merges with one neighbour, one less when it joins
    two. *)
Theorem assign_changes_length_by_one (t : region_table) (g s uaddr : Z) :
  rt_inv t -> reg_ok (mkreg g s uaddr) -> Forall (apart g s) t ->
  exists t',
    vhost_dev_assign_memory t g s uaddr = Some t' /\
    (length t' + length (filter (touchesb (mkreg g s uaddr)) t)
     = length t + 1 /\
     length (filter (touchesb (mkreg g s uaddr)) t) <= 2)%nat.
Proof.
  intros Hinv Hn Hap.
  destruct (assign_inv g s uaddr t Hn Hinv Hap) as (t' & Hrun & _ & Hres).
  exists t'. split; [exact Hrun|].
  destruct Hinv as [[Hall Hno] _].
  apply (assign_result_count t (mkreg g s uaddr) t' Hall Hno Hn); auto.
Qed.

Lemma assign_changes_length_by_one_witness :
  exists t',
    vhost_dev_assign_memory
      [mkreg 8192 4096 1879056384; mkreg 0 4096 1879048192]
      4096 4096 1879052288 = Some t' /\
    (length t' +
     length (filter (touchesb (mkreg 4096 4096 1879052288))
               [mkreg 8192 4096 1879056384; mkreg 0 4096 1879048192])
     = length [mkreg 8192 4096 1879056384; mkreg 0 4096 1879048192] + 1 /\
     length (filter (touchesb (mkreg 4096 4096 1879052288))
               [mkreg 8192 4096 1879056384; mkreg 0 4096 1879048192])
     <= 2)%nat.
Proof.
  apply assign_changes_length_by_one.
  - unfold rt_inv, table_ok, non_overlapping, merge_maximal, reg_ok, disjoint,
      apart, separate, continues, U64; simpl.
    concrete.
  - unfold reg_ok, U64; simpl. lia.
  - unfold apart. concrete.
Defined.

Lemma cut_middle g s r :
  0 <= s -> guest_phys_addr r < g -> g + s < reg_end r ->
  cut_keep g s r = [low_part g r] /\ cut_spill g s r = [high_part g s r].
Proof.
  intros H0 H1 H2. unfold cut_keep, cut_spill, classify.
  unfold reg_end in *. repeat decide_if. auto.
Qed.

(** Remapping the inside of a region: unassign splits the region in
    two, and assign, which finds nothing to merge the range with, appends
    it. *)
Lemma remap_adds_two (t : region_table)
  (r : vhost_memory_region) (g s uaddr : Z) :
  rt_inv t -> In r t -> reg_ok (mkreg g s uaddr) ->
  guest_phys_addr r < g -> g + s < reg_end r ->
  uaddr <> userspace_addr r + (g - guest_phys_addr r) ->
  exists t1 t2,
    vhost_dev_unassign_memory t g s = Some t1 /\
    vhost_dev_assign_memory t1 g s uaddr = Some t2 /\
    length t1 = (length t + 1)%nat /\
    length t2 = (length t + 2)%nat.
Proof.
  intros Hinv Hr Hn Hlo Hhi Hua.
  assert (Hg : range_ok g s) by (unfold reg_ok, range_ok in *; simpl in *; lia).
  destruct (rt_inv_wf t Hinv) as [Hwf _].
  pose proof (unassign_exact g s t (range_ok_wf g s Hg) Hwf) as Hun.
  destruct (unassign_inv g s t Hg Hinv) as (t1 & Hrun1 & Hinv1 & Hap1).
  assert (Et1 : t1 = unassign_result g s t) by congruence.
  destruct (assign_inv g s uaddr t1 Hn Hinv1 Hap1) as (t2 & Hrun2 & _ & Hres).
  exists t1, t2. split; [exact Hrun1|]. split; [exact Hrun2|].
  cut (length t1 = (length t + 1)%nat /\
       (length t1 = (length t + 1)%nat -> length t2 = (length t + 2)%nat));
    [tauto|].
  (* the table after unassign *)
  destruct (in_split r t Hr) as (l1 & l2 & Et).
  destruct Hinv as [[Hall Hno] _].
  assert (Hrok : reg_ok r) by (rewrite Forall_forall in Hall; auto).
  assert (Hothers : forall z, In z (l1 ++ l2) -> reg_ok z /\ disjoint r z).
  { intros z Hz. split.
    - rewrite Forall_forall in Hall. apply Hall. rewrite Et.
      apply in_app_or in Hz. apply in_or_app.
      destruct Hz; auto. right. right. assumption.
    - apply (FOP_sym_in disjoint t disjoint_sym Hno l1 r l2 Et z Hz). }
  assert (Hapart : Forall (apart g s) (l1 ++ l2)).
  { rewrite Forall_forall. intros z Hz. destruct (Hothers z Hz) as [Hz1 Hz2].
    unfold disjoint, apart, reg_ok, reg_end in *. lia. }
  apply Forall_app in Hapart. destruct Hapart as [Hap_l1 Hap_l2].
  assert (Eres : t1 = l1 ++ low_part g r :: l2 ++ [high_part g s r]).
  { rewrite Et1. unfold unassign_result. rewrite Et.
    rewrite !flat_map_cons_app.
    destruct (cut_all_apart g s l1 Hap_l1) as [-> ->].
    destruct (cut_all_apart g s l2 Hap_l2) as [-> ->].
    destruct (cut_middle g s r) as [-> ->];
      [unfold range_ok in Hg; lia | assumption | assumption |].
    simpl. rewrite <- app_assoc. reflexivity. }
  (* nothing in it touches the new range *)
  assert (Hsep : forall z, In z t1 -> separate (mkreg g s uaddr) z).
  { intros z Hz. rewrite Eres in Hz.
    apply in_app_or in Hz. destruct Hz as [Hz | [<- | Hz]].
    - destruct (Hothers z) as [Hz1 Hz2]; [apply in_or_app; auto|].
      unfold separate, continues, disjoint, apart, reg_ok, reg_end in *;
        simpl in *. lia.
    - unfold separate, continues, low_part, reg_ok, reg_end in *; simpl in *.
      lia.
    - apply in_app_or in Hz. destruct Hz as [Hz | [<- | []]].
      + destruct (Hothers z) as [Hz1 Hz2]; [apply in_or_app; auto|].
        unfold separate, continues, disjoint, apart, reg_ok, reg_end in *;
          simpl in *. lia.
      + unfold separate, continues, high_part, reg_ok, reg_end in *;
          simpl in *. lia. }
  assert (Hlen1 : length t1 = (length t + 1)%nat).
  { rewrite Eres, Et. repeat (rewrite ?length_app; simpl). lia. }
  split; [exact Hlen1|]. intros _.
  destruct Hres as
    [[_ ->] |
     [(k1 & x & k2 & m & E & _ & Hj & _) |
      (k1 & x & k2 & y & k3 & lo & hi & m & E & _ & Hclo & _ & Hxy & _)]].
  - rewrite length_app. simpl. lia.
  - exfalso.
    assert (Hx : In x t1)
      by (rewrite E; apply in_or_app; right; left; reflexivity).
    pose proof (joined_touches_self x _ m Hj) as Ht.
    destruct (Hsep x Hx). unfold touches in Ht. tauto.
  - exfalso.
    assert (Hlo' : In lo t1).
    { rewrite E. destruct Hxy as [[<- _] | [_ <-]].
      - apply in_or_app. right. left. reflexivity.
      - apply in_or_app. right. right. apply in_or_app. right. left.
        reflexivity. }
    destruct (Hsep lo Hlo'). tauto.
Qed.


(** X9: [vhost_set_memory] does not return from an add that maps a range
    strictly inside a region to another host address than the region
    gives it.  Unassign splits the region and assign appends the range,
    both without a failed assertion; that makes two regions more than
    the table held, one more than the array was sized for on entry, so
    the append is a store past the array. *)
Theorem remap_inside_region_overflows {G : LogGeometry}
  (section : MemoryRegionSection) (add : bool) (w : world)
  (r : vhost_memory_region) :
  let d := w_dev w in
  let g := offset_within_address_space section in
  let s := section_size section in
  let ram := event_ram section in
  rt_inv (mem d) -> reg_ok (mkreg g s ram) ->
  event_add section add = true ->
  In r (mem d) -> guest_phys_addr r < g -> g + s < reg_end r ->
  ram <> userspace_addr r + (g - guest_phys_addr r) ->
  (exists t1 t2,
     vhost_dev_unassign_memory (mem d) g s = Some t1 /\
     vhost_dev_assign_memory t1 g s ram = Some t2 /\
     length t1 = (length (mem d) + 1)%nat /\
     length t2 = (length (mem d) + 2)%nat) /\
  vhost_set_memory section add w = None.
Proof.
  intros d g s ram Hinv Hn Hadd Hr Hlo Hhi Hram.
  destruct (remap_adds_two (mem d) r g s ram Hinv Hr Hn Hlo Hhi Hram)
    as (t1 & t2 & Hrun1 & Hrun2 & Hlen1 & Hlen2).
  split; [exists t1, t2; auto|].
  destruct (rt_inv_wf (mem d) Hinv) as [Hwf _].
  assert (Hcmp : vhost_dev_cmp_memory (mem d) g s ram = true).
  { destruct (vhost_dev_cmp_memory (mem d) g s ram) eqn:E; [reflexivity|].
    exfalso. apply Hram.
    assert (Hmap : maps_byte (mem d) g (ram + (g - g))).
    { apply (cmp_false_mapped (mem d) g s ram); auto;
        unfold reg_ok in Hn; simpl in Hn; unfold range_wf; lia. }
    replace (ram + (g - g)) with ram in Hmap by lia.
    apply (maps_byte_unique (mem d) g _ _ (proj2 Hwf) Hmap).
    exists r. split; [exact Hr|]. unfold covers, reg_end in *.
    unfold reg_ok in Hn. simpl in Hn. split; [lia | reflexivity]. }
  unfold vhost_set_memory, bind, get_dev, massert, lift.
  fold d g s ram.
  replace (negb (s =? 0)) with true
    by (unfold reg_ok in Hn; simpl in Hn; lia).
  rewrite Hadd, Hcmp. cbn [negb]. rewrite Hrun1.
  replace (length t1 <=? S (length (mem d)))%nat with true
    by (symmetry; apply Nat.leb_le; lia).
  rewrite Hrun2.
  replace (length t2 <=? S (length (mem d)))%nat with false
    by (symmetry; apply Nat.leb_gt; lia).
  reflexivity.
Qed.

Lemma remap_inside_region_overflows_witness :
  (exists t1 t2,
     vhost_dev_unassign_memory [mkreg 0 12288 2147483648] 4096 4096
     = Some t1 /\
     vhost_dev_assign_memory t1 4096 4096 2415919104 = Some t2 /\
     length t1 = (length [mkreg 0 12288 2147483648] + 1)%nat /\
     length t2 = (length [mkreg 0 12288 2147483648] + 2)%nat) /\
  @vhost_set_memory lp64
    (mksection (mkmr 1 2415919104 false) 0 4096 4096) true
    (mkworld (mkdev [mkreg 0 12288 2147483648] [] [] 0 false false [] 0)
       (mkacc 0 [] 0 (fun _ => None)) [] 0 (fun _ _ => (0, 0)) [])
  = None.
Proof.
  apply (@remap_inside_region_overflows lp64
           (mksection (mkmr 1 2415919104 false) 0 4096 4096) true
           (mkworld (mkdev [mkreg 0 12288 2147483648] [] [] 0 false false
                       [] 0)
              (mkacc 0 [] 0 (fun _ => None)) [] 0 (fun _ _ => (0, 0)) [])
           (mkreg 0 12288 2147483648)).
  - unfold rt_inv, table_ok, non_overlapping, merge_maximal, reg_ok, U64;
      simpl. concrete.
  - assert (E : event_ram (mksection (mkmr 1 2415919104 false) 0 4096 4096)
                = 2415919104) by (vm_compute; reflexivity).
    rewrite E. unfold reg_ok, U64. simpl. lia.
  - reflexivity.
  - left. reflexivity.
  - simpl. lia.
  - unfold reg_end. simpl. lia.
  - assert (E : event_ram (mksection (mkmr 1 2415919104 false) 0 4096 4096)
                = 2415919104) by (vm_compute; reflexivity).
    rewrite E. simpl. lia.
Defined.

(** ** What a sync reports and clears *)

Section SyncExact.
Context {G : LogGeometry}.

Lemma clear_bit_other (x b j : Z) :
  0 <= b < 64 -> 0 <= j < 64 ->
  Z.testbit (Z.land x (u64 (Z.lnot (Z.shiftl 1 b)))) j
  = if j =? b then false else Z.testbit x j.
Proof.
  intros Hb Hj. rewrite Z.land_spec. unfold u64, U64.
  change 18446744073709551616 with (2 ^ 64).
  rewrite Z.mod_pow2_bits_low by lia.
  rewrite Z.lnot_spec by lia. rewrite Z.shiftl_spec by lia.
  destruct (Z.eqb_spec j b) as [-> | Hne].
  - rewrite Z.sub_diag. simpl. apply andb_false_r.
  - destruct (Z.ltb_spec j b).
    + rewrite (Z.testbit_neg_r 1 (j - b)) by lia. simpl. apply andb_true_r.
    + replace (Z.testbit 1 (j - b)) with false.
      * simpl. apply andb_true_r.
      * symmetry. change 1 with (2 ^ 0).
        apply Z.pow2_bits_false. lia.
Qed.

Lemma filter_none {A} (f : A -> bool) (l : list A) :
  (forall x, In x l -> f x = false) -> filter f l = [].
Proof.
  induction l as [|a l IH]; simpl; intros H; [reflexivity|].
  rewrite (H a) by auto. apply IH. auto.
Qed.

Lemma bits_first (f : Z -> bool) (p n : nat) :
  forall a : nat,
  (a <= p < a + n)%nat ->
  (forall j, (a <= j < p)%nat -> f (Z.of_nat j) = false) ->
  f (Z.of_nat p) = true ->
  filter f (map Z.of_nat (seq a n))
  = Z.of_nat p :: filter f (map Z.of_nat (seq (S p) (a + n - S p))).
Proof.
  induction n as [|n IH]; intros a Hp Hlow Hset; [lia|].
  simpl. destruct (Nat.eq_dec a p) as [-> | Hne].
  - rewrite Hset. replace (p + S n - S p)%nat with n by lia. reflexivity.
  - rewrite (Hlow a) by lia. rewrite (IH (S a)); [|lia| |assumption].
    + replace (S a + n - S p)%nat with (a + S n - S p)%nat by lia.
      reflexivity.
    + intros j Hj. apply Hlow. lia.
Qed.

Lemma harvest_exact (section : MemoryRegionSection) (fuel : nat) :
  forall (k : nat) x,
  (k <= Z.to_nat VHOST_LOG_BITS)%nat ->
  (forall j, 0 <= j < Z.of_nat k -> Z.testbit x j = false) ->
  (Z.to_nat VHOST_LOG_BITS - k < fuel)%nat ->
  harvest fuel section x
  = Some (map (dirty_page section)
            (filter (Z.testbit x)
               (map Z.of_nat (seq k (Z.to_nat VHOST_LOG_BITS - k))))).
Proof.
  pose proof VHOST_LOG_BITS_range as HB.
  induction fuel as [|fuel IH]; intros k x Hk Hlow Hfuel; [lia|].
  cbn [harvest]. unfold ffs.
  destruct (ffs_from_spec (Z.to_nat VHOST_LOG_BITS) 0 x (Z.le_refl 0))
    as [[E Hnone] | (Hrange & Hset & Hbelow)].
  - rewrite E. simpl. rewrite filter_none; [reflexivity|].
    intros j Hj. apply in_map_iff in Hj. destruct Hj as (i & <- & Hi).
    apply in_seq in Hi. apply Hnone. lia.
  - set (bit := ffs_from (Z.to_nat VHOST_LOG_BITS) 0 x) in *.
    replace (bit =? 0) with false by lia.
    assert (Hp : exists p : nat, bit - 1 = Z.of_nat p).
    { exists (Z.to_nat (bit - 1)). lia. }
    destruct Hp as [p Ep]. rewrite Ep in *.
    assert (Hkp : (k <= p)%nat).
    { destruct (le_lt_dec k p) as [|Hlt]; [assumption|].
      rewrite Hlow in Hset by lia. discriminate. }
    rewrite (bits_first (Z.testbit x) p _ k); [|lia| |assumption].
    2:{ intros j Hj. apply Hbelow. lia. }
    rewrite (IH (S p)); [| lia | | lia].
    + unfold obind. simpl. unfold dirty_page at 2. do 3 f_equal.
      replace (k + (Z.to_nat VHOST_LOG_BITS - k) - S p)%nat
        with (Z.to_nat VHOST_LOG_BITS - S p)%nat by lia.
      apply filter_ext_in. intros j Hj.
      apply in_map_iff in Hj. destruct Hj as (i & <- & Hi).
      apply in_seq in Hi.
      rewrite clear_bit_other by lia.
      replace (Z.of_nat i =? Z.of_nat p) with false by lia. reflexivity.
    + intros j Hj.
      destruct (Z.eq_dec j (Z.of_nat p)) as [-> | Hne].
      * rewrite clear_bit_other by lia. rewrite Z.eqb_refl. reflexivity.
      * rewrite clear_bit_other by lia.
        replace (j =? Z.of_nat p) with false by lia. apply Hbelow. lia.
Qed.

(** X10: the inner loop over one harvested log word reports every bit
    set among the word's [VHOST_LOG_BITS] low bits exactly once, lowest
    bit first, as one page at the section's offset plus the bit's page
    offset; it never runs out of steps. *)
Theorem harvest_reports_set_bits (section : MemoryRegionSection) (word : Z) :
  harvest (S (Z.to_nat VHOST_LOG_BITS)) section word
  = Some (map (dirty_page section) (dirty_bits word)).
Proof.
  rewrite (harvest_exact section _ 0 word); try lia.
  rewrite Nat.sub_0_r. reflexivity.
Qed.

End SyncExact.

Section SyncWindow.
Context {G : LogGeometry}.

Lemma array_store_length {A} (l : list A) (i : nat) (x : A) :
  length (array_store l i x) = length l.
Proof.
  revert i. induction l as [|a l IH]; intros [|i]; simpl; auto.
Qed.

Lemma array_store_nth_same (l : list Z) (i : nat) :
  nth i (array_store l i 0) 0 = 0.
Proof.
  revert i. induction l as [|a l IH]; intros [|i]; simpl; auto.
Qed.

Lemma array_store_nth_other {A} (l : list A) (i j : nat) (x d : A) :
  i <> j -> nth j (array_store l i x) d = nth j l d.
Proof.
  revert i j. induction l as [|a l IH]; intros [|i] [|j] H; simpl; auto.
  congruence.
Qed.

Lemma dirty_bits_zero : dirty_bits 0 = [].
Proof.
  unfold dirty_bits. apply filter_none. intros x _. apply Z.testbit_0_l.
Qed.

Lemma set_dirty_calls_app (a b : list event) :
  set_dirty_calls (a ++ b) = set_dirty_calls a ++ set_dirty_calls b.
Proof. apply filter_app. Qed.

Lemma set_dirty_calls_pages (section : MemoryRegionSection) (bits : list Z) :
  set_dirty_calls (map (dirty_page section) bits)
  = map (dirty_page section) bits.
Proof.
  induction bits as [|b l IH]; simpl; [reflexivity|]. f_equal. exact IH.
Qed.

Lemma pages_of_ext (section : MemoryRegionSection) (lg1 lg2 : list Z)
  (words : list nat) :
  (forall i, In i words -> nth i lg1 0 = nth i lg2 0) ->
  pages_of section lg1 words = pages_of section lg2 words.
Proof.
  induction words as [|i l IH]; intros H; simpl; [reflexivity|].
  rewrite (H i) by (left; reflexivity). f_equal. apply IH.
  intros j Hj. apply H. right. exact Hj.
Qed.

Lemma pages_of_zero (section : MemoryRegionSection) (lg : list Z)
  (words : list nat) :
  (forall i, In i words -> nth i lg 0 = 0) ->
  pages_of section lg words = [].
Proof.
  induction words as [|i l IH]; intros H; simpl; [reflexivity|].
  rewrite (H i) by (left; reflexivity). rewrite dirty_bits_zero. simpl.
  apply IH. intros j Hj. apply H. right. exact Hj.
Qed.

(** The [for] loop over [count] words from word [from] on. *)
Lemma sync_chunks_exact (section : MemoryRegionSection) (count : nat) :
  forall from addr lg,
  0 <= from ->
  exists lg' evs,
    sync_chunks count section from addr lg = Some (lg', evs) /\
    length lg' = length lg /\
    (forall i, In i (seq (Z.to_nat from) count) -> nth i lg' 0 = 0) /\
    (forall i, ~ In i (seq (Z.to_nat from) count) ->
       nth i lg' 0 = nth i lg 0) /\
    set_dirty_calls evs
    = pages_of section lg (seq (Z.to_nat from) count).
Proof.
  induction count as [|count IH]; intros from addr lg Hfrom.
  - exists lg, []. simpl. repeat split; auto. intros i [].
  - cbn [sync_chunks].
    assert (Enext : Z.to_nat (from + 1) = S (Z.to_nat from)) by lia.
    destruct (Z.eqb_spec (nth (Z.to_nat from) lg 0) 0) as [Ez | Hnz].
    + destruct (IH (from + 1) (u64 (addr + VHOST_LOG_CHUNK)) lg)
        as (lg' & evs & Hrun & Hlen & Hin & Hout & Hev); [lia|].
      rewrite Hrun. unfold obind. cbn [fst snd].
      exists lg', (LogLoad from :: evs). rewrite Enext in *.
      split; [reflexivity|]. split; [exact Hlen|].
      split; [|split].
      * intros i [<- | Hi]; [|auto].
        rewrite Hout; [exact Ez|]. rewrite in_seq. lia.
      * intros i Hi. apply Hout. intros Hi'. apply Hi. right. exact Hi'.
      * cbn [seq pages_of flat_map]. rewrite Ez, dirty_bits_zero.
        simpl. exact Hev.
    + rewrite (harvest_exact section _ 0 (nth (Z.to_nat from) lg 0));
        [|lia|simpl; lia|lia].
      rewrite Nat.sub_0_r. fold (dirty_bits (nth (Z.to_nat from) lg 0)).
      destruct (IH (from + 1) (u64 (addr + VHOST_LOG_CHUNK))
                  (array_store lg (Z.to_nat from) 0))
        as (lg' & evs & Hrun & Hlen & Hin & Hout & Hev); [lia|].
      unfold obind at 1. rewrite Hrun. unfold obind. cbn [fst snd].
      rewrite Enext in *.
      eexists lg', _. split; [reflexivity|].
      split; [rewrite Hlen; apply array_store_length|].
      split; [|split].
      * intros i [<- | Hi]; [|auto].
        rewrite Hout; [apply array_store_nth_same|]. rewrite in_seq. lia.
      * intros i Hi. rewrite Hout.
        -- apply array_store_nth_other. intros E. apply Hi. left.
           exact E.
        -- intros Hi'. apply Hi. right. exact Hi'.
      * cbn [set_dirty_calls filter].
        fold (set_dirty_calls
                (map (dirty_page section)
                   (dirty_bits (nth (Z.to_nat from) lg 0)) ++ evs)).
        rewrite set_dirty_calls_app, set_dirty_calls_pages, Hev.
        cbn [seq pages_of flat_map]. f_equal.
        apply pages_of_ext. intros i Hi. apply in_seq in Hi.
        apply array_store_nth_other. lia.
Qed.

(** [vhost_dev_sync_region] as a whole, when it returns. *)
Lemma sync_region_exact lg lg_size section mfirst mlast rfirst rlast lg' evs :
  0 <= mfirst ->
  vhost_dev_sync_region lg lg_size section mfirst mlast rfirst rlast
  = Some (lg', evs) ->
  length lg' = length lg /\
  (forall i, In i (window_words mfirst mlast rfirst rlast) ->
     nth i lg' 0 = 0) /\
  (forall i, ~ In i (window_words mfirst mlast rfirst rlast) ->
     nth i lg' 0 = nth i lg 0) /\
  set_dirty_calls evs
  = pages_of section lg (window_words mfirst mlast rfirst rlast).
Proof.
  intros Hm. unfold vhost_dev_sync_region, window_words.
  destruct (MIN mlast rlast <? MAX mfirst rfirst) eqn:Hempty.
  - intros [= <- <-]. simpl. repeat split; auto. intros i [].
  - unfold assert, obind.
    destruct (MIN mlast rlast / VHOST_LOG_CHUNK <? lg_size); [|discriminate].
    destruct (MAX mfirst rfirst / VHOST_LOG_CHUNK <? lg_size);
      [|discriminate].
    intros Hrun.
    pose proof VHOST_LOG_CHUNK_range as HC.
    assert (Hfrom : 0 <= MAX mfirst rfirst / VHOST_LOG_CHUNK).
    { apply Z.div_pos; [|lia]. rewrite MAX_spec. lia. }
    destruct (sync_chunks_exact section
                (Z.to_nat (MIN mlast rlast / VHOST_LOG_CHUNK + 1
                           - MAX mfirst rfirst / VHOST_LOG_CHUNK))
                (MAX mfirst rfirst / VHOST_LOG_CHUNK)
                (u64 (MAX mfirst rfirst / VHOST_LOG_CHUNK * VHOST_LOG_CHUNK))
                lg Hfrom)
      as (lg2 & evs2 & Hrun2 & H).
    rewrite Hrun2 in Hrun. injection Hrun as <- <-. exact H.
Qed.

End SyncWindow.

Section SyncTheorems.
Context {G : LogGeometry}.

Lemma sync_region_runs lg lg_size section mfirst mlast rfirst rlast :
  MIN mlast rlast / VHOST_LOG_CHUNK < lg_size ->
  exists r,
    vhost_dev_sync_region lg lg_size section mfirst mlast rfirst rlast
    = Some r /\
    (forall i, In i (log_indices (snd r)) ->
       MAX mfirst rfirst <= MIN mlast rlast /\
       MAX mfirst rfirst / VHOST_LOG_CHUNK <= i
       <= MIN mlast rlast / VHOST_LOG_CHUNK).
Proof.
  intros Hend. unfold vhost_dev_sync_region.
  pose proof VHOST_LOG_CHUNK_range as HC.
  destruct (Z.ltb_spec (MIN mlast rlast) (MAX mfirst rfirst)) as [Hlt | Hle].
  - eexists. split; [reflexivity|]. intros i [].
  - assert (Hdiv : MAX mfirst rfirst / VHOST_LOG_CHUNK
                   <= MIN mlast rlast / VHOST_LOG_CHUNK)
      by (apply Z.div_le_mono; lia).
    run_ifs.
    destruct (sync_chunks_ok section
                (Z.to_nat (MIN mlast rlast / VHOST_LOG_CHUNK + 1
                           - MAX mfirst rfirst / VHOST_LOG_CHUNK))
                (MAX mfirst rfirst / VHOST_LOG_CHUNK)
                (u64 (MAX mfirst rfirst / VHOST_LOG_CHUNK * VHOST_LOG_CHUNK))
                lg)
      as (lg' & evs & Hrun & Hidx).
    exists (lg', evs). split; [exact Hrun|].
    intros i Hi. apply Hidx in Hi. simpl. lia.
Qed.

(** Whether [vhost_dev_sync_region] returns does not depend on the
    contents of the log. *)
Lemma sync_region_guard lg lg_size section mfirst mlast rfirst rlast r :
  vhost_dev_sync_region lg lg_size section mfirst mlast rfirst rlast
  = Some r ->
  forall lg2, exists r2,
    vhost_dev_sync_region lg2 lg_size section mfirst mlast rfirst rlast
    = Some r2.
Proof.
  unfold vhost_dev_sync_region.
  destruct (MIN mlast rlast <? MAX mfirst rfirst).
  - intros _ lg2. eexists. reflexivity.
  - unfold assert, obind.
    destruct (MIN mlast rlast / VHOST_LOG_CHUNK <? lg_size); [|discriminate].
    destruct (MAX mfirst rfirst / VHOST_LOG_CHUNK <? lg_size);
      [|discriminate].
    intros _ lg2.
    destruct (sync_chunks_ok section
                (Z.to_nat (MIN mlast rlast / VHOST_LOG_CHUNK + 1
                           - MAX mfirst rfirst / VHOST_LOG_CHUNK))
                (MAX mfirst rfirst / VHOST_LOG_CHUNK)
                (u64 (MAX mfirst rfirst / VHOST_LOG_CHUNK * VHOST_LOG_CHUNK))
                lg2)
      as (lg' & evs & Hrun & _).
    exists (lg', evs). exact Hrun.
Qed.

Lemma same_words (l1 l2 : list Z) :
  length l1 = length l2 -> (forall i, nth i l1 0 = nth i l2 0) -> l1 = l2.
Proof.
  intros Hlen H. apply (nth_ext l1 l2 0 0 Hlen). intros i _. apply H.
Qed.

(** X11: [vhost_dev_sync_region] sets to zero the log words of its
    window, that is the words that cover the bytes shared by the
    section's range and the region's range, and changes no other word
    nor the length of the log. *)
Theorem sync_region_clears_window (lg : list Z) (lg_size : Z)
  (section : MemoryRegionSection) (mfirst mlast rfirst rlast : Z) :
  0 <= mfirst ->
  MIN mlast rlast / VHOST_LOG_CHUNK < lg_size ->
  exists lg' evs,
    vhost_dev_sync_region lg lg_size section mfirst mlast rfirst rlast
    = Some (lg', evs) /\
    length lg' = length lg /\
    (forall i, In i (window_words mfirst mlast rfirst rlast) ->
       nth i lg' 0 = 0) /\
    (forall i, ~ In i (window_words mfirst mlast rfirst rlast) ->
       nth i lg' 0 = nth i lg 0).
Proof.
  intros Hm Hend.
  destruct (sync_region_runs lg lg_size section mfirst mlast rfirst rlast
              Hend) as ([lg' evs] & Hrun & _).
  exists lg', evs. split; [exact Hrun|].
  destruct (sync_region_exact _ _ _ _ _ _ _ _ _ Hm Hrun)
    as (H1 & H2 & H3 & _).
  auto.
Qed.

(** X12: the pages that [vhost_dev_sync_region] reports dirty are those
    of the bits set in the words of its window, word by word in
    ascending order and within a word lowest bit first; the address
    reported for a bit does not depend on the word that holds it. *)
Theorem sync_region_reports_window (lg : list Z) (lg_size : Z)
  (section : MemoryRegionSection) (mfirst mlast rfirst rlast : Z) :
  0 <= mfirst ->
  MIN mlast rlast / VHOST_LOG_CHUNK < lg_size ->
  exists lg' evs,
    vhost_dev_sync_region lg lg_size section mfirst mlast rfirst rlast
    = Some (lg', evs) /\
    set_dirty_calls evs
    = flat_map
        (fun i => map (dirty_page section) (dirty_bits (nth i lg 0)))
        (window_words mfirst mlast rfirst rlast).
Proof.
  intros Hm Hend.
  destruct (sync_region_runs lg lg_size section mfirst mlast rfirst rlast
              Hend) as ([lg' evs] & Hrun & _).
  exists lg', evs. split; [exact Hrun|].
  destruct (sync_region_exact _ _ _ _ _ _ _ _ _ Hm Hrun)
    as (_ & _ & _ & H).
  exact H.
Qed.

End SyncTheorems.

Lemma sync_region_clears_window_witness :
  exists lg' evs,
    @vhost_dev_sync_region lp64 [5; 6; 7] 3 example_section
      0 524287 262144 786431 = Some (lg', evs) /\
    length lg' = length [5; 6; 7] /\
    (forall i, In i (@window_words lp64 0 524287 262144 786431) ->
       nth i lg' 0 = 0) /\
    (forall i, ~ In i (@window_words lp64 0 524287 262144 786431) ->
       nth i lg' 0 = nth i [5; 6; 7] 0).
Proof.
  apply (@sync_region_clears_window lp64); [lia | vm_compute; reflexivity].
Defined.

Lemma sync_region_reports_window_witness :
  exists lg' evs,
    @vhost_dev_sync_region lp64 [5; 6; 7] 3 example_section
      0 524287 262144 786431 = Some (lg', evs) /\
    set_dirty_calls evs
    = flat_map
        (fun i => map (@dirty_page lp64 example_section)
                    (@dirty_bits lp64 (nth i [5; 6; 7] 0)))
        (@window_words lp64 0 524287 262144 786431).
Proof.
  apply (@sync_region_reports_window lp64); [lia | vm_compute; reflexivity].
Defined.

Section SyncBitmap.
Context {G : LogGeometry}.

(** A sync over words that are all zero reports nothing and leaves the
    log as it is. *)
Lemma sync_region_rerun lg lg_size section mfirst mlast rfirst rlast r :
  0 <= mfirst ->
  vhost_dev_sync_region lg lg_size section mfirst mlast rfirst rlast
  = Some r ->
  forall lg2,
  (forall i, In i (window_words mfirst mlast rfirst rlast) ->
     nth i lg2 0 = 0) ->
  exists evs2,
    vhost_dev_sync_region lg2 lg_size section mfirst mlast rfirst rlast
    = Some (lg2, evs2) /\
    set_dirty_calls evs2 = [].
Proof.
  intros Hm Hrun lg2 Hzero.
  destruct (sync_region_guard _ _ _ _ _ _ _ _ Hrun lg2) as ([lg3 evs3] & H3).
  destruct (sync_region_exact _ _ _ _ _ _ _ _ _ Hm H3)
    as (Hlen & Hin & Hout & Hev).
  assert (E : lg3 = lg2).
  { apply same_words; [exact Hlen|]. intros i.
    destruct (in_dec Nat.eq_dec i (window_words mfirst mlast rfirst rlast))
      as [Hi | Hi].
    - rewrite Hin, Hzero; auto.
    - apply Hout. exact Hi. }
  subst lg3. exists evs3. split; [exact H3|].
  rewrite Hev. apply pages_of_zero. exact Hzero.
Qed.

Lemma sync_ranges_exact lg_size section mfirst mlast (ranges : list (Z * Z)) :
  0 <= mfirst ->
  forall lg lg' evs,
  sync_ranges lg lg_size section mfirst mlast ranges = Some (lg', evs) ->
  length lg' = length lg /\
  (forall i, nth i lg 0 = 0 -> nth i lg' 0 = 0) /\
  (forall r i, In r ranges ->
     In i (window_words mfirst mlast (fst r) (snd r)) -> nth i lg' 0 = 0) /\
  (forall i,
     (forall r, In r ranges ->
        ~ In i (window_words mfirst mlast (fst r) (snd r))) ->
     nth i lg' 0 = nth i lg 0) /\
  (forall lg2,
     (forall r i, In r ranges ->
        In i (window_words mfirst mlast (fst r) (snd r)) ->
        nth i lg2 0 = 0) ->
     exists evs2,
       sync_ranges lg2 lg_size section mfirst mlast ranges
       = Some (lg2, evs2) /\
       set_dirty_calls evs2 = []).
Proof.
  intros Hm. induction ranges as [|[rfirst rlast] rest IH];
    intros lg lg' evs Hrun.
  - simpl in Hrun. injection Hrun as <- <-.
    split; [reflexivity|]. split; [auto|]. split; [intros r i []|].
    split; [auto|]. intros lg2 _. exists []. split; reflexivity.
  - cbn [sync_ranges] in Hrun. unfold obind in Hrun.
    destruct (vhost_dev_sync_region lg lg_size section mfirst mlast
                rfirst rlast) as [[lg1 evs1]|] eqn:H1; [|discriminate].
    cbn [fst snd] in Hrun.
    destruct (sync_ranges lg1 lg_size section mfirst mlast rest)
      as [[lg2 evs2]|] eqn:H2; [|discriminate].
    cbn [fst snd] in Hrun. injection Hrun as <- <-.
    destruct (sync_region_exact _ _ _ _ _ _ _ _ _ Hm H1)
      as (Hlen1 & Hin1 & Hout1 & _).
    destruct (IH lg1 lg2 evs2 H2) as (Hlen2 & Hkeep2 & Hin2 & Hout2 & Hre2).
    assert (Hkeep1 : forall i, nth i lg 0 = 0 -> nth i lg1 0 = 0).
    { intros i Hi.
      destruct (in_dec Nat.eq_dec i (window_words mfirst mlast rfirst rlast))
        as [Hw | Hw]; [auto|]. rewrite Hout1; assumption. }
    split; [congruence|]. split; [auto|]. split; [|split].
    + intros r i [<- | Hr] Hi; [|eauto]. apply Hkeep2. apply Hin1. exact Hi.
    + intros i Hi. rewrite Hout2.
      * apply Hout1. apply (Hi (rfirst, rlast)). left. reflexivity.
      * intros r Hr. apply Hi. right. exact Hr.
    + intros lg3 Hzero.
      destruct (sync_region_rerun _ _ _ _ _ _ _ _ Hm H1 lg3)
        as (evs3 & Hrun3 & Hev3).
      { intros i Hi. apply (Hzero (rfirst, rlast)); [left; reflexivity|].
        exact Hi. }
      destruct (Hre2 lg3) as (evs4 & Hrun4 & Hev4).
      { intros r i Hr Hi. apply (Hzero r); [right|]; assumption. }
      exists (evs3 ++ evs4). cbn [sync_ranges]. rewrite Hrun3.
      unfold obind. cbn [fst snd]. rewrite Hrun4. cbn [fst snd].
      split; [reflexivity|].
      rewrite set_dirty_calls_app, Hev3, Hev4. reflexivity.
Qed.

(** X13: a second [vhost_sync_dirty_bitmap] of the same range right
    after one that returned returns too, reports no page and leaves the
    device, the log included, as the first left it. *)
Theorem resync_reports_nothing (section : MemoryRegionSection)
  (start_addr end_addr : Z) (w w1 : world) (r : Z) :
  0 <= start_addr ->
  sync_dirty_bitmap section start_addr end_addr w = Some (r, w1) ->
  exists w2,
    sync_dirty_bitmap section start_addr end_addr w1 = Some (0, w2) /\
    w_dev w2 = w_dev w1 /\
    set_dirty_calls (w_trace w2) = set_dirty_calls (w_trace w1).
Proof.
  intros Hs. unfold sync_dirty_bitmap, bind, get_dev, lift, put_dev, emit, ret.
  destruct (vhost_sync_dirty_bitmap (w_dev w) section start_addr end_addr)
    as [[lg1 evs1]|] eqn:H1; [|discriminate].
  cbn [fst snd w_dev w_acc w_script w_errno w_map w_trace].
  intros [= _ <-].
  cbn [fst snd w_dev w_acc w_script w_errno w_map w_trace].
  unfold vhost_sync_dirty_bitmap in *.
  cbn [mem vqs log log_size log_enabled started mem_sections acked_features].
  destruct (negb (log_enabled (w_dev w)) || negb (started (w_dev w))).
  - eexists. split; [reflexivity|].
    cbn [fst snd w_dev w_acc w_script w_errno w_map w_trace].
    split; [reflexivity|]. rewrite set_dirty_calls_app, app_nil_r.
    reflexivity.
  - unfold logged_ranges in *.
    cbn [mem vqs log log_size log_enabled started mem_sections
           acked_features].
    destruct (sync_ranges_exact _ _ _ _ _ Hs _ _ _ H1)
      as (_ & _ & Hzero & _ & Hre).
    destruct (Hre lg1 Hzero) as (evs2 & Hrun2 & Hev2).
    rewrite Hrun2. eexists. split; [reflexivity|].
    cbn [fst snd w_dev w_acc w_script w_errno w_map w_trace].
    split; [reflexivity|]. rewrite set_dirty_calls_app, Hev2, app_nil_r.
    reflexivity.
Qed.

End SyncBitmap.

Lemma resync_reports_nothing_witness :
  exists w2,
    @sync_dirty_bitmap lp64 example_section 0 524288
      (mkworld (example_sync_dev 0 0) (mkacc 0 [] 0 (fun _ => None)) [] 0
         (fun _ _ => (0, 0))
         [LogLoad 0; LogLoad 1; LogFetchAnd 1; SetDirty 7 12288 4096])
    = Some (0, w2) /\
    w_dev w2 = example_sync_dev 0 0 /\
    set_dirty_calls (w_trace w2) = [SetDirty 7 12288 4096].
Proof.
  apply (@resync_reports_nothing lp64 example_section 0 524288
           (mkworld (example_sync_dev 0 8) (mkacc 0 [] 0 (fun _ => None)) [] 0
              (fun _ _ => (0, 0)) [])
           (mkworld (example_sync_dev 0 0) (mkacc 0 [] 0 (fun _ => None)) [] 0
              (fun _ _ => (0, 0))
              [LogLoad 0; LogLoad 1; LogFetchAnd 1; SetDirty 7 12288 4096])
           0).
  - lia.
  - vm_compute. reflexivity.
Defined.

Section SyncCovered.
Context {G : LogGeometry}.

Lemma sync_ranges_covered lg_size section mfirst mlast
  (ranges : list (Z * Z)) :
  0 <= mfirst ->
  (forall r, In r ranges -> snd r / VHOST_LOG_CHUNK < lg_size) ->
  forall lg,
  exists res,
    sync_ranges lg lg_size section mfirst mlast ranges = Some res /\
    forall i, In i (log_indices (snd res)) -> 0 <= i < lg_size.
Proof.
  intros Hm. pose proof VHOST_LOG_CHUNK_range as HC.
  induction ranges as [|[rfirst rlast] rest IH]; intros Hall lg.
  - eexists. split; [reflexivity|]. intros i [].
  - assert (Hlast : rlast / VHOST_LOG_CHUNK < lg_size)
      by (apply (Hall (rfirst, rlast)); left; reflexivity).
    assert (Hend : MIN mlast rlast / VHOST_LOG_CHUNK
                   <= rlast / VHOST_LOG_CHUNK)
      by (apply Z.div_le_mono; [lia | rewrite MIN_spec; lia]).
    assert (Hstart : 0 <= MAX mfirst rfirst / VHOST_LOG_CHUNK)
      by (apply Z.div_pos; [rewrite MAX_spec; lia | lia]).
    destruct (sync_region_runs lg lg_size section mfirst mlast rfirst rlast)
      as ([lg1 evs1] & Hrun1 & Hidx1); [lia|].
    destruct (IH (fun r Hr => Hall r (or_intror Hr)) lg1)
      as ([lg2 evs2] & Hrun2 & Hidx2).
    cbn [sync_ranges]. rewrite Hrun1. unfold obind. cbn [fst snd].
    rewrite Hrun2. cbn [fst snd]. eexists. split; [reflexivity|].
    cbn [snd]. intros i Hi. rewrite log_indices_app in Hi.
    apply in_app_or in Hi. destruct Hi as [Hi | Hi]; [|auto].
    apply Hidx1 in Hi. cbn [snd] in Hi. lia.
Qed.

(** X14: a log of at least [vhost_get_log_size] words is large enough
    for any sync.  Whatever range is synced, [vhost_sync_dirty_bitmap]
    returns, and every log word it reads or clears lies inside the
    log. *)
Theorem sized_log_sync_completes (dev : vhost_dev)
  (section : MemoryRegionSection) (start_addr end_addr : Z) :
  0 <= start_addr ->
  vhost_get_log_size dev <= log_size dev ->
  exists lg' evs,
    vhost_sync_dirty_bitmap dev section start_addr end_addr
    = Some (lg', evs) /\
    forall i, In i (log_indices evs) -> 0 <= i < log_size dev.
Proof.
  intros Hs Hsize. unfold vhost_sync_dirty_bitmap.
  destruct (negb (log_enabled dev) || negb (started dev)).
  - exists (log dev), []. split; [reflexivity|]. intros i [].
  - destruct (sync_ranges_covered (log_size dev) section start_addr end_addr
                (logged_ranges dev) Hs) with (lg := log dev)
      as ([lg' evs] & Hrun & Hidx).
    + intros r Hr. rewrite vhost_get_log_size_max in Hsize.
      assert (chunks_upto (snd r)
              <= max_of (map (fun r => chunks_upto (snd r))
                           (logged_ranges dev))).
      { apply max_of_upper. apply in_map_iff. exists r. auto. }
      unfold chunks_upto in *. lia.
    + exists lg', evs. split; [exact Hrun | exact Hidx].
Qed.

End SyncCovered.

Lemma sized_log_sync_completes_witness :
  exists lg' evs,
    @vhost_sync_dirty_bitmap lp64 (example_sync_dev 0 8) example_section
      0 1048576 = Some (lg', evs) /\
    forall i, In i (log_indices evs) ->
      0 <= i < log_size (example_sync_dev 0 8).
Proof.
  apply (@sized_log_sync_completes lp64); [lia | vm_compute; discriminate].
Defined.

(** ** Log size and region table *)

Section LogNeed.
Context {G : LogGeometry}.

Lemma max_of_le_iff (l : list Z) (n : Z) :
  0 <= n -> (max_of l <= n <-> forall x, In x l -> x <= n).
Proof.
  intros Hn. split.
  - intros H x Hx. pose proof (max_of_upper l x Hx). lia.
  - intros H. apply max_of_le; [exact Hn|]. rewrite Forall_forall. exact H.
Qed.

(** The words a region needs are those its bytes need. *)
Lemma region_need (r : vhost_memory_region) (n : Z) :
  reg_wf r ->
  (chunks_upto (snd (region_range r)) <= n <->
   forall a, guest_phys_addr r <= a < reg_end r -> a / VHOST_LOG_CHUNK < n).
Proof.
  intros (H1 & H2 & H3 & _). pose proof VHOST_LOG_CHUNK_range as HC.
  unfold region_range, range_get_last, chunks_upto, reg_end. cbn [snd].
  rewrite u64_small by lia. split.
  - intros H a Ha.
    assert (a / VHOST_LOG_CHUNK
            <= (guest_phys_addr r + memory_size r - 1) / VHOST_LOG_CHUNK)
      by (apply Z.div_le_mono; lia).
    lia.
  - intros H.
    specialize (H (guest_phys_addr r + memory_size r - 1)). lia.
Qed.

(** The words the table needs are those the bytes it maps need. *)
Lemma table_need (t : region_table) (n : Z) :
  Forall reg_wf t -> 0 <= n ->
  (max_of (map (fun r => chunks_upto (snd r)) (map region_range t)) <= n <->
   forall a h, maps_byte t a h -> a / VHOST_LOG_CHUNK < n).
Proof.
  intros Hall Hn. rewrite Forall_forall in Hall.
  rewrite max_of_le_iff by exact Hn. split.
  - intros H a h (r & Hr & Hc & _).
    apply (region_need r n (Hall r Hr)); [|exact Hc].
    apply H. rewrite map_map. apply in_map_iff. exists r. auto.
  - intros H x Hx. rewrite map_map in Hx. apply in_map_iff in Hx.
    destruct Hx as (r & <- & Hr). apply region_need; [auto|].
    intros a Ha.
    apply (H a (userspace_addr r + (a - guest_phys_addr r))).
    exists r. split; [exact Hr|]. split; [exact Ha | reflexivity].
Qed.

Lemma log_size_with_mem (dev : vhost_dev) (t : region_table) :
  vhost_get_log_size (with_mem dev t)
  = Z.max (max_of (map (fun r => chunks_upto (snd r)) (map region_range t)))
      (max_of (map (fun r => chunks_upto (snd r)) (map used_range (vqs dev)))).
Proof.
  rewrite vhost_get_log_size_max. unfold logged_ranges, with_mem.
  cbn [mem vqs]. rewrite map_app. apply max_of_app.
Qed.

Lemma with_mem_self (dev : vhost_dev) : with_mem dev (mem dev) = dev.
Proof. destruct dev. reflexivity. Qed.

(** X15: taking a guest range out of the region table never raises the
    number of log words that [vhost_get_log_size] asks for. *)
Theorem unassign_never_grows_log (dev : vhost_dev) (g s : Z) :
  table_wf (mem dev) -> range_wf g s ->
  exists t',
    vhost_dev_unassign_memory (mem dev) g s = Some t' /\
    vhost_get_log_size (with_mem dev t') <= vhost_get_log_size dev.
Proof.
  intros Hwf Hg. exists (unassign_result g s (mem dev)).
  split; [apply unassign_exact; assumption|].
  pose proof (log_size_with_mem dev (mem dev)) as Hold.
  rewrite with_mem_self in Hold. rewrite Hold, log_size_with_mem.
  apply Z.max_le_compat_r.
  pose proof (max_of_nonneg
                (map (fun r => chunks_upto (snd r))
                   (map region_range (mem dev)))) as Hnn.
  destruct (unassign_table_wf g s (mem dev) Hg Hwf) as [Hall' _].
  apply (table_need _ _ Hall' Hnn).
  intros a h Hmap.
  destruct Hwf as [Hall _].
  apply (unassign_result_maps g s (mem dev) a h Hg Hall) in Hmap.
  destruct Hmap as [Hmap _].
  apply (proj1 (table_need (mem dev) _ Hall Hnn) (Z.le_refl _) a h Hmap).
Qed.

(** X16: putting a new guest range into the region table raises the
    number of log words that [vhost_get_log_size] asks for to what the
    last byte of the range needs, and not at all when that is less than
    before. *)
Theorem assign_log_need (dev : vhost_dev) (g s uaddr : Z) :
  rt_inv (mem dev) -> reg_ok (mkreg g s uaddr) ->
  Forall (apart g s) (mem dev) ->
  exists t',
    vhost_dev_assign_memory (mem dev) g s uaddr = Some t' /\
    vhost_get_log_size (with_mem dev t')
    = Z.max (vhost_get_log_size dev) ((g + s - 1) / VHOST_LOG_CHUNK + 1).
Proof.
  intros Hinv Hn Hap.
  destruct (assign_inv g s uaddr (mem dev) Hn Hinv Hap)
    as (t' & Hrun & Hinv' & Hres).
  exists t'. split; [exact Hrun|].
  pose proof (log_size_with_mem dev (mem dev)) as Hold.
  rewrite with_mem_self in Hold. rewrite Hold, log_size_with_mem.
  clear Hold.
  set (Q := max_of (map (fun r => chunks_upto (snd r))
                      (map used_range (vqs dev)))).
  set (A := max_of (map (fun r => chunks_upto (snd r))
                      (map region_range (mem dev)))).
  set (A' := max_of (map (fun r => chunks_upto (snd r))
                       (map region_range t'))).
  set (c := (g + s - 1) / VHOST_LOG_CHUNK + 1).
  pose proof VHOST_LOG_CHUNK_range as HC.
  assert (HA : 0 <= A) by apply max_of_nonneg.
  assert (HA' : 0 <= A') by apply max_of_nonneg.
  assert (Hc : 0 <= c).
  { unfold c. unfold reg_ok in Hn. simpl in Hn.
    assert (0 <= (g + s - 1) / VHOST_LOG_CHUNK) by (apply Z.div_pos; lia).
    lia. }
  destruct Hinv as [[Hall _] _]. destruct Hinv' as [[Hall' _] _].
  assert (Hwf : Forall reg_wf (mem dev))
    by (eapply Forall_impl; [|exact Hall]; apply reg_ok_wf).
  assert (Hwf' : Forall reg_wf t')
    by (eapply Forall_impl; [|exact Hall']; apply reg_ok_wf).
  assert (Hnew : forall n, c <= n <->
            forall a h, covers (mkreg g s uaddr) a h ->
                        a / VHOST_LOG_CHUNK < n).
  { intros n. unfold covers, reg_end. simpl. unfold reg_ok in Hn.
    simpl in Hn. split.
    - intros H a h [Ha _].
      assert (a / VHOST_LOG_CHUNK <= (g + s - 1) / VHOST_LOG_CHUNK)
        by (apply Z.div_le_mono; lia).
      unfold c in H. lia.
    - intros H. specialize (H (g + s - 1) (uaddr + (g + s - 1 - g))).
      unfold c. lia. }
  assert (Hiff : forall n, 0 <= n -> (A' <= n <-> A <= n /\ c <= n)).
  { intros n Hn0. unfold A', A.
    rewrite (table_need t' n Hwf' Hn0), (table_need (mem dev) n Hwf Hn0).
    rewrite Hnew. split.
    - intros H. split; intros a h Hm; apply (H a h);
        apply (assign_result_maps _ _ _ a h Hall Hn Hres); auto.
    - intros [H1 H2] a h Hm.
      apply (assign_result_maps _ _ _ a h Hall Hn Hres) in Hm.
      destruct Hm; eauto. }
  assert (E : A' = Z.max A c).
  { apply Z.le_antisymm.
    - apply (Hiff (Z.max A c)); lia.
    - destruct (proj1 (Hiff A' HA') (Z.le_refl _)). lia. }
  rewrite E. lia.
Qed.

End LogNeed.

Lemma unassign_never_grows_log_witness :
  exists t',
    vhost_dev_unassign_memory (mem (example_sync_dev 0 0)) 262144 262144
    = Some t' /\
    @vhost_get_log_size lp64 (with_mem (example_sync_dev 0 0) t')
    <= @vhost_get_log_size lp64 (example_sync_dev 0 0).
Proof.
  apply (@unassign_never_grows_log lp64).
  - unfold table_wf, non_overlapping, reg_wf, U64. simpl. concrete.
  - unfold range_wf, U64. lia.
Defined.

Lemma assign_log_need_witness :
  exists t',
    vhost_dev_assign_memory (mem (example_sync_dev 0 0))
      1048576 262144 2147483648 = Some t' /\
    @vhost_get_log_size lp64 (with_mem (example_sync_dev 0 0) t')
    = Z.max (@vhost_get_log_size lp64 (example_sync_dev 0 0))
        ((1048576 + 262144 - 1) / @VHOST_LOG_CHUNK lp64 + 1).
Proof.
  apply (@assign_log_need lp64).
  - unfold rt_inv, table_ok, non_overlapping, merge_maximal, reg_ok, U64.
    simpl. concrete.
  - unfold reg_ok, U64. simpl. lia.
  - simpl. repeat constructor. unfold apart. simpl. lia.
Defined.

(** ** Ring mappings *)

Section RingMappings.
Context {G : LogGeometry}.

(** The loop of [vhost_verify_ring_mappings], from any queue on. *)
Lemma verify_from_spec (queues : list vhost_virtqueue)
  (start_addr size : Z) (w : world) :
  exists r,
    verify_ring_mappings_from queues start_addr size w = Some (r, w) /\
    (r = 0 \/ r = - ENOMEM \/ r = - EBUSY) /\
    (r = 0 <->
     Forall (fun vq =>
               ranges_overlap start_addr size (ring_phys vq) (ring_size vq)
               = true ->
               w_map w (ring_phys vq) (ring_size vq)
               = (ring vq, ring_size vq) /\
               ring vq <> 0) queues).
Proof.
  induction queues as [|vq rest IH].
  - exists 0. split; [reflexivity|]. split; [auto|]. split; auto.
  - cbn [verify_ring_mappings_from].
    destruct IH as (r & Hrun & Hval & Hiff).
    destruct (ranges_overlap start_addr size (ring_phys vq) (ring_size vq))
      eqn:Hov; cbn [negb].
    + destruct (w_map w (ring_phys vq) (ring_size vq)) as [p l] eqn:Hmap.
      destruct (Z.eqb_spec p 0) as [Hp | Hp]; cbn [orb].
      * exists (- ENOMEM). split; [reflexivity|]. split; [auto|].
        split; [discriminate|].
        intros H. inversion H as [|? ? Hvq _]; subst.
        destruct (Hvq Hov) as [E Hne]. congruence.
      * destruct (Z.eqb_spec l (ring_size vq)) as [Hl | Hl]; cbn [negb].
        -- destruct (Z.eqb_spec p (ring vq)) as [Hr | Hr]; cbn [negb].
           ++ exists r. split; [exact Hrun|]. split; [exact Hval|].
              rewrite Hiff. split.
              ** intros H. constructor; [|exact H]. intros _.
                 split; congruence.
              ** intros H. inversion H; assumption.
           ++ exists (- EBUSY). split; [reflexivity|]. split; [auto|].
              split; [discriminate|].
              intros H. inversion H as [|? ? Hvq _]; subst.
              destruct (Hvq Hov) as [E _]. congruence.
        -- exists (- ENOMEM). split; [reflexivity|]. split; [auto|].
           split; [discriminate|].
           intros H. inversion H as [|? ? Hvq _]; subst.
           destruct (Hvq Hov) as [E _]. congruence.
    + exists r. split; [exact Hrun|]. split; [exact Hval|].
      rewrite Hiff. split.
      * intros H. constructor; [|exact H]. intros Habs. congruence.
      * intros H. inversion H; assumption.
Qed.

(** X17: [vhost_verify_ring_mappings] changes nothing and returns 0,
    [-ENOMEM] or [-EBUSY]; it returns 0 exactly when every queue whose
    ring overlaps the changed range is still mapped whole, not at the
    null address, and at the address the device holds for it. *)
Theorem verify_ring_mappings_spec (start_addr size : Z) (w : world) :
  exists r,
    vhost_verify_ring_mappings start_addr size w = Some (r, w) /\
    (r = 0 \/ r = - ENOMEM \/ r = - EBUSY) /\
    (r = 0 <->
     Forall (fun vq =>
               ranges_overlap start_addr size (ring_phys vq) (ring_size vq)
               = true ->
               w_map w (ring_phys vq) (ring_size vq)
               = (ring vq, ring_size vq) /\
               ring vq <> 0) (vqs (w_dev w))).
Proof.
  unfold vhost_verify_ring_mappings, bind, get_dev.
  apply verify_from_spec.
Qed.

End RingMappings.

(** ** The table of a region event *)

Lemma flat_map_nil_all {A B} (f : A -> list B) (l : list A) :
  (forall x, In x l -> f x = []) -> flat_map f l = [].
Proof.
  induction l as [|x l IH]; intros H; simpl; [reflexivity|].
  rewrite (H x) by (left; reflexivity). apply IH.
  intros y Hy. apply H. right. exact Hy.
Qed.

(** The table that a region event which changes something computes, and
    the room it takes. *)
Lemma event_table_change (t : region_table) (g s ram : Z) (add : bool) :
  rt_inv t -> reg_ok (mkreg g s ram) ->
  (add = true -> vhost_dev_cmp_memory t g s ram = true) ->
  (add = true -> fits_room t g s ram) ->
  exists m1 m2,
    vhost_dev_unassign_memory t g s = Some m1 /\
    (if add then vhost_dev_assign_memory m1 g s ram
     else vhost_dev_unassign_memory m1 g s) = Some m2 /\
    (length m1 <= S (length t))%nat /\
    (length m2 <= S (length t))%nat /\
    rt_inv m2 /\
    forall a h,
      maps_byte m2 a h <->
      (maps_byte t a h /\ ~ (g <= a < g + s)) \/
      (add = true /\ g <= a < g + s /\ h = ram + (a - g)).
Proof.
  intros Hinv Hn Hcmp Hfit.
  assert (Hg : range_ok g s)
    by (unfold reg_ok, range_ok in *; simpl in *; lia).
  pose proof (range_ok_wf g s Hg) as Hgw.
  destruct (rt_inv_wf t Hinv) as [Hwf Hmm].
  pose proof Hwf as [Hall _].
  destruct (unassign_inv g s t Hg Hinv) as (t1 & Hrun1 & Hinv1 & Hap1).
  pose proof (unassign_exact g s t Hgw Hwf) as Hex.
  assert (Et1 : t1 = unassign_result g s t) by congruence.
  assert (Hlen1 : (length t1 <= S (length t))%nat).
  { rewrite Et1. unfold unassign_result. rewrite length_app.
    pose proof (length_flat_map_le (cut_keep g s) t
                  (fun x => proj1 (cut_lengths g s x))).
    pose proof (spill_length g s t Hgw Hwf). lia. }
  exists t1. destruct add.
  - destruct (assign_inv g s ram t1 Hn Hinv1 Hap1)
      as (t2 & Hrun2 & Hinv2 & Hres).
    exists t2. split; [exact Hrun1|]. split; [exact Hrun2|].
    split; [exact Hlen1|]. split; [|split; [exact Hinv2|]].
    + (* no region is split: the range would be mapped already *)
      assert (Hspill : flat_map (cut_spill g s) t = []).
      { apply flat_map_nil_all. intros r Hr.
        destruct (cut_spill_cases g s r) as [E | (_ & Hlo & Hhi)];
          [exact E|].
        exfalso.
        pose proof (Hfit eq_refl r Hr Hlo Hhi) as Hram.
        assert (Hfalse : vhost_dev_cmp_memory t g s ram = false).
        { apply mapped_cmp_false; auto;
            try (unfold reg_ok in Hn; simpl in Hn; lia).
          intros a Ha. exists r. split; [exact Hr|].
          unfold covers, reg_end in *. lia. }
        rewrite (Hcmp eq_refl) in Hfalse. discriminate. }
      assert (Hlen1' : (length t1 <= length t)%nat).
      { rewrite Et1. unfold unassign_result.
        rewrite Hspill, app_nil_r.
        apply (length_flat_map_le (cut_keep g s) t
                 (fun x => proj1 (cut_lengths g s x))). }
      pose proof (assign_result_length t1 (mkreg g s ram) t2 Hres). lia.
    + intros a h. destruct Hinv1 as [[Hall1 _] _].
      rewrite (assign_result_maps t1 (mkreg g s ram) t2 a h Hall1 Hn Hres).
      rewrite Et1, (unassign_result_maps g s t a h Hgw Hall).
      unfold covers, reg_end. simpl. tauto.
  - destruct (unassign_inv g s t1 Hg Hinv1) as (t2 & Hrun2 & Hinv2 & _).
    destruct (rt_inv_wf t1 Hinv1) as [Hwf1 _].
    pose proof (unassign_exact g s t1 Hgw Hwf1) as Hex2.
    assert (Et2 : t2 = unassign_result g s t1) by congruence.
    exists t2. split; [exact Hrun1|]. split; [exact Hrun2|].
    split; [exact Hlen1|]. split; [|split; [exact Hinv2|]].
    + (* the second unassign finds nothing to cut *)
      rewrite Et2. unfold unassign_result.
      destruct (cut_all_apart g s t1 Hap1) as [-> ->].
      rewrite app_nil_r. exact Hlen1.
    + intros a h.
      rewrite Et2, (unassign_result_maps g s t1 a h Hgw (proj1 Hwf1)).
      rewrite Et1, (unassign_result_maps g s t a h Hgw Hall).
      split; [tauto|]. intros [H | (Habs & _)]; [tauto | discriminate].
Qed.

(** ** Region events on a stopped device *)

Section StoppedDevice.
Context {G : LogGeometry}.
Local Open Scope vhost_scope.

Lemma world_with_mem_self (w : world) :
  mkworld (with_mem (w_dev w) (mem (w_dev w))) (w_acc w) (w_script w)
    (w_errno w) (w_map w) (w_trace w) = w.
Proof. rewrite with_mem_self. destruct w. reflexivity. Qed.

(** A region event on a device that is not started. *)
Lemma set_memory_stopped (section : MemoryRegionSection) (add : bool)
  (w : world) :
  let d := w_dev w in
  let g := offset_within_address_space section in
  let s := section_size section in
  let ram := event_ram section in
  started d = false -> rt_inv (mem d) -> reg_ok (mkreg g s ram) ->
  (event_add section add = true -> fits_room (mem d) g s ram) ->
  exists t',
    vhost_set_memory section add w
    = Some (tt, mkworld (with_mem d t') (w_acc w) (w_script w) (w_errno w)
                  (w_map w) (w_trace w)) /\
    rt_inv t' /\
    forall a h,
      maps_byte t' a h <->
      (maps_byte (mem d) a h /\ ~ (g <= a < g + s)) \/
      (event_add section add = true /\ g <= a < g + s /\
       h = ram + (a - g)).
Proof.
  intros d g s ram Hst Hinv Hn Hfit.
  assert (Hg : range_ok g s)
    by (unfold reg_ok, range_ok in *; simpl in *; lia).
  pose proof (range_ok_wf g s Hg) as Hgw.
  destruct (rt_inv_wf (mem d) Hinv) as [Hwf Hmm].
  pose proof Hwf as [Hall Hno].
  unfold vhost_set_memory. unfold bind at 1. unfold get_dev at 1.
  fold d g s ram.
  unfold bind at 1. unfold massert at 1.
  replace (negb (s =? 0)) with true by (unfold range_ok in Hg; lia).
  match goal with
  | |- context [if ?c then ret tt else _] => destruct c eqn:Hskip
  end.
  - (* nothing changes *)
    exists (mem d). unfold ret. fold d.
    split; [unfold d; rewrite world_with_mem_self; reflexivity|].
    split; [exact Hinv|].
    destruct (event_add section add) eqn:Hadd.
    + assert (Hcmp : vhost_dev_cmp_memory (mem d) g s ram = false)
        by (destruct (vhost_dev_cmp_memory (mem d) g s ram);
            [discriminate | reflexivity]).
      assert (Hmapped : forall a, g <= a < g + s ->
                maps_byte (mem d) a (ram + (a - g))).
      { apply (cmp_false_mapped (mem d) g s ram); auto;
          unfold reg_ok in Hn; simpl in Hn; lia. }
      intros a h. split.
      * intros Hm.
        destruct (Z.lt_ge_cases a g) as [|Hge];
          [left; split; [assumption | lia]|].
        destruct (Z.lt_ge_cases a (g + s)) as [Hlt|];
          [|left; split; [assumption | lia]].
        right. split; [reflexivity|]. split; [lia|].
        apply (maps_byte_unique (mem d) a h (ram + (a - g)) Hno Hm).
        apply Hmapped. lia.
      * intros [[Hm _] | (_ & Ha & ->)];
          [exact Hm | apply Hmapped; exact Ha].
    + destruct (vhost_dev_find_reg (mem d) g s) as [r|] eqn:Hfind;
        [discriminate|].
      apply (find_reg_none g s (mem d) Hgw Hall) in Hfind.
      rewrite Forall_forall in Hfind.
      intros a h. split.
      * intros Hm. left. split; [exact Hm|].
        destruct Hm as (r & Hr & Hc & _). specialize (Hfind r Hr).
        unfold apart, reg_end in *. lia.
      * intros [[Hm _] | (Habs & _)]; [exact Hm | discriminate].
  - (* the table changes *)
    destruct (event_table_change (mem d) g s ram (event_add section add)
                Hinv Hn) as (m1 & m2 & Hrun1 & Hrun2 & Hl1 & Hl2 & Hinv2 & Hmap).
    + intros Hadd. rewrite Hadd in Hskip.
      destruct (vhost_dev_cmp_memory (mem d) g s ram);
        [reflexivity | discriminate].
    + exact Hfit.
    + exists m2.
      unfold bind at 1. unfold lift at 1. rewrite Hrun1.
      unfold bind at 1. unfold massert at 1.
      replace (length m1 <=? S (length (mem d)))%nat with true
        by (symmetry; apply Nat.leb_le; exact Hl1).
      unfold bind at 1. unfold lift at 1. rewrite Hrun2.
      unfold bind at 1. unfold massert at 1.
      replace (length m2 <=? S (length (mem d)))%nat with true
        by (symmetry; apply Nat.leb_le; exact Hl2).
      unfold bind at 1. unfold set_mem, bind, get_dev, put_dev.
      rewrite Hst. cbn [negb]. unfold ret.
      split; [reflexivity|]. split; [exact Hinv2 | exact Hmap].
Qed.

(** X18: a region event on a device that is not started, other than an
    add that would remap the inside of a region, returns, sends nothing
    to the accelerator and changes nothing but the region table.  The
    new table satisfies the invariants and maps what the old one mapped
    outside the section's range; inside the range it maps, after an add
    of a section that is not being logged, every guest byte to the host
    byte at the same offset in the section's memory, and nothing after
    any other event. *)
Theorem region_event_stopped (section : MemoryRegionSection) (add : bool)
  (w : world) :
  let d := w_dev w in
  let g := offset_within_address_space section in
  let s := section_size section in
  let ram := event_ram section in
  started d = false -> rt_inv (mem d) -> reg_ok (mkreg g s ram) ->
  (event_add section add = true -> fits_room (mem d) g s ram) ->
  exists t',
    vhost_set_memory section add w
    = Some (tt, mkworld (with_mem d t') (w_acc w) (w_script w) (w_errno w)
                  (w_map w) (w_trace w)) /\
    rt_inv t' /\
    forall a h,
      maps_byte t' a h <->
      (maps_byte (mem d) a h /\ ~ (g <= a < g + s)) \/
      (event_add section add = true /\ g <= a < g + s /\
       h = ram + (a - g)).
Proof.
  intros d g s ram Hst Hinv Hn Hfit.
  apply set_memory_stopped; assumption.
Qed.

End StoppedDevice.

Lemma region_event_stopped_witness :
  exists t',
    @vhost_set_memory lp64
      (mksection (mkmr 1 1879048192 false) 0 1048576 4096) true
      (mkworld example_small_dev (mkacc 0 [] 0 (fun _ => None)) [] 0
         (fun _ _ => (0, 0)) [])
    = Some (tt, mkworld (with_mem example_small_dev t')
                  (mkacc 0 [] 0 (fun _ => None)) [] 0
                  (fun _ _ => (0, 0)) []) /\
    rt_inv t' /\
    forall a h,
      maps_byte t' a h <->
      (maps_byte (mem example_small_dev) a h /\
       ~ (4096 <= a < 4096 + 1048576)) \/
      (event_add (mksection (mkmr 1 1879048192 false) 0 1048576 4096) true
       = true /\
       4096 <= a < 4096 + 1048576 /\
       h = event_ram (mksection (mkmr 1 1879048192 false) 0 1048576 4096)
           + (a - 4096)).
Proof.
  apply (@region_event_stopped lp64
           (mksection (mkmr 1 1879048192 false) 0 1048576 4096) true
           (mkworld example_small_dev (mkacc 0 [] 0 (fun _ => None)) [] 0
              (fun _ _ => (0, 0)) [])).
  - reflexivity.
  - unfold rt_inv, table_ok, non_overlapping, merge_maximal, reg_ok, U64.
    simpl. concrete.
  - assert (E : event_ram
                  (mksection (mkmr 1 1879048192 false) 0 1048576 4096)
                = 1879048192) by (vm_compute; reflexivity).
    rewrite E. unfold reg_ok, U64. simpl. lia.
  - intros _ r [<- | []] H1 H2. unfold reg_end in H2. simpl in *. lia.
Defined.

(** ** Region events on a started device *)

Section StartedDevice.
Context {G : LogGeometry}.
Local Open Scope vhost_scope.

Lemma log_size_same_but_log (d d' : vhost_dev) :
  same_but_log d d' -> vhost_get_log_size d' = vhost_get_log_size d.
Proof.
  intros (Hm & Hq & _). unfold vhost_get_log_size. rewrite Hm, Hq.
  reflexivity.
Qed.

Lemma log_size_with_queue (d : vhost_dev) :
  vqs d <> [] -> 0 < vhost_get_log_size d.
Proof.
  intros Hq. destruct (vqs d) as [|vq rest] eqn:E; [congruence|].
  rewrite vhost_get_log_size_max.
  assert (Hin : In (chunks_upto (snd (used_range vq)))
                  (map (fun r => chunks_upto (snd r)) (logged_ranges d))).
  { apply in_map_iff. exists (used_range vq). split; [reflexivity|].
    unfold logged_ranges. apply in_or_app. right. rewrite E. left.
    reflexivity. }
  apply max_of_upper in Hin.
  assert (0 < chunks_upto (snd (used_range vq))).
  { apply chunks_upto_pos. unfold used_range, range_get_last. cbn [snd].
    apply u64_range. }
  lia.
Qed.

(** The end of [vhost_set_memory] with the log disabled. *)
Lemma push_mem_table_plain (w : world) :
  log_enabled (w_dev w) = false ->
  all_succeed (w_script w) ->
  push_mem_table w
  = Some (tt, mkworld (w_dev w)
                (accept (VHOST_SET_MEM_TABLE (mem (w_dev w))) (w_acc w))
                (tl (w_script w)) (w_errno w) (w_map w)
                (w_trace w ++
                 [Ioctl (VHOST_SET_MEM_TABLE (mem (w_dev w))) true])).
Proof.
  intros Hlog Hs. unfold push_mem_table. unfold bind at 1.
  unfold get_dev at 1. rewrite Hlog. cbn [negb].
  unfold bind. rewrite ioctl_ok by (apply all_succeed_hd; exact Hs).
  unfold massert. cbn [Z.geb Z.compare]. reflexivity.
Qed.

(** The end of [vhost_set_memory] with the log enabled: what the
    accelerator is left with. *)
Lemma push_mem_table_acc (w : world) :
  log_enabled (w_dev w) = true ->
  0 < log_size (w_dev w) ->
  all_succeed (w_script w) ->
  exists w',
    push_mem_table w = Some (tt, w') /\
    same_but_log (w_dev w) (w_dev w') /\
    log_size (w_dev w')
    = (if log_size (w_dev w) <? vhost_get_log_size (w_dev w)
       then vhost_get_log_size (w_dev w) + VHOST_LOG_BUFFER
       else if log_size (w_dev w)
               >? vhost_get_log_size (w_dev w) + VHOST_LOG_BUFFER
            then vhost_get_log_size (w_dev w)
            else log_size (w_dev w)) /\
    w_acc w'
    = replay
        ((if log_size (w_dev w) <? vhost_get_log_size (w_dev w)
          then [VHOST_SET_LOG_BASE
                  (vhost_get_log_size (w_dev w) + VHOST_LOG_BUFFER)]
          else []) ++
         [VHOST_SET_MEM_TABLE (mem (w_dev w))] ++
         (if log_size (w_dev w)
             >? vhost_get_log_size (w_dev w) + VHOST_LOG_BUFFER
          then [VHOST_SET_LOG_BASE (vhost_get_log_size (w_dev w))]
          else []))
        (w_acc w) /\
    all_succeed (w_script w').
Proof.
  intros Hlog Hpos Hs.
  pose proof VHOST_LOG_BUFFER_range as Hbuf.
  pose proof (get_log_size_bounds (w_dev w)) as Hneed.
  unfold push_mem_table. unfold bind at 1. unfold get_dev at 1.
  rewrite Hlog. cbn [negb]. rewrite slack_no_wrap.
  set (need := vhost_get_log_size (w_dev w)) in *.
  destruct (Z.ltb_spec (log_size (w_dev w)) need) as [Hgrow|Hnogrow].
  - (* grow before the push *)
    destruct (log_resize_ok (need + VHOST_LOG_BUFFER) w Hs)
      as (w1 & Hrun & Hsame & Hsize & Hs1 & Hacc & _); [auto|].
    unfold bind at 1. rewrite Hrun.
    unfold bind at 1. unfold get_dev at 1.
    unfold bind at 1. rewrite ioctl_ok by (apply all_succeed_hd; exact Hs1).
    unfold bind at 1. unfold massert. cbn [Z.geb Z.compare].
    unfold bind at 1. unfold get_dev at 1. cbn [w_dev].
    rewrite Hsize.
    replace (need + VHOST_LOG_BUFFER >? need + VHOST_LOG_BUFFER) with false
      by lia.
    replace (log_size (w_dev w) >? need + VHOST_LOG_BUFFER) with false by lia.
    eexists. split; [reflexivity|]. cbn [w_dev w_acc w_script].
    split; [exact Hsame|]. split; [exact Hsize|].
    split; [|apply all_succeed_tl; exact Hs1].
    rewrite Hacc. destruct Hsame as (-> & _). reflexivity.
  - (* no growth *)
    unfold bind at 1. unfold ret at 1.
    unfold bind at 1. unfold get_dev at 1.
    unfold bind at 1. rewrite ioctl_ok by (apply all_succeed_hd; exact Hs).
    unfold bind at 1. unfold massert. cbn [Z.geb Z.compare].
    unfold bind at 1. unfold get_dev at 1. cbn [w_dev].
    destruct (Z.gtb_spec (log_size (w_dev w)) (need + VHOST_LOG_BUFFER))
      as [Hshrink|Hkeep].
    + (* shrink after the push *)
      match goal with
      | |- context [vhost_dev_log_resize need ?w0] =>
          destruct (log_resize_ok need w0)
            as (w2 & Hrun & Hsame & Hsize & Hs2 & Hacc & _)
      end.
      * cbn [w_script]. apply all_succeed_tl. exact Hs.
      * cbn [w_dev]. auto.
      * rewrite Hrun. eexists. split; [reflexivity|].
        cbn [w_dev w_acc] in *. split; [exact Hsame|].
        split; [exact Hsize|]. split; [|exact Hs2].
        rewrite Hacc. reflexivity.
    + unfold ret. eexists. split; [reflexivity|].
      cbn [w_dev w_acc w_script].
      split; [unfold same_but_log; tauto|]. split; [reflexivity|].
      split; [reflexivity|]. apply all_succeed_tl. exact Hs.
Qed.

(** X19: on a started device with at least one queue, a region event,
    other than an add that would remap the inside of a region, keeps
    device and accelerator in step.  If the accelerator holds the
    device's region table and, with the log enabled, a log of the size
    on record that is large enough, if every command succeeds and the
    rings that overlap the section are still mapped where they were,
    then the handler returns and all of this holds again afterwards, for
    the new table. *)
Theorem region_event_keeps_in_step (section : MemoryRegionSection)
  (add : bool) (w : world) :
  let d := w_dev w in
  let g := offset_within_address_space section in
  let s := section_size section in
  let ram := event_ram section in
  started d = true -> vqs d <> [] ->
  rt_inv (mem d) -> tables_in_step d (w_acc w) ->
  reg_ok (mkreg g s ram) ->
  (event_add section add = true -> fits_room (mem d) g s ram) ->
  all_succeed (w_script w) ->
  Forall (fun vq =>
            ranges_overlap g s (ring_phys vq) (ring_size vq) = true ->
            w_map w (ring_phys vq) (ring_size vq) = (ring vq, ring_size vq) /\
            ring vq <> 0) (vqs d) ->
  exists w',
    vhost_set_memory section add w = Some (tt, w') /\
    rt_inv (mem (w_dev w')) /\
    tables_in_step (w_dev w') (w_acc w') /\
    vqs (w_dev w') = vqs d /\ started (w_dev w') = true /\
    log_enabled (w_dev w') = log_enabled d /\
    all_succeed (w_script w').
Proof.
  intros d g s ram Hst Hq Hinv Hstep Hn Hfit Hs Hrings.
  unfold vhost_set_memory. unfold bind at 1. unfold get_dev at 1.
  fold d g s ram.
  unfold bind at 1. unfold massert at 1.
  replace (negb (s =? 0)) with true
    by (unfold reg_ok in Hn; simpl in Hn; lia).
  match goal with
  | |- context [if ?c then ret tt else _] => destruct c eqn:Hskip
  end.
  - (* nothing changes *)
    exists w. unfold ret. fold d. auto 10.
  - destruct (event_table_change (mem d) g s ram (event_add section add)
                Hinv Hn)
      as (m1 & m2 & Hrun1 & Hrun2 & Hl1 & Hl2 & Hinv2 & _);
      [|exact Hfit|].
    { intros Hadd. rewrite Hadd in Hskip.
      destruct (vhost_dev_cmp_memory (mem d) g s ram);
        [reflexivity | discriminate]. }
    unfold bind at 1. unfold lift at 1. rewrite Hrun1.
    unfold bind at 1. unfold massert at 1.
    replace (length m1 <=? S (length (mem d)))%nat with true
      by (symmetry; apply Nat.leb_le; exact Hl1).
    unfold bind at 1. unfold lift at 1. rewrite Hrun2.
    unfold bind at 1. unfold massert at 1.
    replace (length m2 <=? S (length (mem d)))%nat with true
      by (symmetry; apply Nat.leb_le; exact Hl2).
    unfold bind at 1. unfold set_mem at 1, bind at 1, get_dev at 1,
      put_dev at 1.
    rewrite Hst. cbn [negb].
    unfold bind at 1. unfold vhost_verify_ring_mappings, bind at 1,
      get_dev at 1. cbn [w_dev vqs].
    rewrite verify_ring_mappings_ok by (cbn [w_map]; exact Hrings).
    unfold bind at 1. unfold massert at 1. cbn [Z.geb Z.compare].
    fold d.
    change (mkdev m2 (vqs d) (log d) (log_size d) (log_enabled d)
              (started d) (mem_sections d) (acked_features d))
      with (with_mem d m2).
    set (w0 := mkworld (with_mem d m2) _ _ _ _ _).
    destruct Hstep as [Htab Hlogs].
    destruct (log_enabled d) eqn:Hlog.
    + (* log enabled *)
      destruct (Hlogs eq_refl) as (Hwords & Hpos & Hcov).
      destruct (push_mem_table_acc w0) as
        (w' & Hrun & Hsame & Hsize & Hacc & Hs');
        [exact Hlog | exact Hpos | exact Hs |].
      exists w'. split; [exact Hrun|].
      pose proof (log_size_same_but_log _ _ Hsame) as Hneed.
      destruct Hsame as (Hm & Hv & Hl & Hst' & _).
      cbn [w0 w_dev w_acc with_mem mem vqs log_size log_enabled started]
        in Hm, Hv, Hl, Hst', Hsize, Hacc.
      rewrite Hm, Hv, Hl, Hst'.
      split; [exact Hinv2|]. split; [|auto].
      assert (Hnpos : 0 < vhost_get_log_size (with_mem d m2))
        by (apply log_size_with_queue; exact Hq).
      pose proof VHOST_LOG_BUFFER_range as Hbuf.
      unfold tables_in_step. rewrite Hm, Hl, Hneed, Hsize, Hacc.
      cbn [w0 w_dev].
      destruct (Z.ltb_spec (log_size d)
                  (vhost_get_log_size (with_mem d m2))) as [Hgrow | Hno].
      * replace (log_size d
                 >? vhost_get_log_size (with_mem d m2) + VHOST_LOG_BUFFER)
          with false by lia.
        unfold replay;
          cbn [app fold_left accept acc_mem_table acc_log_words];
          split; [reflexivity|]; intros _;
          split; [first [reflexivity | assumption]|]; lia.
      * destruct (Z.gtb_spec (log_size d)
                    (vhost_get_log_size (with_mem d m2) + VHOST_LOG_BUFFER)).
        -- unfold replay;
             cbn [app fold_left accept acc_mem_table acc_log_words];
             split; [reflexivity|]; intros _;
             split; [first [reflexivity | assumption]|]; lia.
        -- unfold replay;
             cbn [app fold_left accept acc_mem_table acc_log_words];
             split; [reflexivity|]; intros _;
             split; [first [reflexivity | assumption]|]; lia.
    + (* log disabled *)
      rewrite push_mem_table_plain by (cbn [w0 w_dev w_script]; auto).
      eexists. split; [reflexivity|].
      cbn [w0 w_dev w_acc w_script with_mem mem vqs started log_enabled].
      split; [exact Hinv2|]. split.
      * unfold tables_in_step. cbn. split; [reflexivity|].
        intros Habs. congruence.
      * split; [reflexivity|]. split; [exact Hst|].
        split; [exact Hlog|]. apply all_succeed_tl. exact Hs.
Qed.

End StartedDevice.

Lemma region_event_keeps_in_step_witness :
  exists w',
    @vhost_set_memory lp64
      (mksection (mkmr 1 1879048192 false) 0 1048576 0) true
      (mkworld
         (mkdev [] [mkvq 0 0 0 2097152 64 2415919104 2097152 4096]
            [] 0 false true [] 0)
         (mkacc 0 [] 0 (fun _ => None)) [] 0 (fun _ _ => (0, 0)) [])
    = Some (tt, w') /\
    rt_inv (mem (w_dev w')) /\
    @tables_in_step lp64 (w_dev w') (w_acc w') /\
    vqs (w_dev w') = [mkvq 0 0 0 2097152 64 2415919104 2097152 4096] /\
    started (w_dev w') = true /\
    log_enabled (w_dev w') = false /\
    all_succeed (w_script w').
Proof.
  apply (@region_event_keeps_in_step lp64
           (mksection (mkmr 1 1879048192 false) 0 1048576 0) true
           (mkworld
              (mkdev [] [mkvq 0 0 0 2097152 64 2415919104 2097152 4096]
                 [] 0 false true [] 0)
              (mkacc 0 [] 0 (fun _ => None)) [] 0 (fun _ _ => (0, 0)) [])).
  - reflexivity.
  - discriminate.
  - apply rt_inv_nil.
  - split; [reflexivity|]. intros H. discriminate H.
  - assert (E : event_ram
                  (mksection (mkmr 1 1879048192 false) 0 1048576 0)
                = 1879048192) by (vm_compute; reflexivity).
    rewrite E. unfold reg_ok, U64. simpl. lia.
  - intros _ r [].
  - constructor.
  - constructor; [|constructor]. intros H. vm_compute in H. discriminate H.
Defined.

(** ** What the handlers leave alone *)

Section Frames.
Context {G : LogGeometry}.
Local Open Scope vhost_scope.
Variable R : vhost_dev -> vhost_dev -> Prop.
Hypothesis R_refl : forall d, R d d.
Hypothesis R_trans : forall d1 d2 d3, R d1 d2 -> R d2 d3 -> R d1 d3.

Lemma frame_ret {A} (a : A) : dev_frame R (ret a).
Proof. intros w a' w' [= _ <-]. apply R_refl. Qed.

Lemma frame_bind {A B} (m : M A) (f : A -> M B) :
  dev_frame R m -> (forall a, dev_frame R (f a)) -> dev_frame R (bind m f).
Proof.
  intros Hm Hf w b w'. unfold bind.
  destruct (m w) as [[a w1]|] eqn:E; [|discriminate].
  intros Hrun. apply (R_trans _ (w_dev w1)).
  - apply (Hm w a w1 E).
  - apply (Hf a w1 b w' Hrun).
Qed.

Lemma frame_ioctl (req : request) : dev_frame R (ioctl req).
Proof.
  intros w a w'. unfold ioctl.
  destruct (hd 0 (w_script w) =? 0); intros [= _ <-]; apply R_refl.
Qed.

Lemma frame_massert (b : bool) : dev_frame R (massert b).
Proof.
  intros w a w'. unfold massert.
  destruct b; [|discriminate]. intros [= _ <-]. apply R_refl.
Qed.

Lemma frame_get_dev : dev_frame R get_dev.
Proof. intros w a w' [= _ <-]. apply R_refl. Qed.

Lemma frame_get_errno : dev_frame R get_errno.
Proof. intros w a w' [= _ <-]. apply R_refl. Qed.

Lemma frame_emit (evs : list event) : dev_frame R (emit evs).
Proof. intros w a w' [= _ <-]. apply R_refl. Qed.

Lemma frame_for_each {A} (f : A -> M unit) (l : list A) :
  (forall a, dev_frame R (f a)) -> dev_frame R (for_each l f).
Proof.
  intros Hf. induction l as [|a l IH]; cbn [for_each].
  - apply frame_ret.
  - apply frame_bind; [apply Hf | intros _; exact IH].
Qed.

(** [d <- get_dev ;; put_dev (f d)]. *)
Lemma frame_update (f : vhost_dev -> vhost_dev) :
  (forall d, R d (f d)) ->
  dev_frame R (d <- get_dev ;; put_dev (f d)).
Proof.
  intros Hf w a w'. unfold bind, get_dev, put_dev. intros [= _ <-].
  apply Hf.
Qed.

End Frames.

Ltac frame_step :=
  match goal with
  | |- dev_frame _ (ret _) => apply frame_ret; solve [auto]
  | |- dev_frame _ (ioctl _) => apply frame_ioctl; solve [auto]
  | |- dev_frame _ (massert _) => apply frame_massert; solve [auto]
  | |- dev_frame _ get_dev => apply frame_get_dev; solve [auto]
  | |- dev_frame _ get_errno => apply frame_get_errno; solve [auto]
  | |- dev_frame _ (emit _) => apply frame_emit; solve [auto]
  | |- dev_frame _ (if ?b then _ else _) => destruct b
  | |- dev_frame _ (bind _ _) =>
      apply frame_bind; [solve [auto] | | intros ?]
  | |- dev_frame _ _ => solve [auto]
  end.

Section ToggleFrames.
Context {G : LogGeometry}.
Local Open Scope vhost_scope.

Lemma eq_trans_dev (d1 d2 d3 : vhost_dev) : d1 = d2 -> d2 = d3 -> d1 = d3.
Proof. congruence. Qed.

Lemma frame_set_addr vq idx enable_log :
  dev_frame eq (vhost_virtqueue_set_addr vq idx enable_log).
Proof.
  pose proof eq_trans_dev. unfold vhost_virtqueue_set_addr.
  repeat frame_step.
Qed.

Lemma frame_set_features enable_log :
  dev_frame eq (vhost_dev_set_features enable_log).
Proof.
  pose proof eq_trans_dev. unfold vhost_dev_set_features.
  repeat frame_step.
Qed.

Lemma frame_set_log_queues enable_log queues :
  forall i, dev_frame eq (set_log_queues queues i enable_log).
Proof.
  pose proof eq_trans_dev. pose proof frame_set_addr.
  induction queues as [|vq rest IH]; intros i; cbn [set_log_queues];
    repeat frame_step.
Qed.

Lemma frame_set_log_unwind (i : nat) : dev_frame eq (set_log_unwind i).
Proof.
  pose proof eq_trans_dev. pose proof frame_set_addr.
  induction i as [|i IH]; rewrite set_log_unwind_eq; repeat frame_step.
Qed.

Lemma frame_set_log enable_log : dev_frame eq (vhost_dev_set_log enable_log).
Proof.
  pose proof eq_trans_dev. pose proof frame_set_features.
  pose proof frame_set_log_queues. pose proof frame_set_log_unwind.
  unfold vhost_dev_set_log. repeat frame_step.
Qed.

End ToggleFrames.

Section ResizeFrames.
Context {G : LogGeometry}.
Local Open Scope vhost_scope.

Lemma same_but_log_refl (d : vhost_dev) : same_but_log d d.
Proof. unfold same_but_log. tauto. Qed.

Lemma same_but_log_trans (d1 d2 d3 : vhost_dev) :
  same_but_log d1 d2 -> same_but_log d2 d3 -> same_but_log d1 d3.
Proof. unfold same_but_log. intuition congruence. Qed.

Lemma frame_sync_dirty_bitmap section start_addr end_addr :
  dev_frame same_but_log (sync_dirty_bitmap section start_addr end_addr).
Proof.
  intros w a w'. unfold sync_dirty_bitmap, bind, get_dev, lift, put_dev,
    emit, ret.
  destruct (vhost_sync_dirty_bitmap (w_dev w) section start_addr end_addr);
    [|discriminate].
  intros [= _ <-]. unfold same_but_log. cbn. tauto.
Qed.

Lemma frame_log_resize (size : Z) :
  dev_frame same_but_log (vhost_dev_log_resize size).
Proof.
  pose proof same_but_log_refl. pose proof same_but_log_trans.
  pose proof frame_sync_dirty_bitmap.
  unfold vhost_dev_log_resize.
  apply frame_bind; [assumption | frame_step | intros r].
  apply frame_bind; [assumption | frame_step | intros _].
  apply frame_bind; [assumption | frame_step | intros d].
  apply frame_bind; [assumption | | intros _].
  - apply frame_for_each; [assumption | assumption |].
    intros section. repeat frame_step.
  - apply (frame_update same_but_log
             (fun d => mkdev (mem d) (vqs d) (repeat 0 (Z.to_nat size)) size
                         (log_enabled d) (started d) (mem_sections d)
                         (acked_features d))).
    intros d0. unfold same_but_log. cbn. tauto.
Qed.

(** What a call of [vhost_migration_log] that returns has done. *)
Lemma migration_log_outcome (enable : bool) (w w' : world) (r : Z) :
  vhost_migration_log enable w = Some (r, w') ->
  ((r = 0 /\ log_enabled (w_dev w') = enable) \/
   (r < 0 /\ log_enabled (w_dev w') = log_enabled (w_dev w))) /\
  mem (w_dev w') = mem (w_dev w) /\
  vqs (w_dev w') = vqs (w_dev w) /\
  started (w_dev w') = started (w_dev w).
Proof.
  unfold vhost_migration_log. unfold bind at 1. unfold get_dev at 1.
  destruct (Bool.eqb enable (log_enabled (w_dev w))) eqn:Hsame.
  - intros [= <- <-]. apply Bool.eqb_prop in Hsame. auto.
  - destruct (started (w_dev w)) eqn:Hst; cbn [negb].
    + destruct enable; cbn [negb].
      * (* enable *)
        unfold bind at 1.
        destruct (vhost_dev_log_resize (vhost_get_log_size (w_dev w)) w)
          as [[[] w1]|] eqn:H1; [|discriminate].
        apply frame_log_resize in H1.
        destruct H1 as (Hm & Hq & Hl & Hs & _).
        unfold bind at 1.
        destruct (vhost_dev_set_log true w1) as [[r2 w2]|] eqn:H2;
          [|discriminate].
        apply frame_set_log in H2.
        destruct (Z.ltb_spec r2 0).
        -- intros [= <- <-]. rewrite <- H2.
           split; [right; split; [assumption | congruence]|].
           rewrite Hm, Hq, Hs. auto.
        -- unfold bind, get_dev, put_dev, ret. intros [= <- <-]. cbn.
           rewrite <- H2, Hm, Hq, Hs. auto.
      * (* disable *)
        unfold bind at 1.
        destruct (vhost_dev_set_log false w) as [[r2 w2]|] eqn:H2;
          [|discriminate].
        apply frame_set_log in H2.
        destruct (Z.ltb_spec r2 0).
        -- intros [= <- <-]. rewrite <- H2. auto.
        -- unfold bind, get_dev, put_dev, ret. intros [= <- <-]. cbn.
           rewrite <- H2. auto.
    + unfold bind, put_dev, ret. intros [= <- <-]. cbn. auto.
Qed.

(** X20: [vhost_migration_log] changes the log flag exactly when it
    returns 0.  Whatever the outcomes of the commands, a call that
    returns gives either 0, with the flag as requested, or a negative
    value, with the flag as it was; the region table, the queues and the
    started flag are never touched. *)
Theorem migration_log_flag (enable : bool) (w w' : world) (r : Z) :
  vhost_migration_log enable w = Some (r, w') ->
  ((r = 0 /\ log_enabled (w_dev w') = enable) \/
   (r < 0 /\ log_enabled (w_dev w') = log_enabled (w_dev w))) /\
  mem (w_dev w') = mem (w_dev w) /\
  vqs (w_dev w') = vqs (w_dev w) /\
  started (w_dev w') = started (w_dev w).
Proof. apply migration_log_outcome. Qed.

End ResizeFrames.

Lemma migration_log_flag_witness :
  @vhost_migration_log lp64 true
    (mkworld (mkdev [] [] [] 0 false true [] 0)
       (mkacc 0 [] 0 (fun _ => None)) [0; 13] 0 (fun _ _ => (0, 0)) [])
  = Some (-13,
     (mkworld (mkdev [] [] [] 0 false true [] 0)
       (mkacc 0 [] 0 (fun _ => None)) [] 13 (fun _ _ => (0, 0))
       [Ioctl (VHOST_SET_LOG_BASE 0) true;
        Ioctl (VHOST_SET_FEATURES 67108864) false])) /\
  (((-13 = 0 /\ false = true) \/ (-13 < 0 /\ false = false)) /\
   @nil vhost_memory_region = [] /\ @nil vhost_virtqueue = [] /\
   true = true).
Proof.
  assert (Hrun :
    @vhost_migration_log lp64 true
      (mkworld (mkdev [] [] [] 0 false true [] 0)
       (mkacc 0 [] 0 (fun _ => None)) [0; 13] 0 (fun _ _ => (0, 0)) [])
    = Some (-13,
       (mkworld (mkdev [] [] [] 0 false true [] 0)
       (mkacc 0 [] 0 (fun _ => None)) [] 13 (fun _ _ => (0, 0))
       [Ioctl (VHOST_SET_LOG_BASE 0) true;
        Ioctl (VHOST_SET_FEATURES 67108864) false])))
    by (vm_compute; reflexivity).
  split; [exact Hrun|].
  apply (@migration_log_flag lp64 _ _ _ _ Hrun).
Defined.

(** ** A completed toggle *)

Section ToggleDone.
Context {G : LogGeometry}.
Local Open Scope vhost_scope.

Lemma replay_app (a b : list request) (acc : accelerator) :
  replay (a ++ b) acc = replay b (replay a acc).
Proof. apply fold_left_app. Qed.

(** What the address pushes of a run of queues leave in the
    accelerator. *)
Lemma replay_addr_requests (enable_log : bool)
  (queues : list vhost_virtqueue) :
  forall (i : nat) (acc : accelerator),
  acc_features (replay (addr_requests queues i enable_log) acc)
  = acc_features acc /\
  acc_mem_table (replay (addr_requests queues i enable_log) acc)
  = acc_mem_table acc /\
  acc_log_words (replay (addr_requests queues i enable_log) acc)
  = acc_log_words acc /\
  forall j : nat,
    acc_vring_addr (replay (addr_requests queues i enable_log) acc)
      (Z.of_nat j)
    = if (i <=? j)%nat && (j <? i + length queues)%nat
      then Some (vring_addr_of (nth (j - i) queues (mkvq 0 0 0 0 0 0 0 0))
                   (Z.of_nat j) enable_log)
      else acc_vring_addr acc (Z.of_nat j).
Proof.
  induction queues as [|vq rest IH]; intros i acc.
  - unfold replay. cbn [addr_requests fold_left length].
    repeat split. intros j.
    destruct (Nat.leb_spec i j); destruct (Nat.ltb_spec j (i + 0));
      cbn [andb]; try reflexivity; lia.
  - cbn [addr_requests]. unfold replay. cbn [fold_left].
    fold (replay (addr_requests rest (S i) enable_log)
            (accept
               (VHOST_SET_VRING_ADDR (vring_addr_of vq (Z.of_nat i) enable_log))
               acc)).
    destruct (IH (S i)
                (accept
                   (VHOST_SET_VRING_ADDR
                      (vring_addr_of vq (Z.of_nat i) enable_log)) acc))
      as (H1 & H2 & H3 & H4).
    rewrite H1, H2, H3. cbn [accept acc_features acc_mem_table acc_log_words].
    repeat split. intros j. rewrite H4.
    cbn [accept acc_vring_addr vring_addr_of index length].
    destruct (Nat.leb_spec (S i) j) as [Hle | Hgt].
    + replace (i <=? j)%nat with true by (symmetry; apply Nat.leb_le; lia).
      cbn [andb].
      replace (j <? i + S (length rest))%nat
        with (j <? S i + length rest)%nat by (f_equal; lia).
      destruct (j <? S i + length rest)%nat; [|].
      * replace (j - i)%nat with (S (j - S i)) by lia. reflexivity.
      * replace (Z.of_nat j =? Z.of_nat i) with false by lia. reflexivity.
    + cbn [andb]. destruct (Nat.eq_dec j i) as [-> | Hne].
      * rewrite Z.eqb_refl, Nat.leb_refl, Nat.sub_diag. cbn [andb].
        replace (i <? i + S (length rest))%nat with true
          by (symmetry; apply Nat.ltb_lt; lia).
        reflexivity.
      * replace (Z.of_nat j =? Z.of_nat i) with false by lia.
        replace (i <=? j)%nat with false
          by (symmetry; apply Nat.leb_gt; lia).
        reflexivity.
Qed.

Lemma set_log_queues_acc (enable_log : bool)
  (queues : list vhost_virtqueue) :
  forall i w,
  all_succeed (w_script w) ->
  exists w',
    set_log_queues queues i enable_log w
    = Some ((0, (i + length queues)%nat), w') /\
    w_dev w' = w_dev w /\ all_succeed (w_script w') /\
    w_acc w' = replay (addr_requests queues i enable_log) (w_acc w).
Proof.
  induction queues as [|vq queues IH]; intros i w Hs; simpl.
  - exists w. rewrite Nat.add_0_r. auto.
  - unfold bind. rewrite set_addr_ok by (apply all_succeed_hd; exact Hs).
    cbn [Z.ltb Z.compare].
    match goal with
    | |- context [set_log_queues queues (S i) enable_log ?w0] =>
        destruct (IH (S i) w0) as (w' & -> & Hd & Hs' & Hc)
    end.
    + cbn [w_script]. apply all_succeed_tl. exact Hs.
    + exists w'. rewrite Nat.add_succ_r. split; [reflexivity|].
      cbn [w_dev w_acc] in *. split; [exact Hd|]. split; [exact Hs'|].
      exact Hc.
Qed.

(** [vhost_dev_set_log] when every command succeeds. *)
Lemma set_log_acc (enable_log : bool) (w : world) :
  all_succeed (w_script w) ->
  exists w',
    vhost_dev_set_log enable_log w = Some (0, w') /\
    w_dev w' = w_dev w /\ all_succeed (w_script w') /\
    w_acc w'
    = replay (addr_requests (vqs (w_dev w)) 0 enable_log)
        (accept (VHOST_SET_FEATURES (features_of (w_dev w) enable_log))
           (w_acc w)).
Proof.
  intros Hs. unfold vhost_dev_set_log. unfold bind at 1.
  rewrite set_features_ok by (apply all_succeed_hd; exact Hs).
  cbn [Z.ltb Z.compare]. unfold bind at 1. unfold get_dev at 1.
  cbn [w_dev]. unfold bind at 1.
  match goal with
  | |- context [set_log_queues _ 0 enable_log ?w0] =>
      destruct (set_log_queues_acc enable_log (vqs (w_dev w)) 0 w0)
        as (w' & -> & Hd & Hs' & Hc)
  end.
  - cbn [w_script]. apply all_succeed_tl. exact Hs.
  - cbn [fst Z.ltb Z.compare]. exists w'. unfold ret.
    cbn [w_dev w_acc] in *. auto.
Qed.

(** X21: a toggle of the log flag that completes leaves device and
    accelerator in step.  On a started device with at least one queue
    whose region table the accelerator holds, when every command
    succeeds, [vhost_migration_log] returns 0 with the flag as requested;
    the accelerator then has the features and the address of every queue
    with the log flag as the device's flag says, still holds the region
    table and, after an enable, a log of the size on record, which is
    what [vhost_get_log_size] asks for. *)
Theorem migration_log_in_step (enable : bool) (w : world) :
  started (w_dev w) = true -> vqs (w_dev w) <> [] ->
  log_enabled (w_dev w) = negb enable ->
  acc_mem_table (w_acc w) = mem (w_dev w) ->
  all_succeed (w_script w) ->
  exists w',
    vhost_migration_log enable w = Some (0, w') /\
    log_enabled (w_dev w') = enable /\
    acc_in_step (w_dev w') (w_acc w') /\
    tables_in_step (w_dev w') (w_acc w') /\
    (enable = true ->
     log_size (w_dev w') = vhost_get_log_size (w_dev w')).
Proof.
  intros Hst Hq Hflag Htab Hs.
  unfold vhost_migration_log. unfold bind at 1. unfold get_dev at 1.
  rewrite Hflag, Hst.
  replace (Bool.eqb enable (negb enable)) with false
    by (destruct enable; reflexivity).
  cbn [negb]. destruct enable; cbn [negb].
  - (* enable *)
    destruct (log_resize_ok (vhost_get_log_size (w_dev w)) w Hs)
      as (w1 & Hrun1 & Hsame & Hsize & Hs1 & Hacc1 & _); [auto|].
    destruct (set_log_acc true w1 Hs1) as (w2 & Hrun2 & Hd2 & _ & Hacc2).
    unfold bind at 1. rewrite Hrun1. unfold bind at 1. rewrite Hrun2.
    cbn [Z.ltb Z.compare]. unfold bind, get_dev, put_dev, ret.
    eexists. split; [reflexivity|].
    cbn [w_dev w_acc log_enabled]. split; [reflexivity|].
    rewrite Hd2.
    destruct (replay_addr_requests true (vqs (w_dev w1)) 0
                (accept (VHOST_SET_FEATURES (features_of (w_dev w1) true))
                   (w_acc w1))) as (Hf & Hm & Hl & Hv).
    rewrite <- Hacc2 in Hf, Hm, Hl, Hv.
    cbn [accept acc_features acc_mem_table acc_log_words] in Hf, Hm, Hl.
    rewrite Hacc1 in Hm, Hl.
    cbn [accept acc_features acc_mem_table acc_log_words] in Hm, Hl.
    pose proof (log_size_same_but_log _ _ Hsame) as Hneed.
    destruct Hsame as (Hmem & Hvqs & _ & _ & _ & Hack).
    split; [|split].
    + unfold acc_in_step.
      cbn [log_enabled vqs acked_features features_of].
      split; [rewrite Hf; reflexivity|].
      intros i Hi. rewrite Hv. cbn [Nat.leb andb].
      replace (i <? 0 + length (vqs (w_dev w1)))%nat with true
        by (symmetry; apply Nat.ltb_lt; lia).
      rewrite Nat.sub_0_r. reflexivity.
    + unfold tables_in_step. cbn [mem log_enabled log_size].
      split; [congruence|]. intros _.
      split; [congruence|].
      assert (Hpos : 0 < vhost_get_log_size (w_dev w))
        by (apply log_size_with_queue; exact Hq).
      split; [lia|].
      replace (vhost_get_log_size
                 (mkdev (mem (w_dev w1)) (vqs (w_dev w1)) (log (w_dev w1))
                    (log_size (w_dev w1)) true (started (w_dev w1))
                    (mem_sections (w_dev w1)) (acked_features (w_dev w1))))
        with (vhost_get_log_size (w_dev w1)) by reflexivity.
      lia.
    + intros _. cbn [log_size].
      replace (vhost_get_log_size
                 (mkdev (mem (w_dev w1)) (vqs (w_dev w1)) (log (w_dev w1))
                    (log_size (w_dev w1)) true (started (w_dev w1))
                    (mem_sections (w_dev w1)) (acked_features (w_dev w1))))
        with (vhost_get_log_size (w_dev w1)) by reflexivity.
      lia.
  - (* disable *)
    destruct (set_log_acc false w Hs) as (w2 & Hrun2 & Hd2 & _ & Hacc2).
    unfold bind at 1. rewrite Hrun2.
    cbn [Z.ltb Z.compare]. unfold bind, get_dev, put_dev, ret.
    eexists. split; [reflexivity|].
    cbn [w_dev w_acc log_enabled]. split; [reflexivity|].
    rewrite Hd2.
    destruct (replay_addr_requests false (vqs (w_dev w)) 0
                (accept (VHOST_SET_FEATURES (features_of (w_dev w) false))
                   (w_acc w))) as (Hf & Hm & Hl & Hv).
    rewrite <- Hacc2 in Hf, Hm, Hl, Hv.
    cbn [accept acc_features acc_mem_table acc_log_words] in Hf, Hm, Hl.
    split; [|split].
    + unfold acc_in_step.
      cbn [log_enabled vqs acked_features features_of].
      split; [rewrite Hf; reflexivity|].
      intros i Hi. rewrite Hv. cbn [Nat.leb andb].
      replace (i <? 0 + length (vqs (w_dev w)))%nat with true
        by (symmetry; apply Nat.ltb_lt; lia).
      rewrite Nat.sub_0_r. reflexivity.
    + unfold tables_in_step. cbn [mem log_enabled].
      split; [congruence|]. intros Habs. discriminate.
    + intros Habs. discriminate.
Qed.

End ToggleDone.

Lemma migration_log_in_step_witness :
  exists w',
    @vhost_migration_log lp64 true
      (mkworld
         (mkdev [mkreg 0 1048576 1879048192]
            [mkvq 4096 8192 12288 12288 64 1879052288 4096 12288]
            [] 0 false true [] 0)
         (mkacc 0 [mkreg 0 1048576 1879048192] 0 (fun _ => None)) [] 0
         (fun _ _ => (0, 0)) [])
    = Some (0, w') /\
    log_enabled (w_dev w') = true /\
    acc_in_step (w_dev w') (w_acc w') /\
    @tables_in_step lp64 (w_dev w') (w_acc w') /\
    (true = true ->
     log_size (w_dev w') = @vhost_get_log_size lp64 (w_dev w')).
Proof.
  apply (@migration_log_in_step lp64 true
           (mkworld
              (mkdev [mkreg 0 1048576 1879048192]
                 [mkvq 4096 8192 12288 12288 64 1879052288 4096 12288]
                 [] 0 false true [] 0)
              (mkacc 0 [mkreg 0 1048576 1879048192] 0 (fun _ => None)) [] 0
              (fun _ _ => (0, 0)) [])).
  - reflexivity.
  - discriminate.
  - reflexivity.
  - reflexivity.
  - constructor.
Defined.

(** ** Host notifiers *)

Lemma last_cons_default {A} (l : list A) :
  forall (x d : A), last (x :: l) d = last l x.
Proof.
  induction l as [|y l IH]; intros x d; [reflexivity|].
  change (last (x :: y :: l) d) with (last (y :: l) d).
  rewrite (IH y d), (IH y x). reflexivity.
Qed.

Lemma last_in {A} (l : list A) : forall x : A, In (last l x) (x :: l).
Proof.
  induction l as [|y l IH]; intros x; [left; reflexivity|].
  right. rewrite last_cons_default. apply IH.
Qed.

Lemma release_calls_down_S (n : nat) :
  release_calls_down (S n) = (Z.of_nat n, false) :: release_calls_down n.
Proof.
  unfold release_calls_down. rewrite seq_S, rev_app_distr. reflexivity.
Qed.

Lemma notifiers_unwind_run (rs : list Z) :
  forall r vdev rest,
  notifier_results vdev = rs ++ rest ->
  Forall (fun x => 0 <= x) rs ->
  notifiers_unwind (length rs) r vdev
  = Some (last rs r,
          mkvdev (has_set_host_notifier vdev) rest
            (notifier_calls vdev ++ release_calls_down (length rs))).
Proof.
  induction rs as [|x rs IH]; intros r vdev rest Hres Hall.
  - simpl in *. rewrite app_nil_r. destruct vdev. simpl in *. subst.
    reflexivity.
  - inversion Hall as [|? ? Hx Hall']; subst.
    cbn [length notifiers_unwind]. unfold set_host_notifier.
    rewrite Hres. cbn [hd tl app].
    unfold assert, obind. replace (x >=? 0) with true by lia.
    rewrite (IH x _ rest); [|reflexivity|exact Hall'].
    cbn [has_set_host_notifier notifier_calls].
    rewrite last_cons_default, release_calls_down_S, <- app_assoc.
    reflexivity.
Qed.

Lemma notifiers_unwind_abort (pre : list Z) :
  forall r vdev x rest i,
  notifier_results vdev = pre ++ x :: rest ->
  Forall (fun x => 0 <= x) pre -> x < 0 ->
  (length pre < i)%nat ->
  notifiers_unwind i r vdev = None.
Proof.
  induction pre as [|y pre IH]; intros r vdev x rest i Hres Hall Hx Hi.
  - destruct i as [|j]; [simpl in Hi; lia|].
    cbn [notifiers_unwind]. unfold set_host_notifier. rewrite Hres.
    cbn [hd app]. unfold assert, obind.
    replace (x >=? 0) with false by lia. reflexivity.
  - inversion Hall as [|? ? Hy Hall']; subst.
    destruct i as [|j]; [simpl in Hi; lia|].
    cbn [notifiers_unwind]. unfold set_host_notifier. rewrite Hres.
    cbn [hd tl app]. unfold assert, obind.
    replace (y >=? 0) with true by lia.
    apply (IH y _ x rest); [reflexivity | exact Hall' | exact Hx |].
    simpl in Hi. lia.
Qed.

Lemma bind_calls_S (i count : nat) :
  bind_calls i (S count) = (Z.of_nat i, true) :: bind_calls (S i) count.
Proof. reflexivity. Qed.

Lemma notifiers_enable_ok (rs : list Z) :
  forall i vdev rest,
  notifier_results vdev = rs ++ rest ->
  Forall (fun x => 0 <= x) rs ->
  notifiers_enable (length rs) i vdev
  = Some (0, mkvdev (has_set_host_notifier vdev) rest
               (notifier_calls vdev ++ bind_calls i (length rs))).
Proof.
  induction rs as [|x rs IH]; intros i vdev rest Hres Hall.
  - simpl in *. unfold bind_calls. simpl. rewrite app_nil_r.
    destruct vdev. simpl in *. subst. reflexivity.
  - inversion Hall as [|? ? Hx Hall']; subst.
    cbn [length notifiers_enable]. unfold set_host_notifier.
    rewrite Hres. cbn [hd tl app].
    replace (x <? 0) with false by lia.
    rewrite (IH (S i) _ rest); [|reflexivity|exact Hall'].
    cbn [has_set_host_notifier notifier_calls].
    rewrite bind_calls_S, <- app_assoc. reflexivity.
Qed.

(** The [for] loop when the call for the queue after [pre] fails: the
    loop at [fail_vq] is entered with that queue's index. *)
Lemma notifiers_enable_fail (pre : list Z) :
  forall i count vdev e tail,
  notifier_results vdev = pre ++ e :: tail ->
  Forall (fun x => 0 <= x) pre -> e < 0 ->
  (length pre < count)%nat ->
  notifiers_enable count i vdev
  = notifiers_unwind (i + length pre) e
      (mkvdev (has_set_host_notifier vdev) tail
         (notifier_calls vdev ++ bind_calls i (S (length pre)))).
Proof.
  induction pre as [|x pre IH]; intros i count vdev e tail Hres Hall He Hc.
  - destruct count as [|count]; [simpl in Hc; lia|].
    cbn [notifiers_enable]. unfold set_host_notifier. rewrite Hres.
    cbn [hd tl app length]. replace (e <? 0) with true by lia.
    rewrite Nat.add_0_r. reflexivity.
  - inversion Hall as [|? ? Hx Hall']; subst.
    destruct count as [|count]; [simpl in Hc; lia|].
    cbn [notifiers_enable]. unfold set_host_notifier. rewrite Hres.
    cbn [hd tl app]. replace (x <? 0) with false by lia.
    rewrite (IH (S i) count _ e tail);
      [|reflexivity|exact Hall'|exact He|simpl in Hc; lia].
    cbn [has_set_host_notifier notifier_calls length].
    rewrite (bind_calls_S i (S (length pre))), <- app_assoc.
    replace (S i + length pre)%nat with (i + S (length pre))%nat by lia.
    reflexivity.
Qed.

Lemma first_negative (l : list Z) :
  ~ Forall (fun x => 0 <= x) l ->
  exists p x q, l = p ++ x :: q /\ Forall (fun y => 0 <= y) p /\ x < 0.
Proof.
  induction l as [|c cl IH]; intros Hnot.
  - exfalso. apply Hnot. constructor.
  - destruct (Z.lt_ge_cases c 0) as [Hc | Hc].
    + exists [], c, cl. split; [reflexivity|]. split; [constructor|].
      exact Hc.
    + destruct IH as (p & x & q & -> & Hp & Hx).
      * intros Hall. apply Hnot. constructor; [lia | exact Hall].
      * exists (c :: p), x, q. split; [reflexivity|].
        split; [constructor; [lia | exact Hp] | exact Hx].
Qed.

(** X22: [vhost_dev_enable_notifiers] on a binding without the
    operation returns [-ENOSYS] and calls nothing; on a binding whose
    calls all return non-negative values it binds the notifier of every
    queue once, in ascending order, and returns 0. *)
Theorem enable_notifiers_binds_all (hdev : vhost_dev) (vdev : VirtIODevice)
  (rs rest : list Z) :
  notifier_results vdev = rs ++ rest ->
  length rs = length (vqs hdev) ->
  Forall (fun x => 0 <= x) rs ->
  vhost_dev_enable_notifiers hdev vdev
  = if has_set_host_notifier vdev
    then Some (0, mkvdev true rest
                    (notifier_calls vdev ++
                     bind_calls 0 (length (vqs hdev))))
    else Some (- ENOSYS, vdev).
Proof.
  intros Hres Hlen Hall. unfold vhost_dev_enable_notifiers.
  destruct (has_set_host_notifier vdev) eqn:Hhas; [|reflexivity].
  cbn [negb]. rewrite <- Hlen.
  rewrite (notifiers_enable_ok rs 0 vdev rest Hres Hall), Hhas.
  reflexivity.
Qed.

Lemma enable_notifiers_binds_all_witness :
  vhost_dev_enable_notifiers (example_dev false) (mkvdev true [0; 1; 7] [])
  = if has_set_host_notifier (mkvdev true [0; 1; 7] [])
    then Some (0, mkvdev true [7]
                    ([] ++ bind_calls 0 (length (vqs (example_dev false)))))
    else Some (- ENOSYS, mkvdev true [0; 1; 7] []).
Proof.
  apply (enable_notifiers_binds_all (example_dev false)
           (mkvdev true [0; 1; 7] []) [0; 1] [7]).
  - reflexivity.
  - reflexivity.
  - repeat constructor; lia.
Defined.

(** X23: when the binding fails for queue [k] (after it succeeded for
    the queues before), [vhost_dev_enable_notifiers] releases the
    notifiers of the queues [k - 1] down to 0, in that order.  What it
    returns is the result of the last release, not the error: the error
    is returned only when [k] is 0, and for any other [k] the value
    returned is not negative.  If a release fails, the assertion
    stops the call. *)
Theorem enable_notifiers_failure (hdev : vhost_dev) (vdev : VirtIODevice)
  (pre cleanup rest : list Z) (e : Z) :
  has_set_host_notifier vdev = true ->
  (length pre < length (vqs hdev))%nat ->
  Forall (fun x => 0 <= x) pre -> e < 0 ->
  length cleanup = length pre ->
  notifier_results vdev = pre ++ e :: cleanup ++ rest ->
  (Forall (fun x => 0 <= x) cleanup ->
   vhost_dev_enable_notifiers hdev vdev
   = Some (last cleanup e,
           mkvdev true rest
             (notifier_calls vdev ++ bind_calls 0 (S (length pre)) ++
              release_calls_down (length pre))) /\
   (length pre = 0%nat -> last cleanup e = e) /\
   (length pre <> 0%nat -> 0 <= last cleanup e)) /\
  (~ Forall (fun x => 0 <= x) cleanup ->
   vhost_dev_enable_notifiers hdev vdev = None).
Proof.
  intros Hhas Hk Hpre He Hlen Hres.
  unfold vhost_dev_enable_notifiers. rewrite Hhas. cbn [negb].
  rewrite (notifiers_enable_fail pre 0 _ vdev e (cleanup ++ rest)
             Hres Hpre He Hk).
  cbn [Nat.add]. rewrite Hhas, <- Hlen. split.
  - intros Hall.
    rewrite (notifiers_unwind_run cleanup e _ rest);
      [|reflexivity|exact Hall].
    cbn [has_set_host_notifier notifier_calls]. rewrite <- app_assoc.
    split; [reflexivity|]. split.
    + intros H0. destruct cleanup; [reflexivity | simpl in H0; lia].
    + intros Hn. destruct cleanup as [|c cl]; [simpl in Hn; lia|].
      rewrite last_cons_default.
      pose proof (last_in cl c) as Hin.
      rewrite Forall_forall in Hall. apply Hall. exact Hin.
  - intros Hnot.
    destruct (first_negative cleanup Hnot) as (p & x & q & -> & Hp & Hx).
    apply (notifiers_unwind_abort p e _ x (q ++ rest)).
    + cbn [notifier_results]. rewrite <- app_assoc. reflexivity.
    + exact Hp.
    + exact Hx.
    + rewrite length_app. simpl. lia.
Qed.

Lemma enable_notifiers_failure_witness :
  (Forall (fun x => 0 <= x) [0] ->
   vhost_dev_enable_notifiers (example_dev false)
     (mkvdev true [0; -5; 0; 9] [])
   = Some (last [0] (-5),
           mkvdev true [9]
             ([] ++ bind_calls 0 (S (length [0])) ++
              release_calls_down (length [0]))) /\
   (length [0] = 0%nat -> last [0] (-5) = -5) /\
   (length [0] <> 0%nat -> 0 <= last [0] (-5))) /\
  (~ Forall (fun x => 0 <= x) [0] ->
   vhost_dev_enable_notifiers (example_dev false)
     (mkvdev true [0; -5; 0; 9] []) = None).
Proof.
  apply (enable_notifiers_failure (example_dev false)
           (mkvdev true [0; -5; 0; 9] []) [0] [0] [9] (-5)).
  - reflexivity.
  - simpl. lia.
  - repeat constructor; lia.
  - lia.
  - reflexivity.
  - reflexivity.
Defined.

Lemma notifiers_disable_ok (rs : list Z) :
  forall i vdev rest,
  notifier_results vdev = rs ++ rest ->
  Forall (fun x => 0 <= x) rs ->
  notifiers_disable (length rs) i vdev
  = Some (mkvdev (has_set_host_notifier vdev) rest
            (notifier_calls vdev ++ release_calls_up i (length rs))).
Proof.
  induction rs as [|x rs IH]; intros i vdev rest Hres Hall.
  - simpl in *. unfold release_calls_up. simpl. rewrite app_nil_r.
    destruct vdev. simpl in *. subst. reflexivity.
  - inversion Hall as [|? ? Hx Hall']; subst.
    cbn [length notifiers_disable]. unfold set_host_notifier.
    rewrite Hres. cbn [hd tl app]. unfold assert, obind.
    replace (x >=? 0) with true by lia.
    rewrite (IH (S i) _ rest); [|reflexivity|exact Hall'].
    cbn [has_set_host_notifier notifier_calls].
    unfold release_calls_up. cbn [seq map]. rewrite <- app_assoc.
    reflexivity.
Qed.

Lemma notifiers_disable_abort (pre : list Z) :
  forall i count vdev x rest,
  notifier_results vdev = pre ++ x :: rest ->
  Forall (fun x => 0 <= x) pre -> x < 0 ->
  (length pre < count)%nat ->
  notifiers_disable count i vdev = None.
Proof.
  induction pre as [|y pre IH]; intros i count vdev x rest Hres Hall Hx Hc.
  - destruct count as [|count]; [simpl in Hc; lia|].
    cbn [notifiers_disable]. unfold set_host_notifier. rewrite Hres.
    cbn [hd app]. unfold assert, obind.
    replace (x >=? 0) with false by lia. reflexivity.
  - inversion Hall as [|? ? Hy Hall']; subst.
    destruct count as [|count]; [simpl in Hc; lia|].
    cbn [notifiers_disable]. unfold set_host_notifier. rewrite Hres.
    cbn [hd tl app]. unfold assert, obind.
    replace (y >=? 0) with true by lia.
    apply (IH (S i) count _ x rest);
      [reflexivity | exact Hall' | exact Hx | simpl in Hc; lia].
Qed.

(** X24: [vhost_dev_disable_notifiers] releases the notifier of every
    queue once, in ascending order, when no release fails; a release
    that fails stops the call on the assertion, so that the notifiers of
    the queues after it are left bound. *)
Theorem disable_notifiers_releases_all (hdev : vhost_dev)
  (vdev : VirtIODevice) (rs rest : list Z) :
  notifier_results vdev = rs ++ rest ->
  length rs = length (vqs hdev) ->
  (Forall (fun x => 0 <= x) rs ->
   vhost_dev_disable_notifiers hdev vdev
   = Some (mkvdev (has_set_host_notifier vdev) rest
             (notifier_calls vdev ++
              release_calls_up 0 (length (vqs hdev))))) /\
  (~ Forall (fun x => 0 <= x) rs ->
   vhost_dev_disable_notifiers hdev vdev = None).
Proof.
  intros Hres Hlen. unfold vhost_dev_disable_notifiers. rewrite <- Hlen.
  split.
  - intros Hall. apply notifiers_disable_ok; assumption.
  - intros Hnot.
    destruct (first_negative rs Hnot) as (p & x & q & -> & Hp & Hx).
    apply (notifiers_disable_abort p 0 _ vdev x (q ++ rest)).
    + rewrite Hres, <- app_assoc. reflexivity.
    + exact Hp.
    + exact Hx.
    + rewrite length_app. simpl. lia.
Qed.

Lemma disable_notifiers_releases_all_witness :
  (Forall (fun x => 0 <= x) [0; 3] ->
   vhost_dev_disable_notifiers (example_dev false)
     (mkvdev true [0; 3; -1] [])
   = Some (mkvdev (has_set_host_notifier (mkvdev true [0; 3; -1] [])) [-1]
             ([] ++ release_calls_up 0 (length (vqs (example_dev false)))))) /\
  (~ Forall (fun x => 0 <= x) [0; 3] ->
   vhost_dev_disable_notifiers (example_dev false)
     (mkvdev true [0; 3; -1] []) = None).
Proof.
  apply (disable_notifiers_releases_all (example_dev false)
           (mkvdev true [0; 3; -1] []) [0; 3] [-1]); reflexivity.
Defined.

(** ** Listener callbacks *)

Section ListenerFacts.
Context {G : LogGeometry}.
Local Open Scope vhost_scope.

Lemma drop_section_last (l : list MemoryRegionSection)
  (s : MemoryRegionSection) :
  drop_section (offset_within_address_space s) (l ++ [s])
  = if tracked_at (offset_within_address_space s) l
    then drop_section (offset_within_address_space s) l ++ [s]
    else l.
Proof.
  induction l as [|x l IH]; cbn [app drop_section tracked_at existsb].
  - rewrite Z.eqb_refl. reflexivity.
  - destruct (offset_within_address_space x
              =? offset_within_address_space s); cbn [orb].
    + reflexivity.
    + fold (tracked_at (offset_within_address_space s) l). rewrite IH.
      destruct (tracked_at (offset_within_address_space s) l); reflexivity.
Qed.

(** X25: on a device that is not started, adding a RAM section of the
    system memory, unless the add would remap the inside of a region,
    and deleting it again returns, sends nothing to the
    accelerator, and leaves the region table with what it mapped outside
    the section's range.  The list of tracked sections is as before if
    no tracked section lay at the same address-space offset; otherwise
    it is the oldest section at that offset that is dropped, and the new
    one stays at the end. *)
Theorem region_add_then_del (ev : region_event) (w : world) :
  let d := w_dev w in
  let section := ev_section ev in
  let g := offset_within_address_space section in
  let s := section_size section in
  vhost_section ev = true ->
  started d = false -> rt_inv (mem d) ->
  reg_ok (mkreg g s (event_ram section)) ->
  (event_add section true = true ->
   fits_room (mem d) g s (event_ram section)) ->
  exists w2,
    (vhost_region_add ev ;;; vhost_region_del ev) w = Some (tt, w2) /\
    w_trace w2 = w_trace w /\ w_acc w2 = w_acc w /\
    mem_sections (w_dev w2)
    = (if tracked_at g (mem_sections d)
       then drop_section g (mem_sections d) ++ [section]
       else mem_sections d) /\
    rt_inv (mem (w_dev w2)) /\
    forall a h,
      maps_byte (mem (w_dev w2)) a h <->
      maps_byte (mem d) a h /\ ~ (g <= a < g + s).
Proof.
  intros d section g s Hsec Hst Hinv Hn Hfit.
  unfold bind at 1. unfold vhost_region_add, vhost_region_del.
  rewrite Hsec. cbn [negb].
  unfold bind at 1. unfold get_dev at 1. unfold bind at 1.
  unfold put_dev at 1.
  fold d section.
  set (w0 := mkworld _ _ _ _ _ _).
  destruct (set_memory_stopped section true w0)
    as (t1 & Hrun1 & Hinv1 & Hmap1);
    [exact Hst | exact Hinv | exact Hn | exact Hfit |].
  rewrite Hrun1.
  set (w1 := mkworld (with_mem (w_dev w0) t1) _ _ _ _ _).
  destruct (set_memory_stopped section false w1)
    as (t2 & Hrun2 & Hinv2 & Hmap2);
    [exact Hst | exact Hinv1 | exact Hn | |].
  { intros Habs. unfold event_add in Habs.
    destruct (mr_is_logging (mr section)); discriminate. }
  unfold bind at 1. rewrite Hrun2.
  unfold bind, get_dev, put_dev. eexists. split; [reflexivity|].
  cbn [w_dev w_acc w_trace w0 w1 with_mem set_mem_sections mem mem_sections].
  split; [reflexivity|]. split; [reflexivity|].
  split; [apply drop_section_last|]. split; [exact Hinv2|].
  intros a h. rewrite Hmap2.
  cbn [w_dev w1 with_mem mem]. rewrite Hmap1. cbn [w_dev w0 set_mem_sections mem].
  fold g s. split.
  - intros [[[[Hm _] | (_ & Ha & _)] Hout] | (Habs & _)].
    + auto.
    + contradiction.
    + unfold event_add in Habs.
      destruct (mr_is_logging (mr section)); discriminate.
  - intros [Hm Hout]. left. split; [|exact Hout]. left. auto.
Qed.

(** X26: when [vhost_log_global_start] returns, the log flag is on, and
    when [vhost_log_global_stop] returns, it is off: a toggle that
    fails ends the program instead.  Neither touches the region table,
    the queues or the started flag. *)
Theorem log_global_sets_flag (w w' : world) :
  (vhost_log_global_start w = Some (tt, w') ->
   log_enabled (w_dev w') = true /\
   mem (w_dev w') = mem (w_dev w) /\ vqs (w_dev w') = vqs (w_dev w) /\
   started (w_dev w') = started (w_dev w)) /\
  (vhost_log_global_stop w = Some (tt, w') ->
   log_enabled (w_dev w') = false /\
   mem (w_dev w') = mem (w_dev w) /\ vqs (w_dev w') = vqs (w_dev w) /\
   started (w_dev w') = started (w_dev w)).
Proof.
  unfold vhost_log_global_start, vhost_log_global_stop, bind, massert.
  split.
  - destruct (vhost_migration_log true w) as [[r w1]|] eqn:Hrun;
      [|discriminate].
    destruct (migration_log_outcome true w w1 r Hrun)
      as ([[_ Hflag] | [Hneg _]] & Hrest).
    + destruct (negb (r <? 0)); [|discriminate].
      intros [= <-]. auto.
    + replace (r <? 0) with true by lia. discriminate.
  - destruct (vhost_migration_log false w) as [[r w1]|] eqn:Hrun;
      [|discriminate].
    destruct (migration_log_outcome false w w1 r Hrun)
      as ([[_ Hflag] | [Hneg _]] & Hrest).
    + destruct (negb (r <? 0)); [|discriminate].
      intros [= <-]. auto.
    + replace (r <? 0) with true by lia. discriminate.
Qed.

End ListenerFacts.

Lemma region_add_then_del_witness :
  exists w2,
    (bind
       (@vhost_region_add lp64
          (mkregion_event
             (mksection (mkmr 1 1879048192 false) 0 1048576 4096) true true))
       (fun _ =>
          @vhost_region_del lp64
            (mkregion_event
               (mksection (mkmr 1 1879048192 false) 0 1048576 4096)
               true true)))
      (mkworld example_small_dev (mkacc 0 [] 0 (fun _ => None)) [] 0
         (fun _ _ => (0, 0)) [])
    = Some (tt, w2) /\
    w_trace w2 = [] /\ w_acc w2 = mkacc 0 [] 0 (fun _ => None) /\
    mem_sections (w_dev w2)
    = (if tracked_at 4096 (mem_sections example_small_dev)
       then drop_section 4096 (mem_sections example_small_dev) ++
            [mksection (mkmr 1 1879048192 false) 0 1048576 4096]
       else mem_sections example_small_dev) /\
    rt_inv (mem (w_dev w2)) /\
    forall a h,
      maps_byte (mem (w_dev w2)) a h <->
      maps_byte (mem example_small_dev) a h /\
      ~ (4096 <= a < 4096 + 1048576).
Proof.
  apply (@region_add_then_del lp64
           (mkregion_event
              (mksection (mkmr 1 1879048192 false) 0 1048576 4096) true true)
           (mkworld example_small_dev (mkacc 0 [] 0 (fun _ => None)) [] 0
              (fun _ _ => (0, 0)) [])).
  - reflexivity.
  - reflexivity.
  - unfold rt_inv, table_ok, non_overlapping, merge_maximal, reg_ok, U64.
    simpl. concrete.
  - assert (E : event_ram
                  (mksection (mkmr 1 1879048192 false) 0 1048576 4096)
                = 1879048192) by (vm_compute; reflexivity).
    cbn [ev_section]. rewrite E. unfold reg_ok, U64. simpl. lia.
  - intros _ r [<- | []] H1 H2. unfold reg_end in H2. simpl in *. lia.
Defined.

Lemma log_global_sets_flag_witness :
  @vhost_log_global_start lp64
    (mkworld (mkdev [] [] [] 0 false true [] 0)
       (mkacc 0 [] 0 (fun _ => None)) [] 0 (fun _ _ => (0, 0)) [])
  = Some (tt,
      mkworld (mkdev [] [] [] 0 true true [] 0)
        (mkacc 67108864 [] 0 (fun _ => None)) [] 0 (fun _ _ => (0, 0))
        [Ioctl (VHOST_SET_LOG_BASE 0) true;
         Ioctl (VHOST_SET_FEATURES 67108864) true]) /\
  (true = true /\ @nil vhost_memory_region = [] /\
   @nil vhost_virtqueue = [] /\ true = true).
Proof.
  assert (Hrun :
    @vhost_log_global_start lp64
      (mkworld (mkdev [] [] [] 0 false true [] 0)
         (mkacc 0 [] 0 (fun _ => None)) [] 0 (fun _ _ => (0, 0)) [])
    = Some (tt,
        mkworld (mkdev [] [] [] 0 true true [] 0)
          (mkacc 67108864 [] 0 (fun _ => None)) [] 0 (fun _ _ => (0, 0))
          [Ioctl (VHOST_SET_LOG_BASE 0) true;
           Ioctl (VHOST_SET_FEATURES 67108864) true]))
    by (vm_compute; reflexivity).
  split; [exact Hrun|].
  apply (proj1 (@log_global_sets_flag lp64 _ _) Hrun).
Defined.

(** ** The whole bitmap *)

(** X27: on a started device with the log enabled, a
    [vhost_sync_dirty_bitmap] that returns has set to zero every log
    word in the window of a region or of a used ring, and has changed no
    other word nor the length of the log: a word cleared for one range
    stays zero through the later ones. *)
Theorem sync_bitmap_clears_windows {G : LogGeometry} (dev : vhost_dev)
  (section : MemoryRegionSection) (start_addr end_addr : Z)
  (lg' : list Z) (evs : list event) :
  0 <= start_addr ->
  log_enabled dev = true -> started dev = true ->
  vhost_sync_dirty_bitmap dev section start_addr end_addr
  = Some (lg', evs) ->
  length lg' = length (log dev) /\
  (forall r i, In r (logged_ranges dev) ->
     In i (window_words start_addr end_addr (fst r) (snd r)) ->
     nth i lg' 0 = 0) /\
  (forall i,
     (forall r, In r (logged_ranges dev) ->
        ~ In i (window_words start_addr end_addr (fst r) (snd r))) ->
     nth i lg' 0 = nth i (log dev) 0).
Proof.
  intros Hs Hlog Hst. unfold vhost_sync_dirty_bitmap.
  rewrite Hlog, Hst. cbn [negb orb]. intros Hrun.
  destruct (sync_ranges_exact _ _ _ _ _ Hs _ _ _ Hrun)
    as (Hlen & _ & Hin & Hout & _).
  auto.
Qed.

Lemma sync_bitmap_clears_windows_witness :
  length [0; 0] = length (log (example_sync_dev 0 8)) /\
  (forall r i, In r (logged_ranges (example_sync_dev 0 8)) ->
     In i (@window_words lp64 0 524288 (fst r) (snd r)) ->
     nth i [0; 0] 0 = 0) /\
  (forall i,
     (forall r, In r (logged_ranges (example_sync_dev 0 8)) ->
        ~ In i (@window_words lp64 0 524288 (fst r) (snd r))) ->
     nth i [0; 0] 0 = nth i (log (example_sync_dev 0 8)) 0).
Proof.
  apply (@sync_bitmap_clears_windows lp64 (example_sync_dev 0 8)
           example_section 0 524288 [0; 0]
           [LogLoad 0; LogLoad 1; LogFetchAnd 1; SetDirty 7 12288 4096]).
  - lia.
  - reflexivity.
  - reflexivity.
  - vm_compute. reflexivity.
Defined.
